(** * TrayFinder/utils: the dataset preparator

    A shallow embedding of [src/dataset_preparator.py] and the properties
    its specification states about it, followed by one of
    [src/logger_class.py].

    The file has two halves.  The first one holds the model: Python text
    (label files), the file system the preparator mutates, the few
    library calls it relies on ([pathlib], [os], [shutil]) and then the
    methods of [DatasetPreparator] themselves, one definition per method
    and under the method's own name.  The second half holds the lemmas and
    the theorems. *)

From stdpp Require Import gmap strings list fin_maps.
From Stdlib Require Import Ascii QArith.

Local Close Scope Q_scope.
Local Open Scope string_scope.
Local Open Scope list_scope.

(** ** Python text

    A Python [str] is a sequence of Unicode code points.  Label files are
    opened in text mode with [encoding="utf-8"], so what the code sees of
    a file is the decoded sequence. *)

Module Text.

Definition char := N.
Definition text := list char.

Definition LF : char := 10%N.
Definition CR : char := 13%N.
Definition SPACE : char := 32%N.
Definition ZERO : char := 48%N.

(** [Py_UNICODE_ISSPACE]: the characters [str.strip()] and [str.split()]
    treat as whitespace. *)
Definition is_space (c : char) : bool :=
  ((9 <=? c) && (c <=? 13) || (28 <=? c) && (c <=? 32)
   || (c =? 133) || (c =? 160) || (c =? 5760)
   || (8192 <=? c) && (c <=? 8202)
   || (c =? 8232) || (c =? 8233) || (c =? 8239) || (c =? 8287)
   || (c =? 12288))%N.

(** Reading in text mode with [newline=None]: ["\r\n"] and a lone ["\r"]
    both arrive as ["\n"]. *)
Fixpoint universal_newlines (t : text) : text :=
  match t with
  | [] => []
  | c :: t' =>
      if (c =? CR)%N then
        LF :: match t' with
              | [] => []
              | d :: t'' =>
                  if (d =? LF)%N then universal_newlines t''
                  else universal_newlines t'
              end
      else c :: universal_newlines t'
  end.

(** [file.readlines()] on already translated text: cut after every
    ["\n"], keeping it; a last line without one is kept as it is. *)
Fixpoint readlines (t : text) : list text :=
  match t with
  | [] => []
  | c :: t' =>
      if (c =? LF)%N then [c] :: readlines t'
      else match readlines t' with
           | [] => [[c]]
           | l :: ls => (c :: l) :: ls
           end
  end.

Fixpoint lstrip (t : text) : text :=
  match t with
  | c :: t' => if is_space c then lstrip t' else t
  | [] => []
  end.

Definition rstrip (t : text) : text := rev (lstrip (rev t)).

(** [str.strip()] *)
Definition strip (t : text) : text := rstrip (lstrip t).

Definition flush (tok : text) : list text :=
  match tok with [] => [] | _ => [tok] end.

(** [str.split()] with no separator: maximal runs of non-whitespace.
    [tok] is the run being read. *)
Fixpoint split_from (tok : text) (t : text) : list text :=
  match t with
  | [] => flush tok
  | c :: t' =>
      if is_space c then flush tok ++ split_from [] t'
      else split_from (tok ++ [c]) t'
  end.

Definition split (t : text) : list text := split_from [] t.

(** [sep.join(parts)] *)
Fixpoint join (sep : text) (parts : list text) : text :=
  match parts with
  | [] => []
  | [p] => p
  | p :: ps => p ++ sep ++ join sep ps
  end.

(** [parts[0] = '0'] on a non-empty list. *)
Definition set_first (x : text) (parts : list text) : list text :=
  match parts with
  | [] => []
  | _ :: rest => x :: rest
  end.

(** The body of the [for line in lines] loop of [_reset_label_classes]:
    [updated] grows by one rendered line when the line has tokens. *)
Definition reset_line (updated : list text) (line : text) : list text :=
  let parts := split (strip line) in
  match parts with
  | [] => updated
  | _ => updated ++ [join [SPACE] (set_first [ZERO] parts) ++ [LF]]
  end.

(** What [_reset_label_classes] leaves in a file whose decoded content
    was [t]: [readlines], the loop, [seek(0)], [writelines], [truncate].
    On write the text layer turns ["\n"] into [os.linesep], which is
    ["\n"] itself on the POSIX systems modelled here. *)
Definition reset_label_text (t : text) : text :=
  let lines := readlines (universal_newlines t) in
  let updated := foldl reset_line [] lines in
  concat updated.

(** The tokens of a line, as the loop computes them. *)
Definition tokens (line : text) : list text := split (strip line).

(** An ASCII literal as text. *)
Definition of_string (s : string) : text :=
  (λ a, N.of_nat (Ascii.nat_of_ascii a)) <$> String.list_ascii_of_string s.

(** A token: a non-empty run of characters none of which is whitespace. *)
Definition solid (w : text) : Prop := Forall (λ c, is_space c = false) w.
Definition token (w : text) : Prop := w ≠ [] ∧ solid w.

(** One line of the rewritten file. *)
Definition render (ws : list text) : text := join [SPACE] ws ++ [LF].

(** What the loop appends for a line, if anything. *)
Definition render_line (line : text) : option text :=
  match tokens line with
  | [] => None
  | ts => Some (render (set_first [ZERO] ts))
  end.

Definition rendered (r : text) : Prop :=
  ∃ ws, Forall token ws ∧ r = render ([ZERO] :: ws).

End Text.

(** ** Paths

    A path is the list of its components below the file-system root;
    [DatasetPreparator.__init__] resolves [base_dir] to such an absolute
    path.  File names are byte strings. *)

Abbreviation path := (list string).

Module Path.

(** Index of the last ["."] of a name: [name.rfind('.')]. *)
Fixpoint rfind_dot (s : string) : option nat :=
  match s with
  | EmptyString => None
  | String c s' =>
      match rfind_dot s' with
      | Some i => Some (S i)
      | None => if Ascii.eqb c "."%char then Some 0 else None
      end
  end.

(** [PurePath.suffix] of a final component (CPython up to 3.13):
    the part from the last dot on, unless that dot opens or closes the
    name. *)
Definition suffix (n : string) : string :=
  match rfind_dot n with
  | Some i =>
      if ((0 <? i) && (i <? String.length n - 1))%nat
      then String.substring i (String.length n - i) n
      else ""
  | None => ""
  end.

(** [str.lower()] on the ASCII letters; no other character lower-cases
    to a letter of an allowed extension. *)
Definition lower_ascii (c : ascii) : ascii :=
  let n := Ascii.nat_of_ascii c in
  if ((65 <=? n) && (n <=? 90))%nat then Ascii.ascii_of_nat (n + 32) else c.

Fixpoint lower (s : string) : string :=
  match s with
  | EmptyString => EmptyString
  | String c s' => String (lower_ascii c) (lower s')
  end.

(** [Path.name]: the final component, [""] for the root. *)
Definition name (p : path) : string := List.last p "".

(** [Path.parent] *)
Definition parent (p : path) : path := removelast p.

(** [p / n] for a single component [n]. *)
Definition child (p : path) (n : string) : path := p ++ [n].

(** Components of a relative path written with slashes, as in
    [base_dir / "images/train"]. *)
Fixpoint components (cur : string) (s : string) : list string :=
  match s with
  | EmptyString => match cur with EmptyString => [] | _ => [cur] end
  | String c s' =>
      if Ascii.eqb c "/"%char then
        match cur with
        | EmptyString => components EmptyString s'
        | _ => cur :: components EmptyString s'
        end
      else components (cur +:+ String c EmptyString) s'
  end.

Definition parse (s : string) : path := components EmptyString s.

(** [p / s] *)
Definition joinpath (p : path) (s : string) : path := p ++ parse s.

(** [str(p)] of an absolute path. *)
Definition str (p : path) : string :=
  match p with
  | [] => "/"
  | _ => String.concat "" ((λ n, "/" +:+ n) <$> p)
  end.

(** A glob pattern ["*" ++ tail] matches the names that end in [tail]. *)
Definition ends_with (tail n : string) : Prop :=
  String.list_ascii_of_string tail `suffix_of` String.list_ascii_of_string n.

(** [q] lies in the subtree of [p], [p] itself included. *)
Definition under (p q : path) : Prop := p `prefix_of` q.

(** [q] lies strictly below [p]. *)
Definition below (p q : path) : Prop := p `prefix_of` q ∧ q ≠ p.

(** [q] is an entry of the directory [p]. *)
Definition child_of (p q : path) : Prop :=
  p `prefix_of` q ∧ length q = S (length p).

(** The place of [q] once the subtree of [src] has become that of
    [dst]. *)
Definition rebase (src dst q : path) : path := dst ++ drop (length src) q.

#[global] Instance ends_with_dec tail n : Decision (ends_with tail n).
Proof. unfold ends_with. apply _. Defined.
#[global] Instance under_dec p q : Decision (under p q).
Proof. unfold under. apply _. Defined.
#[global] Instance below_dec p q : Decision (below p q).
Proof. unfold below. apply _. Defined.
#[global] Instance child_of_dec p q : Decision (child_of p q).
Proof. unfold child_of. apply _. Defined.

End Path.

(** ** The file system and the effects of a method

    The preparator keeps no state of its own: every method reads the
    directory tree and mutates it in place.  A world is that tree, one
    entry per existing path, together with what has been printed. *)

Inductive content :=
  | Utf8 (t : Text.text)       (* bytes that decode as UTF-8, decoded *)
  | Binary (bytes : list N).   (* bytes that do not: an image, say *)

Inductive entry :=
  | File (c : content)
  | Dir.

Inductive exn :=
  | FileNotFoundError
  | FileExistsError
  | IsADirectoryError
  | NotADirectoryError
  | PermissionError
  | DirectoryNotEmpty          (* OSError, ENOTEMPTY *)
  | InvalidArgument            (* OSError, EINVAL *)
  | ShutilError                (* shutil.Error *)
  | SameFileError
  | UnicodeDecodeError
  | YAMLError
  | OutOfFuel.                 (* the model's recursion bound, never Python's *)

(** One constructor per [print] of the source, holding what its f-string
    interpolates. *)
Inductive message :=
  | Flattening
  | ErrorMoving (src dst_dir : path) (e : exn)
  | Splitting
  | FailedToMove (fpath dest : path) (e : exn)
  | UpdatingLabels
  | FailedToUpdate (file_path : path) (e : exn)
  | RemovingUnwanted
  | Removed (f : path)
  | ErrorRemoving (f : path) (e : exn)
  | RemovedEmptyDirectory (p : path)
  | FailedToRemove (p : path) (e : exn)
  | Created (yaml_path : path)
  | FailedToCreateYaml (e : exn).

Record world := World {
  files : gmap path entry;
  stdout : list message
}.

Definition set_files (m : gmap path entry) (w : world) : world :=
  World m (stdout w).

Inductive outcome (A : Type) :=
  | Return (a : A)
  | Raise (e : exn).
Arguments Return {A} a.
Arguments Raise {A} e.

(** A computation runs in a world and ends by returning or raising. *)
Definition M (A : Type) : Type := world → outcome A * world.

Definition ret {A} (a : A) : M A := λ w, (Return a, w).
Definition raise {A} (e : exn) : M A := λ w, (Raise e, w).

Definition bind {A B} (m : M A) (k : A → M B) : M B :=
  λ w, match m w with
       | (Return a, w') => k a w'
       | (Raise e, w') => (Raise e, w')
       end.

Declare Scope py_scope.
Delimit Scope py_scope with py.
Notation "x <- m ;; k" := (bind m (λ x, k))
  (at level 100, m at next level, k at level 200, right associativity)
  : py_scope.
Notation "m ;; k" := (bind m (λ _, k))
  (at level 100, k at level 200, right associativity) : py_scope.
Local Open Scope py_scope.

(** [try: body except Exception as e: handler(e)] *)
Definition try_except {A} (body : M A) (handler : exn → M A) : M A :=
  λ w, match body w with
       | (Return a, w') => (Return a, w')
       | (Raise e, w') => handler e w'
       end.

(** [for x in xs: body(x)]: the first exception ends the loop. *)
Fixpoint for_each {A} (xs : list A) (body : A → M unit) : M unit :=
  match xs with
  | [] => ret tt
  | x :: xs' => body x ;; for_each xs' body
  end.

(** [Pool.map] and [Pool.starmap]: every task is run, whatever the
    earlier ones did, and the first exception a task raised is raised
    again by the call.  The tasks are run one after the other, in the
    order of the list. *)
Fixpoint pool_map {A} (task : A → M unit) (args : list A) : M unit :=
  match args with
  | [] => ret tt
  | a :: rest =>
      λ w, let (r, w1) := task a w in
           let (r', w2) := pool_map task rest w1 in
           (match r with Raise e => Raise e | Return _ => r' end, w2)
  end.

Definition print (m : message) : M unit :=
  λ w, (Return tt, World (files w) (stdout w ++ [m])).

(** The state of the world, read by a computation. *)
Definition get_files : M (gmap path entry) := λ w, (Return (files w), w).
Definition put_files (m : gmap path entry) : M unit :=
  λ w, (Return tt, set_files m w).

#[global] Instance content_eq_dec : EqDecision content.
Proof. solve_decision. Defined.
#[global] Instance entry_eq_dec : EqDecision entry.
Proof. solve_decision. Defined.
#[global] Instance exn_eq_dec : EqDecision exn.
Proof. solve_decision. Defined.
#[global] Instance message_eq_dec : EqDecision message.
Proof. solve_decision. Defined.

(** A value handed to [yaml.safe_dump]. *)
Inductive yaml :=
  | YStr (s : string)
  | YInt (n : nat)
  | YList (items : list string).

Record DatasetPreparator := { base_dir : path }.

Section Model.

(** The environment of a run.

    [locked p]: the regular file at [p] is held by someone else (a lock,
    a missing permission), so that opening, replacing, renaming or
    removing it fails with [PermissionError].  Directories are never
    locked and [stat] works on everything.

    [order]: the order in which the operating system lists entries,
    which is also the order in which the pool is handed its tasks.

    [random f]: the value [random()] returns in the task that handles
    [f]; every task draws once.

    [safe_dump]: PyYAML's emitter with [sort_keys=False], on a mapping
    given in insertion order. *)
Variable locked : path → bool.
Variable order : list path → list path.
Variable random : path → Q.
Variable safe_dump : list (string * yaml) → outcome Text.text.

(** *** [stat] and listings *)

Definition exists_ (m : gmap path entry) (p : path) : bool :=
  bool_decide (is_Some (m !! p)).

Definition is_dir (m : gmap path entry) (p : path) : bool :=
  bool_decide (m !! p = Some Dir).

Definition is_file (m : gmap path entry) (p : path) : bool :=
  match m !! p with Some (File _) => true | _ => false end.

Definition listing (m : gmap path entry) : list path :=
  order (map_to_list m).*1.

(** The entries of the directory [p]. *)
Definition scandir (m : gmap path entry) (p : path) : list path :=
  filter (Path.child_of p) (listing m).

(** [p.rglob("*" + tail)]: everything below [p] whose name ends in
    [tail]; [p.rglob("*")] is [rglob p ""]. *)
Definition rglob (p : path) (tail : string) (m : gmap path entry) : list path :=
  filter (λ q, Path.below p q ∧ Path.ends_with tail (Path.name q)) (listing m).

(** [Path.iterdir] *)
Definition iterdir (p : path) : M (list path) :=
  λ w, match files w !! p with
       | Some Dir => (Return (scandir (files w) p), w)
       | Some (File _) => (Raise NotADirectoryError, w)
       | None => (Raise FileNotFoundError, w)
       end.

(** *** [os] *)

Definition os_unlink (p : path) : M unit :=
  λ w, match files w !! p with
       | None => (Raise FileNotFoundError, w)
       | Some Dir => (Raise IsADirectoryError, w)
       | Some (File _) =>
           if locked p then (Raise PermissionError, w)
           else (Return tt, set_files (delete p (files w)) w)
       end.

Definition os_rmdir (p : path) : M unit :=
  λ w, match files w !! p with
       | None => (Raise FileNotFoundError, w)
       | Some (File _) => (Raise NotADirectoryError, w)
       | Some Dir =>
           match scandir (files w) p with
           | [] => (Return tt, set_files (delete p (files w)) w)
           | _ => (Raise DirectoryNotEmpty, w)
           end
       end.

Definition os_mkdir (p : path) : M unit :=
  λ w, match files w !! p with
       | Some _ => (Raise FileExistsError, w)
       | None =>
           match files w !! Path.parent p with
           | Some Dir => (Return tt, set_files (<[p := Dir]> (files w)) w)
           | Some (File _) => (Raise NotADirectoryError, w)
           | None => (Raise FileNotFoundError, w)
           end
       end.

(** The entries at and below [p], and all the others. *)
Definition subtree (p : path) (m : gmap path entry) : gmap path entry :=
  filter (λ kv, Path.under p kv.1) m.

Definition outside (p : path) (m : gmap path entry) : gmap path entry :=
  filter (λ kv, ¬ Path.under p kv.1) m.

Definition rebased (src dst : path) (m : gmap path entry) : gmap path entry :=
  list_to_map (prod_map (Path.rebase src dst) id <$> map_to_list m).

Definition move_tree (src dst : path) (m : gmap path entry) : gmap path entry :=
  rebased src dst (subtree src m) ∪ outside src m.

(** Where a new entry can be created: the parent must be a directory. *)
Definition create_at {A : Type} (m : gmap path entry) (p : path)
    (k : outcome A * world) (w : world) : outcome A * world :=
  match m !! Path.parent p with
  | Some Dir => k
  | Some (File _) => (Raise NotADirectoryError, w)
  | None => (Raise FileNotFoundError, w)
  end.

(** [os.rename] as POSIX has it: a regular file replaces a regular file,
    a directory replaces an empty directory. *)
Definition os_rename (src dst : path) : M unit :=
  λ w,
    let m := files w in
    match m !! src with
    | None => (Raise FileNotFoundError, w)
    | Some (File c) =>
        let moved := (Return tt, set_files (<[dst := File c]> (delete src m)) w) in
        if locked src then (Raise PermissionError, w)
        else match m !! dst with
             | Some Dir => (Raise IsADirectoryError, w)
             | Some (File _) =>
                 if locked dst then (Raise PermissionError, w) else moved
             | None => create_at m dst moved w
             end
    | Some Dir =>
        let moved := (Return tt, set_files (move_tree src dst m) w) in
        match m !! dst with
        | Some (File _) => (Raise NotADirectoryError, w)
        | Some Dir =>
            if decide (src = dst) then (Return tt, w)
            else if decide (Path.under src dst) then (Raise InvalidArgument, w)
            else match scandir m dst with
                 | [] => moved
                 | _ => (Raise DirectoryNotEmpty, w)
                 end
        | None =>
            if decide (Path.under src dst) then (Raise InvalidArgument, w)
            else create_at m dst moved w
        end
    end.

(** [os.makedirs(p)], [exist_ok=False]. *)
Fixpoint os_makedirs (fuel : nat) (p : path) : M unit :=
  match fuel with
  | 0 => os_mkdir p
  | S k =>
      λ w, (if exists_ (files w) (Path.parent p) then os_mkdir p
            else try_except (os_makedirs k (Path.parent p))
                   (λ e, match e with
                         | FileExistsError => ret tt
                         | _ => raise e
                         end) ;;
                 os_mkdir p) w
  end.

(** *** [shutil] *)

(** [shutil.copy2(src, dst)] *)
Definition shutil_copy2 (src dst : path) : M unit :=
  λ w,
    let m := files w in
    let dst := if is_dir m dst then Path.child dst (Path.name src) else dst in
    match m !! src with
    | None => (Raise FileNotFoundError, w)
    | Some Dir => (Raise IsADirectoryError, w)
    | Some (File c) =>
        let copied := (Return tt, set_files (<[dst := File c]> m) w) in
        if decide (src = dst) then (Raise SameFileError, w)
        else if locked src then (Raise PermissionError, w)
        else match m !! dst with
             | Some Dir => (Raise IsADirectoryError, w)
             | Some (File _) =>
                 if locked dst then (Raise PermissionError, w) else copied
             | None => create_at m dst copied w
             end
    end.

Definition locked_file (q : path) (e : entry) : bool :=
  match e with File _ => locked q | Dir => false end.

(** [shutil.copytree(src, dst)] followed by [shutil.rmtree(src)].
    [copytree] copies what it can and raises at the end if a file could
    not be read; [rmtree] is reached only when everything was. *)
Definition copytree_rmtree (src dst : path) : M unit :=
  os_makedirs (length dst) dst ;;
  λ w,
    let m := files w in
    let sub := filter (λ kv, Path.below src kv.1) m in
    let readable := filter (λ kv, locked_file kv.1 kv.2 = false) sub in
    let m1 := rebased src dst readable ∪ m in
    if decide (map_Forall (λ q e, locked_file q e = false) sub)
    then (Return tt, set_files (outside src m1) w)
    else (Raise ShutilError, set_files m1 w).

(** What [shutil.move] does once [os.rename] has raised [OSError]. *)
Definition move_fallback (src dst real_dst : path) (e : exn) : M unit :=
  λ w,
    if is_dir (files w) src then
      if decide (Path.under src dst) then (Raise ShutilError, w)
      else copytree_rmtree src real_dst w
    else (shutil_copy2 src real_dst ;; os_unlink src) w.

(** [shutil.move(src, dst)] *)
Definition shutil_move (src dst : path) : M unit :=
  λ w,
    let m := files w in
    if is_dir m dst then
      if decide (src = dst) then os_rename src dst w
      else
        let real_dst := Path.child dst (Path.name src) in
        if exists_ m real_dst then (Raise ShutilError, w)
        else try_except (os_rename src real_dst)
               (move_fallback src dst real_dst) w
    else try_except (os_rename src dst) (move_fallback src dst dst) w.

(** *** [pathlib] and text files *)

(** [Path.mkdir(parents=..., exist_ok=...)] *)
Fixpoint path_mkdir (fuel : nat) (p : path) (parents exist_ok : bool) : M unit :=
  λ w,
    match os_mkdir p w with
    | (Return _, w') => (Return tt, w')
    | (Raise FileNotFoundError, _) =>
        if negb parents || bool_decide (Path.parent p = p)
        then (Raise FileNotFoundError, w)
        else match fuel with
             | 0 => (Raise OutOfFuel, w)
             | S k =>
                 (path_mkdir k (Path.parent p) true true ;;
                  path_mkdir k p false exist_ok) w
             end
    | (Raise e, _) =>
        if negb exist_ok || negb (is_dir (files w) p) then (Raise e, w)
        else (Return tt, w)
    end.

(** [p.open("r+", encoding="utf-8")] *)
Definition open_rw (p : path) : M unit :=
  λ w, match files w !! p with
       | None => (Raise FileNotFoundError, w)
       | Some Dir => (Raise IsADirectoryError, w)
       | Some (File _) =>
           if locked p then (Raise PermissionError, w) else (Return tt, w)
       end.

(** Reading an open file as text. *)
Definition read_text (p : path) : M Text.text :=
  λ w, match files w !! p with
       | Some (File (Utf8 t)) => (Return t, w)
       | _ => (Raise UnicodeDecodeError, w)
       end.

(** [p.open("w", encoding="utf-8")]: the file is created, or emptied. *)
Definition open_w (p : path) : M unit :=
  λ w,
    let opened := (Return tt, set_files (<[p := File (Utf8 [])]> (files w)) w) in
    match files w !! p with
    | Some Dir => (Raise IsADirectoryError, w)
    | Some (File _) =>
        if locked p then (Raise PermissionError, w) else opened
    | None => create_at (files w) p opened w
    end.

(** Writing the whole of an open file. *)
Definition write_text (p : path) (t : Text.text) : M unit :=
  λ w, (Return tt, set_files (<[p := File (Utf8 t)]> (files w)) w).

(** ** [DatasetPreparator] *)

(** [__init__]; [base_dir] is given resolved. *)
Definition __init__ (base_dir : path) : M DatasetPreparator :=
  path_mkdir (length base_dir) base_dir true true ;;
  ret {| base_dir := base_dir |}.

(** *** File organization *)

Definition _move_file_safely (src dst_dir : path) : M unit :=
  try_except
    (let src_path := src in
     let dst_path := Path.child dst_dir (Path.name src_path) in
     m <- get_files ;;
     (if exists_ m dst_path
         && String.eqb (Path.suffix (Path.name dst_path)) ".jpg"
      then os_unlink dst_path else ret tt) ;;
     shutil_move src_path dst_path)
    (λ e, print (ErrorMoving src dst_dir e)).

Definition flatten_all_files (self : DatasetPreparator) : M unit :=
  print Flattening ;;
  m <- get_files ;;
  let files := filter (λ f, is_file m f) (rglob (base_dir self) "" m) in
  let args := (λ f, (f, base_dir self)) <$> files in
  pool_map (λ '(src, dst_dir), _move_file_safely src dst_dir) args.

Definition _create_split_dirs (self : DatasetPreparator) : M unit :=
  for_each (list_prod ["images"; "labels"] ["train"; "val"])
    (λ '(category, split),
       let p := Path.child (Path.child (base_dir self) category) split in
       path_mkdir (length p) p true true).

(** [x < y] on the values of two floats, which are rationals. *)
Definition float_lt (x y : Q) : bool := negb (Qle_bool y x).

Definition _assign_to_split_folder (self : DatasetPreparator)
    (file_path : path) (train_ratio : Q) : M unit :=
  let fpath := file_path in
  let category :=
    if bool_decide (Path.suffix (Path.name fpath) ∈ [".jpg"; ".png"])
    then "images" else "labels" in
  let split := if float_lt (random fpath) train_ratio then "train" else "val" in
  let dest :=
    Path.child (Path.child (Path.child (base_dir self) category) split)
      (Path.name fpath) in
  try_except (shutil_move fpath dest)
    (λ e, print (FailedToMove fpath dest e)).

Definition split_dataset (self : DatasetPreparator) (train_ratio : Q) : M unit :=
  print Splitting ;;
  _create_split_dirs self ;;
  entries <- iterdir (base_dir self) ;;
  let files :=
    filter (λ f, Path.suffix (Path.name f) ∈ [".jpg"; ".png"; ".txt"]) entries in
  let args := (λ f, (f, train_ratio)) <$> files in
  pool_map (λ '(f, r), _assign_to_split_folder self f r) args.

(** *** Label cleaning *)

Definition _reset_label_classes (file_path : path) : M unit :=
  try_except
    (open_rw file_path ;;
     t <- read_text file_path ;;
     write_text file_path (Text.reset_label_text t))
    (λ e, print (FailedToUpdate file_path e)).

Definition update_all_labels (self : DatasetPreparator) : M unit :=
  print UpdatingLabels ;;
  m <- get_files ;;
  let txt_files := rglob (base_dir self) ".txt" m in
  pool_map _reset_label_classes txt_files.

(** *** Cleaning *)

(** The generator [rglob("*")] is consumed while files are deleted;
    deleting a file it has yielded does not change what it yields next,
    so the paths are those of the tree at the start. *)
Definition remove_unwanted_files (self : DatasetPreparator) : M unit :=
  print RemovingUnwanted ;;
  let allowed := [".jpg"; ".png"; ".txt"] in
  m <- get_files ;;
  for_each (rglob (base_dir self) "" m)
    (λ f,
       m' <- get_files ;;
       if is_file m' f
          && negb (bool_decide (Path.lower (Path.suffix (Path.name f)) ∈ allowed))
       then try_except (os_unlink f ;; print (Removed f))
              (λ e, print (ErrorRemoving f e))
       else ret tt).

(** [for root, dirs, _ in os.walk(top, topdown=False): body(root, dirs)].
    A directory is listed when the walk reaches it, its subdirectories
    are walked next, and only then is it yielded to the loop body, with
    the names listed at the start. *)
Fixpoint os_walk_bottom_up (fuel : nat) (top : path)
    (body : path → list string → M unit) : M unit :=
  match fuel with
  | 0 => raise OutOfFuel
  | S k =>
      m <- get_files ;;
      let dirs := Path.name <$> filter (λ q, is_dir m q) (scandir m top) in
      for_each dirs (λ d, os_walk_bottom_up k (Path.child top d) body) ;;
      body top dirs
  end.

(** The length of the longest path of the tree: no walk goes deeper. *)
Definition depth (m : gmap path entry) : nat :=
  max_list (length <$> (map_to_list m).*1).

Definition remove_empty_dirs (self : DatasetPreparator) : M unit :=
  m <- get_files ;;
  os_walk_bottom_up (S (depth m)) (base_dir self)
    (λ root dirs,
       for_each dirs
         (λ d,
            let path := Path.child root d in
            entries <- iterdir path ;;
            match entries with
            | [] =>
                try_except
                  (os_rmdir path ;; print (RemovedEmptyDirectory path))
                  (λ e, print (FailedToRemove path e))
            | _ => ret tt
            end)).

(** *** YAML generation *)

Definition create_yaml (self : DatasetPreparator)
    (class_names : option (list string)) : M unit :=
  let class_names := default [] class_names in
  let data :=
    [("train", YStr (Path.str (Path.joinpath (base_dir self) "images/train")));
     ("val", YStr (Path.str (Path.joinpath (base_dir self) "images/val")));
     ("nc", YInt (length class_names));
     ("names", YList class_names)] in
  let yaml_path := Path.joinpath (base_dir self) "dataset.yaml" in
  try_except
    (open_w yaml_path ;;
     t <- (λ w, (safe_dump data, w)) ;;
     write_text yaml_path t ;;
     print (Created yaml_path))
    (λ e, print (FailedToCreateYaml e)).

End Model.

(** ** Vocabulary of the statements

    What follows names parts of the model the theorems speak about: the
    world a computation leaves, environments and trees to try the model
    on, and the relations between two worlds the proofs go through. *)

(** The world a computation leaves. *)
Definition run {A} (c : M A) (w : world) : world := (c w).2.

(** An environment in which no file is locked, and the listing order of
    the model's own maps. *)
Definition unlocked : path → bool := λ _, false.
Definition listed : list path → list path := λ l, l.

(** *** Loop bodies and tests of the source, under names *)

(** What one run of [_reset_label_classes] makes of the entry at the path
    it is given. *)
Definition reset_entry (locked : path → bool) (q : path) (o : option entry)
    : option entry :=
  match o with
  | Some (File (Utf8 t)) =>
      if locked q then o else Some (File (Utf8 (Text.reset_label_text t)))
  | _ => o
  end.

(** Why [_reset_label_classes] cannot rewrite what it finds at a path,
    if it cannot: the exception of [open] or of [readlines]. *)
Definition label_failure (locked : path → bool) (q : path) (o : option entry)
    : option exn :=
  match o with
  | None => Some FileNotFoundError
  | Some Dir => Some IsADirectoryError
  | Some (File c) =>
      if locked q then Some PermissionError
      else match c with
           | Utf8 _ => None
           | Binary _ => Some UnicodeDecodeError
           end
  end.

(** The extensions the splitter recognizes. *)
Definition recognized (n : string) : Prop :=
  Path.suffix n ∈ [".jpg"; ".png"; ".txt"].

Definition categories : list string := ["images"; "labels"].
Definition splits : list string := ["train"; "val"].

(** [category], [split] and [dest] as [_assign_to_split_folder] computes
    them. *)
Definition split_category (n : string) : string :=
  if bool_decide (Path.suffix n ∈ [".jpg"; ".png"]) then "images" else "labels".

Definition split_name (random : path → Q) (f : path) (train_ratio : Q) : string :=
  if float_lt (random f) train_ratio then "train" else "val".

Definition split_dest (random : path → Q) (self : DatasetPreparator)
    (f : path) (train_ratio : Q) : path :=
  Path.child
    (Path.child (Path.child (base_dir self) (split_category (Path.name f)))
       (split_name random f train_ratio))
    (Path.name f).

(** Nothing but directories stands where the split directories go. *)
Definition split_dirs_free (self : DatasetPreparator) (w : world) : Prop :=
  ∀ cat split, cat ∈ categories → split ∈ splits →
    is_file (files w) (Path.child (base_dir self) cat) = false
    ∧ is_file (files w) (Path.child (Path.child (base_dir self) cat) split)
      = false.

(** A split directory or one of its ancestors. *)
Definition toward_split_dir (self : DatasetPreparator) (q : path) : Prop :=
  ∃ cat split, cat ∈ categories ∧ split ∈ splits
    ∧ Path.under q (Path.child (Path.child (base_dir self) cat) split).

(** The cleaner's test on a name: the lower-cased suffix is allowed. *)
Definition allowed (n : string) : Prop :=
  Path.lower (Path.suffix n) ∈ [".jpg"; ".png"; ".txt"].

(** The files [remove_unwanted_files] deletes. *)
Definition unwanted (locked : path → bool) (m : gmap path entry) (q : path) : Prop :=
  is_file m q = true ∧ ¬ allowed (Path.name q) ∧ locked q = false.

(** The body of the loop of [remove_unwanted_files]. *)
Definition sweep (locked : path → bool) (f : path) : M unit :=
  m' <- get_files ;;
  if is_file m' f
     && negb (bool_decide (Path.lower (Path.suffix (Path.name f))
                           ∈ [".jpg"; ".png"; ".txt"]))
  then try_except (os_unlink locked f ;; print (Removed f))
         (λ e, print (ErrorRemoving f e))
  else ret tt.

(** What [remove_unwanted_files] prints for a path of its listing. *)
Definition sweep_report (locked : path → bool) (m : gmap path entry) (f : path)
    : option message :=
  if is_file m f
     && negb (bool_decide (Path.lower (Path.suffix (Path.name f))
                           ∈ [".jpg"; ".png"; ".txt"]))
  then Some (if locked f then ErrorRemoving f PermissionError else Removed f)
  else None.

(** The body of the loop of [remove_empty_dirs], for one name and for the
    names of one directory. *)
Definition remove_if_empty (order : list path → list path) (root : path)
    (d : string) : M unit :=
  let path := Path.child root d in
  entries <- iterdir order path ;;
  match entries with
  | [] =>
      try_except (os_rmdir order path ;; print (RemovedEmptyDirectory path))
        (λ e, print (FailedToRemove path e))
  | _ => ret tt
  end.

Definition remove_empty_in (order : list path → list path) (root : path)
    (dirs : list string) : M unit :=
  for_each dirs (remove_if_empty order root).

(** The directories [os.walk] lists in [top]. *)
Definition listed_dirs (order : list path → list path)
    (m : gmap path entry) (top : path) : list string :=
  Path.name <$> filter (λ q, is_dir m q) (scandir order m top).

(** The mapping [create_yaml] hands to the emitter, key by key. *)
Definition manifest (train val : string) (names : list string)
    : list (string * yaml) :=
  [("train", YStr train); ("val", YStr val);
   ("nc", YInt (length names)); ("names", YList names)].

(** *** Relations between two worlds *)

(** [shutil.move(src, dst)] changes at most the subtree of [src], the
    subtree of [dst], and the missing ancestors of [dst]. *)
Definition confined (src dst : path) (w w' : world) : Prop :=
  stdout w' = stdout w
  ∧ ∀ q, ¬ Path.under src q → ¬ Path.under dst q →
         is_Some (files w !! q) ∨ ¬ Path.under q dst →
         files w' !! q = files w !! q.

(** [w'] is [w] with some missing paths among [P] made directories. *)
Definition grown (P : path → Prop) (w w' : world) : Prop :=
  stdout w' = stdout w
  ∧ ∀ q, files w' !! q = files w !! q
         ∨ (P q ∧ files w !! q = None ∧ files w' !! q = Some Dir).

(** A tree: whatever exists lies in a directory. *)
Definition well_formed (m : gmap path entry) : Prop :=
  ∀ p n, is_Some (m !! Path.child p n) → m !! p = Some Dir.

Definition has_file_below (m : gmap path entry) (p : path) : Prop :=
  ∃ q c, Path.under p q ∧ m !! q = Some (File c).

(** Every directory strictly below [top] holds a file somewhere. *)
Definition pruned (top : path) (m : gmap path entry) : Prop :=
  ∀ p, Path.below top p → m !! p = Some Dir → has_file_below m p.

(** [m'] is [m] without some directories strictly below [top]. *)
Definition shrunk (top : path) (m m' : gmap path entry) : Prop :=
  ∀ q, m' !! q = m !! q
       ∨ (Path.below top q ∧ m !! q = Some Dir ∧ m' !! q = None).

(** Enough fuel to walk the subtree of [top]. *)
Definition shallow (k : nat) (top : path) (m : gmap path entry) : Prop :=
  ∀ q, Path.under top q → is_Some (m !! q) → (length q < length top + k)%nat.


(** Flattening without collisions: the regular files below [b] bear
    names that differ from one another and from the names of the entries
    directly under [b]. *)
Definition distinct_names (b : path) (m : gmap path entry) : Prop :=
  ∀ f q, Path.below b f → is_file m f = true →
    (Path.below b q ∧ is_file m q = true)
    ∨ (Path.child_of b q ∧ is_Some (m !! q)) →
    Path.name q = Path.name f → q = f.

(** *** Trees to try the model on *)

Definition tree (l : list (path * entry)) : world := World (list_to_map l) [].
Definition image (n : N) : entry := File (Binary [n]).
Definition label (s : string) : entry := File (Utf8 (Text.of_string s)).

Definition ds : DatasetPreparator := {| base_dir := ["data"; "ds"] |}.

(** One label file, with a blank line and runs of blanks. *)
Definition labelled : world :=
  tree [([], Dir); (["data"], Dir); (["data"; "ds"], Dir);
        (["data"; "ds"; "a.txt"],
         label "3 0.5 0.5  0.1 0.2
 
7 1 2")].

(** A picture that already lies at the root. *)
Definition picture_at_root : world :=
  tree [([], Dir); (["data"], Dir); (["data"; "ds"], Dir);
        (["data"; "ds"; "a.jpg"], image 1)].

(** Two label files of the same name, one at the root. *)
Definition two_labels : world :=
  tree [([], Dir); (["data"], Dir); (["data"; "ds"], Dir);
        (["data"; "ds"; "x.txt"], label "0 1 2");
        (["data"; "ds"; "sub"], Dir);
        (["data"; "ds"; "sub"; "x.txt"], label "5 6 7")].


(** A flat dataset with a stray file, an upper-case extension, a
    directory named like a label file and a nest of empty directories. *)
Definition dataset : world :=
  tree [([], Dir); (["data"], Dir); (["data"; "ds"], Dir);
        (["data"; "ds"; "a.jpg"], image 1);
        (["data"; "ds"; "a.txt"], label "3 0.5 0.5 0.1 0.2");
        (["data"; "ds"; "b.png"], image 2);
        (["data"; "ds"; "c.JPG"], image 3);
        (["data"; "ds"; "notes.md"], label "to do");
        (["data"; "ds"; "clips.txt"], Dir);
        (["data"; "ds"; "clips.txt"; "x.bin"], image 4);
        (["data"; "ds"; "old"], Dir);
        (["data"; "ds"; "old"; "older"], Dir)].

(** Files at three depths, all of different names, and an empty
    directory. *)
Definition nested : world :=
  tree [([], Dir); (["data"], Dir); (["data"; "ds"], Dir);
        (["data"; "ds"; "a.png"], image 1);
        (["data"; "ds"; "cam1"], Dir);
        (["data"; "ds"; "cam1"; "b.jpg"], image 2);
        (["data"; "ds"; "cam1"; "b.txt"], label "1 0.5 0.5 1 1");
        (["data"; "ds"; "cam1"; "night"], Dir);
        (["data"; "ds"; "cam1"; "night"; "c.jpg"], image 3);
        (["data"; "ds"; "cam2"], Dir);
        (["data"; "outside.jpg"], image 4)].

(** A draw for every file, and a train ratio. *)
Definition even_draw : path → Q := λ _, (1 # 2)%Q.
Definition four_fifths : Q := (4 # 5)%Q.

(** An emitter to try the model with: the keys, in the order given. *)
Definition keys_only (data : list (string * yaml)) : outcome Text.text :=
  Return (Text.of_string (String.concat " " data.*1)).

(** Paths given as [b ++ l] and compared by prefix. *)
Ltac prefix_inv H :=
  unfold Path.under, Path.child in H; rewrite <- ?app_assoc in H; simpl in H;
  repeat match type of H with
  | _ ++ _ `prefix_of` _ ++ _ => apply prefix_app_inv in H
  | _ :: _ `prefix_of` [] => by apply prefix_nil_not in H
  | ?x :: _ `prefix_of` ?y :: _ =>
      let E := fresh "E" in
      pose proof (prefix_cons_inv_1 _ _ _ _ H) as E;
      apply prefix_cons_inv_2 in H
  end.

(** * The logger

    [src/logger_class.py]: the class [LoggerClass], a thin layer over the
    module [logging].  The part of [logging] the class goes through is
    modelled first: the root logger with its level and its handlers, and
    [basicConfig], which installs a handler only when the root logger has
    none. *)

Module Logger.

Inductive exception :=
  | AttributeError
  | OSError.

Inductive result (A : Type) :=
  | Ok (a : A)
  | Err (e : exception).
Arguments Ok {A} a.
Arguments Err {A} e.

(** The four levels the class uses, with [logging]'s numbers and names. *)
Inductive lvl := DEBUG | INFO | WARNING | ERROR.

Definition levelno (l : lvl) : N :=
  match l with DEBUG => 10 | INFO => 20 | WARNING => 30 | ERROR => 40 end%N.

Definition levelname (l : lvl) : string :=
  match l with
  | DEBUG => "DEBUG" | INFO => "INFO" | WARNING => "WARNING" | ERROR => "ERROR"
  end.

(** The handlers [basicConfig] makes: a [FileHandler] for the file it was
    given, formatting with the [format] of [configure], or a
    [StreamHandler] on [sys.stderr], formatting with [BASIC_FORMAT]. *)
Inductive handler :=
  | FileHandler (filename : string)
  | StreamHandler.

(** What the class and [logging] keep between calls, and what they have
    written.  [log_files] is keyed by the name a file was opened under;
    [clock] counts the readings of the time taken so far. *)
Record state := State {
  handlers : list handler;
  level : lvl;
  script_name : option string;
  log_files : gmap string (list string);
  stderr : list string;
  stdout : list string;
  clock : nat
}.

(** After [import logging]: the root logger is at [WARNING] and has no
    handler; the class has no [script_name] yet. *)
Definition imported : state := State [] WARNING None ∅ [] [] 0.

Definition L (A : Type) : Type := state → result A * state.

Definition ret {A} (a : A) : L A := λ s, (Ok a, s).
Definition bind {A B} (m : L A) (k : A → L B) : L B :=
  λ s, match m s with
       | (Ok a, s') => k a s'
       | (Err e, s') => (Err e, s')
       end.
Definition run {A} (c : L A) (s : state) : state := (c s).2.

Declare Scope log_scope.
Delimit Scope log_scope with log.
Notation "x <- m ;; k" := (bind m (λ x, k))
  (at level 100, m at next level, k at level 200, right associativity)
  : log_scope.
Notation "m ;; k" := (bind m (λ _, k))
  (at level 100, k at level 200, right associativity) : log_scope.

Definition starts_with_sep (s : string) : bool :=
  match s with
  | String c _ => Ascii.eqb c "/"%char
  | EmptyString => false
  end.

Fixpoint ends_with_sep (s : string) : bool :=
  match s with
  | EmptyString => false
  | String c EmptyString => Ascii.eqb c "/"%char
  | String _ s' => ends_with_sep s'
  end.

(** [os.path.join(a, b)] of [posixpath]. *)
Definition os_path_join (a b : string) : string :=
  if starts_with_sep b then b
  else if String.eqb a EmptyString || ends_with_sep a then a +:+ b
  else a +:+ "/" +:+ b.

Section Class.

Local Open Scope log_scope.

(** [constants.REPORTS_DIR] of [utils.config], which the class body
    creates when the class is defined; whether [open(f, "a")] succeeds;
    what [time.strftime("%Y.%m.%d_%H:%M:%S_")] and the
    formatter's [asctime] give at the n-th reading of the time; the
    dictionaries handed to [log_json] and their [str]. *)
Variable REPORTS_DIR : string.
Variable openable : string → bool.
Variable strftime : nat → string.
Variable asctime : nat → string.
Variable J : Type.
Variable str : J → string.

Definition set_handlers (hs : list handler) (s : state) : state :=
  State hs (level s) (script_name s) (log_files s) (stderr s) (stdout s) (clock s).
Definition set_level (l : lvl) (s : state) : state :=
  State (handlers s) l (script_name s) (log_files s) (stderr s) (stdout s) (clock s).
Definition set_script_name (n : string) (s : state) : state :=
  State (handlers s) (level s) (Some n) (log_files s) (stderr s) (stdout s) (clock s).
Definition set_log_files (m : gmap string (list string)) (s : state) : state :=
  State (handlers s) (level s) (script_name s) m (stderr s) (stdout s) (clock s).
Definition set_stderr (l : list string) (s : state) : state :=
  State (handlers s) (level s) (script_name s) (log_files s) l (stdout s) (clock s).
Definition set_stdout (l : list string) (s : state) : state :=
  State (handlers s) (level s) (script_name s) (log_files s) (stderr s) l (clock s).

(** One reading of the time. *)
Definition tick : L nat :=
  λ s, (Ok (clock s),
        State (handlers s) (level s) (script_name s) (log_files s) (stderr s)
          (stdout s) (S (clock s))).

(** [logging.basicConfig(filename=..., format=...)], and
    [logging.basicConfig()] for [None]: nothing happens when the root
    logger has a handler; otherwise a handler is made, which for a file
    opens it for appending at once, and added. *)
Definition basicConfig (filename : option string) : L unit :=
  λ s,
    match handlers s with
    | [] =>
        match filename with
        | Some f =>
            if String.eqb f EmptyString then (Ok tt, set_handlers [StreamHandler] s)
            else if openable f
            then (Ok tt,
                  set_handlers [FileHandler f]
                    (set_log_files
                       (<[f := default [] (log_files s !! f)]> (log_files s)) s))
            else (Err OSError, s)
        | None => (Ok tt, set_handlers [StreamHandler] s)
        end
    | _ => (Ok tt, s)
    end.

(** [logging.getLogger().setLevel(l)] *)
Definition setLevel (l : lvl) : L unit := λ s, (Ok tt, set_level l s).

(** A record as a handler formats it: ['%(asctime)s %(levelname)s:
    %(message)s'] in the file, [BASIC_FORMAT] on [stderr]. *)
Definition format_record (h : handler) (t : nat) (l : lvl) (msg : string)
    : string :=
  match h with
  | FileHandler _ => asctime t +:+ " " +:+ levelname l +:+ ": " +:+ msg
  | StreamHandler => levelname l +:+ ":root:" +:+ msg
  end.

Definition emit (text : handler → string) (s : state) (h : handler) : state :=
  match h with
  | FileHandler f =>
      set_log_files
        (<[f := default [] (log_files s !! f) ++ [text h]]> (log_files s)) s
  | StreamHandler => set_stderr (stderr s ++ [text h]) s
  end.

(** [root.log(l, msg)]: a record is made when the level is enabled, and
    every handler of the root logger emits it. *)
Definition root_log (l : lvl) (msg : string) : L unit :=
  λ s,
    if (levelno (level s) <=? levelno l)%N
    then (t <- tick ;;
          λ s', (Ok tt,
                 foldl (emit (λ h, format_record h t l msg)) s' (handlers s')))
           s
    else (Ok tt, s).

(** [logging.debug], [logging.info], [logging.warning], [logging.error]:
    with no handler on the root logger, [basicConfig()] is called
    first. *)
Definition logging_log (l : lvl) (msg : string) : L unit :=
  (λ s, match handlers s with
        | [] => basicConfig None s
        | _ => (Ok tt, s)
        end) ;;
  root_log l msg.

Definition print (message : string) : L unit :=
  λ s, (Ok tt, set_stdout (stdout s ++ [message]) s).

(** ** [LoggerClass] *)

Definition configure (file_name : string) (debug : bool) : L unit :=
  t <- tick ;;
  let script_name := strftime t +:+ file_name in
  (λ s, (Ok tt, set_script_name script_name s)) ;;
  basicConfig (Some (os_path_join REPORTS_DIR (script_name +:+ ".log"))) ;;
  if debug then setLevel DEBUG else setLevel INFO.

Definition get_log_path : L string :=
  λ s, match script_name s with
       | Some n => (Ok (os_path_join REPORTS_DIR (n +:+ ".log")), s)
       | None => (Err AttributeError, s)
       end.

Definition info (message : string) (to_print : bool) : L unit :=
  logging_log INFO message ;;
  if to_print then print message else ret tt.

Definition debug (message : string) (to_print : bool) : L unit :=
  logging_log DEBUG message ;;
  if to_print then print message else ret tt.

Definition error (message : string) (to_print : bool) : L unit :=
  logging_log ERROR message ;;
  if to_print then print message else ret tt.

Definition warning (message : string) (to_print : bool) : L unit :=
  logging_log WARNING message ;;
  if to_print then print message else ret tt.

Definition log_json (json_dict : J) (category : string) : L unit :=
  if String.eqb category "info" then logging_log INFO (str json_dict)
  else if String.eqb category "debug" then logging_log DEBUG (str json_dict)
  else if String.eqb category "error" then logging_log ERROR (str json_dict)
  else if String.eqb category "warning" then logging_log WARNING (str json_dict)
  else ret tt.

(** The method of the class that logs at a level. *)
Definition method (l : lvl) : string → bool → L unit :=
  match l with
  | DEBUG => debug | INFO => info | WARNING => warning | ERROR => error
  end.

(** The file [configure] names when its reading of the time is the
    [t]-th. *)
Definition log_path (t : nat) (file_name : string) : string :=
  os_path_join REPORTS_DIR ((strftime t +:+ file_name) +:+ ".log").

End Class.

(** An environment to try the model in. *)
Definition sample_stamp (n : nat) : string :=
  match n with 0 => "2024.05.01_10:00:00_" | _ => "2024.05.01_10:00:01_" end.
Definition sample_asctime (n : nat) : string := "2024-05-01 10:00:02,000".

End Logger.

(** * Lemmas and theorems *)

Module TextFacts.
Import Text.

Lemma flush_nonempty tok : tok ≠ [] → flush tok = [tok].
Proof. by destruct tok. Qed.

Lemma split_from_solid w tok t :
  solid w → split_from tok (w ++ t) = split_from (tok ++ w) t.
Proof.
  intros Hw. revert tok. induction Hw as [|c w Hc _ IH]; intros tok; simpl.
  - by rewrite app_nil_r.
  - rewrite Hc, IH. by rewrite <- app_assoc.
Qed.

Lemma split_from_spaces tok s :
  Forall (λ c, is_space c = true) s → split_from tok s = flush tok.
Proof.
  intros Hs. revert tok. induction Hs as [|c s Hc _ IH]; intros tok; simpl; [done|].
  rewrite Hc, IH. simpl. by rewrite app_nil_r.
Qed.

Lemma split_from_trailing tok t s :
  Forall (λ c, is_space c = true) s → split_from tok (t ++ s) = split_from tok t.
Proof.
  intros Hs. revert tok. induction t as [|c t IH]; intros tok; simpl.
  - by apply split_from_spaces.
  - destruct (is_space c); by rewrite IH.
Qed.

Lemma flush_tokens tok : solid tok → Forall token (flush tok).
Proof.
  intros Htok. destruct tok as [|c tok]; simpl; [apply Forall_nil_2|].
  apply Forall_singleton. by split.
Qed.

Lemma split_from_tokens tok t :
  solid tok → Forall token (split_from tok t).
Proof.
  revert tok. induction t as [|c t IH]; intros tok Htok; simpl.
  - by apply flush_tokens.
  - destruct (is_space c) eqn:Hc.
    + apply Forall_app. split; [by apply flush_tokens|]. apply IH. constructor.
    + apply IH. apply Forall_app. split; [done|]. by apply Forall_singleton.
Qed.

Lemma split_tokens t : Forall token (split t).
Proof. apply split_from_tokens. constructor. Qed.

Lemma lstrip_split t : split (lstrip t) = split t.
Proof.
  unfold split. induction t as [|c t IH]; simpl; [done|].
  destruct (is_space c) eqn:Hc; [done|]. simpl. by rewrite Hc.
Qed.

Lemma lstrip_decompose t :
  ∃ s, t = s ++ lstrip t ∧ Forall (λ c, is_space c = true) s.
Proof.
  induction t as [|c t (s & Ht & Hs)]; simpl.
  - by exists [].
  - destruct (is_space c) eqn:Hc.
    + exists (c :: s). split; [simpl; by f_equal | by constructor].
    + by exists [].
Qed.

Lemma rstrip_decompose t :
  ∃ s, t = rstrip t ++ s ∧ Forall (λ c, is_space c = true) s.
Proof.
  unfold rstrip. destruct (lstrip_decompose (rev t)) as (s & Ht & Hs).
  exists (rev s). split.
  - rewrite <- rev_app_distr, <- Ht. by rewrite rev_involutive.
  - by apply Forall_rev.
Qed.

Lemma rstrip_split t : split (rstrip t) = split t.
Proof.
  destruct (rstrip_decompose t) as (s & Ht & Hs).
  rewrite Ht at 2. unfold split. by rewrite split_from_trailing.
Qed.

(** [line.strip().split()] is [line.split()]. *)
Lemma tokens_split line : tokens line = split line.
Proof. unfold tokens, strip. by rewrite rstrip_split, lstrip_split. Qed.

Lemma space_is_space : is_space SPACE = true.
Proof. reflexivity. Qed.
Lemma lf_is_space : is_space LF = true.
Proof. reflexivity. Qed.
Lemma zero_token : token [ZERO].
Proof. split; [done|]. by repeat constructor. Qed.

Lemma split_from_join_rest w ws t :
  token w → Forall token ws →
  Forall (λ c, is_space c = true) t →
  split_from w (concat ((λ x, SPACE :: x) <$> ws) ++ t) = w :: ws.
Proof.
  intros Hw Hws Ht. revert w Hw. induction Hws as [|x ws Hx _ IH]; intros w Hw; simpl.
  - rewrite split_from_spaces by done. apply flush_nonempty, Hw.
  - rewrite flush_nonempty by apply Hw. simpl. f_equal.
    rewrite <- app_assoc, split_from_solid by apply Hx. simpl. by apply IH.
Qed.

Lemma join_cons w ws :
  join [SPACE] (w :: ws) = w ++ concat ((λ x, SPACE :: x) <$> ws).
Proof.
  revert w. induction ws as [|x ws IH]; intros w; simpl.
  - by rewrite app_nil_r.
  - f_equal. f_equal. apply IH.
Qed.

(** Splitting a rendered line gives back the tokens it was rendered
    from. *)
Lemma split_join ws t :
  Forall token ws → Forall (λ c, is_space c = true) t →
  split (join [SPACE] ws ++ t) = ws.
Proof.
  intros Hws Ht. destruct Hws as [|w ws Hw Hws].
  - simpl. unfold split. by rewrite split_from_spaces.
  - rewrite join_cons. unfold split. rewrite <- app_assoc.
    rewrite split_from_solid by apply Hw. simpl. by apply split_from_join_rest.
Qed.

Lemma foldl_reset_line acc lines :
  foldl reset_line acc lines = acc ++ omap render_line lines.
Proof.
  revert acc. induction lines as [|l ls IH]; intros acc; simpl.
  - by rewrite app_nil_r.
  - rewrite IH. unfold reset_line, render_line, tokens, render.
    destruct (split (strip l)); simpl; [done|]. by rewrite <- app_assoc.
Qed.

Lemma reset_label_text_lines t :
  reset_label_text t
  = concat (omap render_line (readlines (universal_newlines t))).
Proof. unfold reset_label_text. by rewrite foldl_reset_line. Qed.

Lemma render_line_Some line r :
  render_line line = Some r →
  tokens line ≠ [] ∧ r = render ([ZERO] :: tail (tokens line)).
Proof.
  unfold render_line. destruct (tokens line) as [|w ws]; [done|].
  intros [= <-]. done.
Qed.

Lemma render_line_rendered line r : render_line line = Some r → rendered r.
Proof.
  intros [Hne ->]%render_line_Some. exists (tail (tokens line)). split; [|done].
  pose proof (split_tokens (strip line)) as H. fold (tokens line) in H.
  destruct (tokens line); [done|]. simpl. by apply Forall_cons_1 in H as [_ ?].
Qed.

Lemma tokens_render ws : Forall token ws → tokens (render ws) = ws.
Proof.
  intros Hws. rewrite tokens_split. apply split_join; [done|].
  apply Forall_singleton, lf_is_space.
Qed.

Lemma rendered_fixed r : rendered r → render_line r = Some r.
Proof.
  intros (ws & Hws & ->). unfold render_line.
  rewrite tokens_render by (constructor; [apply zero_token | done]). done.
Qed.

(** The characters of a rendered line before its final newline. *)
Lemma join_chars ws c :
  Forall token ws → c ∈ join [SPACE] ws → c = SPACE ∨ is_space c = false.
Proof.
  intros Hws. induction Hws as [|w ws Hw Hws IH]; simpl; [by intros ?%elem_of_nil|].
  destruct ws as [|x ws'].
  - intros Hc. right. destruct Hw as [_ Hw]. by eapply Forall_forall in Hw.
  - rewrite elem_of_app, elem_of_cons. intros [Hc|[Hc|Hc]].
    + right. destruct Hw as [_ Hw]. by eapply Forall_forall in Hw.
    + by left.
    + by apply IH.
Qed.

Lemma rendered_body r :
  rendered r →
  ∃ b, r = b ++ [LF] ∧ Forall (λ c, c ≠ LF ∧ c ≠ CR) b.
Proof.
  intros (ws & Hws & ->). eexists. split; [done|].
  apply Forall_forall. intros c Hc.
  apply join_chars in Hc as [->|Hc]; [done| |by constructor; [apply zero_token|]].
  split; intros ->; done.
Qed.

Lemma universal_newlines_line b rest :
  Forall (λ c, c ≠ LF ∧ c ≠ CR) b →
  universal_newlines (b ++ LF :: rest) = b ++ LF :: universal_newlines rest.
Proof.
  induction 1 as [|c b [_ Hc] _ IH]; simpl; [done|].
  apply N.eqb_neq in Hc. rewrite Hc. by rewrite IH.
Qed.

Lemma readlines_line b rest :
  Forall (λ c, c ≠ LF ∧ c ≠ CR) b →
  readlines (b ++ LF :: rest) = (b ++ [LF]) :: readlines rest.
Proof.
  induction 1 as [|c b [Hc _] _ IH]; simpl; [done|].
  apply N.eqb_neq in Hc. rewrite Hc. by rewrite IH.
Qed.

(** Reading back what was written gives the written lines. *)
Lemma read_back rs :
  Forall rendered rs →
  readlines (universal_newlines (concat rs)) = rs.
Proof.
  induction 1 as [|r rs (b & -> & Hb)%rendered_body _ IH]; simpl; [done|].
  rewrite <- app_assoc. simpl.
  rewrite universal_newlines_line, readlines_line by done. by rewrite IH.
Qed.

Lemma omap_rendered (ls : list text) : Forall rendered (omap render_line ls).
Proof.
  induction ls as [|l ls IH]; csimpl; [constructor|].
  destruct (render_line l) eqn:Hl; [|done].
  constructor; [by eapply render_line_rendered | done].
Qed.

Lemma omap_fixed rs : Forall rendered rs → omap render_line rs = rs.
Proof.
  induction 1 as [|r rs Hr _ IH]; csimpl; [done|].
  by rewrite (rendered_fixed r Hr), IH.
Qed.

Lemma reset_label_text_read_back t :
  readlines (universal_newlines (reset_label_text t))
  = omap render_line (readlines (universal_newlines t)).
Proof. rewrite reset_label_text_lines. apply read_back, omap_rendered. Qed.

Lemma reset_label_text_idem t :
  reset_label_text (reset_label_text t) = reset_label_text t.
Proof.
  rewrite (reset_label_text_lines (reset_label_text t)).
  rewrite reset_label_text_read_back.
  rewrite omap_fixed by apply omap_rendered.
  symmetry. apply reset_label_text_lines.
Qed.

Lemma tokens_omap_render (ls : list text) :
  tokens <$> omap render_line ls
  = (λ ts, [ZERO] :: tail ts) <$> filter (λ ts, ts ≠ []) (tokens <$> ls).
Proof.
  induction ls as [|l ls IH]; csimpl; [done|].
  destruct (render_line l) as [r|] eqn:Hl; csimpl.
  - apply render_line_Some in Hl as Hl'. destruct Hl' as [Hne ->].
    rewrite filter_cons_True by done. simpl. rewrite IH. f_equal.
    apply render_line_rendered in Hl as (ws & Hws & Hr).
    apply tokens_render. constructor; [apply zero_token|].
    pose proof (split_tokens (strip l)) as H. fold (tokens l) in H.
    destruct (tokens l); [done|]. simpl. by apply Forall_cons_1 in H as [_ ?].
  - unfold render_line in Hl. destruct (tokens l) eqn:Ht; [|done].
    rewrite filter_cons_False by (intros H; by apply H). done.
Qed.

End TextFacts.

(** ** Paths *)

Lemma name_child p n : Path.name (Path.child p n) = n.
Proof. unfold Path.name, Path.child. apply last_last. Qed.

Lemma parent_child p n : Path.parent (Path.child p n) = p.
Proof. unfold Path.parent, Path.child. apply removelast_last. Qed.

Lemma child_of_child p n : Path.child_of p (Path.child p n).
Proof.
  split; [by apply prefix_app_r|]. unfold Path.child.
  rewrite length_app. simpl. lia.
Qed.

Lemma child_of_inv p q : Path.child_of p q → ∃ n, q = Path.child p n.
Proof.
  intros [[r ->] Hlen]. rewrite length_app in Hlen.
  destruct r as [|n [|??]]; simpl in Hlen; try lia. by exists n.
Qed.

Lemma child_inj p n n' : Path.child p n = Path.child p n' → n = n'.
Proof. unfold Path.child. intros H%app_inv_head. by injection H. Qed.

Lemma child_below p n : Path.below p (Path.child p n).
Proof.
  split; [by apply prefix_app_r|]. unfold Path.child. intros H.
  apply (f_equal length) in H. rewrite length_app in H. simpl in H. lia.
Qed.

Lemma below_under p q : Path.below p q → Path.under p q.
Proof. by intros [? _]. Qed.

Lemma under_trans p q r : Path.under p q → Path.under q r → Path.under p r.
Proof. unfold Path.under. by intros ? ?; etrans. Qed.

Lemma under_child_inv p n n' r :
  Path.under (Path.child p n) (Path.child p n' ++ r) → n = n'.
Proof.
  unfold Path.under, Path.child. rewrite <- app_assoc.
  intros H%prefix_app_inv. by apply prefix_cons_inv_1 in H.
Qed.

Lemma not_under_shorter p q : length q < length p → ¬ Path.under p q.
Proof. intros Hlen H%prefix_length. lia. Qed.

(** ** Computations *)

Lemma try_except_print (body : M unit) (msg : exn → message) w :
  (try_except body (λ e, print (msg e)) w).1 = Return tt.
Proof.
  unfold try_except. destruct (body w) as [[[]|e] w']; done.
Qed.

Lemma pool_map_all {A} (task : A → M unit) (args : list A) w :
  (∀ a w, (task a w).1 = Return tt) →
  pool_map task args w = (Return tt, foldl (λ w a, run (task a) w) w args).
Proof.
  intros Hsafe. revert w. induction args as [|a args IH]; intros w; simpl; [done|].
  pose proof (Hsafe a w) as Ha. unfold run at 2.
  destruct (task a w) as [r w1]. simpl in Ha. subst r. by rewrite IH.
Qed.

Lemma for_each_all {A} (body : A → M unit) (xs : list A) w :
  (∀ a w, (body a w).1 = Return tt) →
  for_each xs body w = (Return tt, foldl (λ w a, run (body a) w) w xs).
Proof.
  intros Hsafe. revert w. induction xs as [|a xs IH]; intros w; simpl; [done|].
  pose proof (Hsafe a w) as Ha. unfold bind, run at 2.
  destruct (body a w) as [r w1]. simpl in Ha. subst r. by rewrite IH.
Qed.

(** ** Listings *)

Section Listing.
Context (order : list path → list path).
Context (order_perm : ∀ l, order l ≡ₚ l).

Lemma elem_of_listing (m : gmap path entry) q :
  q ∈ listing order m ↔ is_Some (m !! q).
Proof.
  unfold listing. rewrite order_perm, list_elem_of_fmap. split.
  - intros ([k e] & -> & H%elem_of_map_to_list). by exists e.
  - intros [e H]. exists (q, e). split; [done|]. by apply elem_of_map_to_list.
Qed.

Lemma NoDup_listing (m : gmap path entry) : NoDup (listing order m).
Proof. unfold listing. rewrite order_perm. apply NoDup_fst_map_to_list. Qed.

Lemma elem_of_scandir (m : gmap path entry) p q :
  q ∈ scandir order m p ↔ Path.child_of p q ∧ is_Some (m !! q).
Proof. unfold scandir. by rewrite list_elem_of_filter, elem_of_listing. Qed.

Lemma NoDup_scandir (m : gmap path entry) p : NoDup (scandir order m p).
Proof. apply NoDup_filter, NoDup_listing. Qed.

Lemma elem_of_rglob (m : gmap path entry) p tail q :
  q ∈ rglob order p tail m
  ↔ Path.below p q ∧ Path.ends_with tail (Path.name q) ∧ is_Some (m !! q).
Proof. unfold rglob. rewrite list_elem_of_filter, elem_of_listing. tauto. Qed.

Lemma NoDup_rglob (m : gmap path entry) p tail : NoDup (rglob order p tail m).
Proof. apply NoDup_filter, NoDup_listing. Qed.

Lemma ends_with_empty n : Path.ends_with "" n.
Proof. unfold Path.ends_with. simpl. apply suffix_nil. Qed.

End Listing.

Import TextFacts.

(** ** Label files *)

Section Labels.
Context (locked : path → bool).

Lemma reset_entry_idem q o :
  reset_entry locked q (reset_entry locked q o) = reset_entry locked q o.
Proof.
  destruct o as [[[t|b]|]|]; simpl; try done.
  destruct (locked q) eqn:Hq; simpl; rewrite Hq; [done|].
  by rewrite reset_label_text_idem.
Qed.

Lemma reset_entry_is_Some q o :
  is_Some (reset_entry locked q o) ↔ is_Some o.
Proof.
  destruct o as [[[t|b]|]|]; simpl; try done.
  destruct (locked q); by rewrite <- !not_eq_None_Some.
Qed.

Lemma reset_label_classes_returns p w :
  (_reset_label_classes locked p w).1 = Return tt.
Proof. apply try_except_print. Qed.

Lemma reset_label_classes_files p w q :
  files (run (_reset_label_classes locked p) w) !! q
  = if decide (q = p) then reset_entry locked q (files w !! q)
    else files w !! q.
Proof.
  unfold run, _reset_label_classes, try_except, bind, open_rw, read_text,
    write_text, print.
  destruct (files w !! p) as [[[t|b]|]|] eqn:Hp; simpl;
    try (destruct (locked p) eqn:Hl; simpl); rewrite ?Hp; simpl;
    case_decide; subst; rewrite ?Hp; simpl; rewrite ?Hl;
    by simplify_map_eq.
Qed.

Lemma reset_all_files l w q :
  files (foldl (λ w a, run (_reset_label_classes locked a) w) w l) !! q
  = if decide (q ∈ l) then reset_entry locked q (files w !! q)
    else files w !! q.
Proof.
  revert w. induction l as [|a l IH]; intros w; cbn [foldl].
  - case_decide as H; [by apply elem_of_nil in H | done].
  - rewrite IH, reset_label_classes_files.
    destruct (decide (q = a)) as [->|Hne].
    + case_decide as H1; case_decide as H2; try done.
      * apply reset_entry_idem.
      * exfalso. apply H2. by left.
      * exfalso. apply H2. by left.
    + case_decide as H1; case_decide as H2; try done.
      * exfalso. apply H2. by right.
      * apply elem_of_cons in H2 as [?|?]; done.
Qed.

Context (order : list path → list path).
Context (order_perm : ∀ l, order l ≡ₚ l).

Lemma update_all_labels_spec self w :
  ∃ w', update_all_labels locked order self w = (Return tt, w')
    ∧ ∀ q, files w' !! q
       = if decide (Path.below (base_dir self) q
                    ∧ Path.ends_with ".txt" (Path.name q))
         then reset_entry locked q (files w !! q)
         else files w !! q.
Proof.
  unfold update_all_labels, bind, print, get_files. simpl.
  rewrite pool_map_all by apply reset_label_classes_returns.
  eexists. split; [done|]. intros q. rewrite reset_all_files. simpl.
  case_decide as H1; case_decide as H2; try done.
  - apply (elem_of_rglob order order_perm) in H1. tauto.
  - rewrite (elem_of_rglob order order_perm) in H1.
    destruct (files w !! q) eqn:Hq; [|done]. exfalso. apply H1.
    destruct H2. split_and!; [done|done|by eexists].
Qed.

End Labels.

Lemma listed_perm (l : list path) : listed l ≡ₚ l.
Proof. done. Qed.

(** C3.  After [update_all_labels], every label file below the root holds
    [reset_label_text] of what it held.  Of that text: every line starts
    with the token ["0"]; its lines are, in order, the lines of the input
    that had a token, with the tokens after the first unchanged; and every
    line is its tokens joined by one space and ended by one newline, so
    runs of whitespace are collapsed, the ends are stripped and blank
    lines are gone. *)
Theorem update_all_labels_normalizes order self w p t :
  (∀ l, order l ≡ₚ l) →
  Path.below (base_dir self) p →
  Path.ends_with ".txt" (Path.name p) →
  files w !! p = Some (File (Utf8 t)) →
  ∃ w' t',
    update_all_labels unlocked order self w = (Return tt, w')
    ∧ files w' !! p = Some (File (Utf8 t'))
    ∧ t' = Text.reset_label_text t
    ∧ let input := Text.readlines (Text.universal_newlines t) in
      let output := Text.readlines (Text.universal_newlines t') in
      Forall (λ line, head (Text.tokens line) = Some [Text.ZERO]) output
      ∧ tail <$> (Text.tokens <$> output)
        = tail <$> filter (λ ts, ts ≠ []) (Text.tokens <$> input)
      ∧ Forall (λ line, line = Text.join [Text.SPACE] (Text.tokens line) ++ [Text.LF]) output.
Proof.
  intros Hperm Hbelow Hext Hp.
  destruct (update_all_labels_spec unlocked order Hperm self w) as (w' & Hrun & Hw').
  exists w', (Text.reset_label_text t). split_and!; [done| |done|].
  { rewrite Hw', decide_True by done. by rewrite Hp. }
  cbv zeta. rewrite reset_label_text_read_back. split_and!.
  - apply Forall_forall. intros r Hr.
    apply list_elem_of_omap in Hr as (line & _ & Hr).
    apply render_line_rendered in Hr as (ws & Hws & ->).
    rewrite tokens_render; [done|]. constructor; [apply zero_token | done].
  - rewrite tokens_omap_render.
    rewrite <- !list_fmap_compose. by apply list_fmap_ext.
  - apply Forall_forall. intros r Hr.
    apply list_elem_of_omap in Hr as (line & _ & Hr).
    apply render_line_rendered in Hr as (ws & Hws & ->).
    rewrite tokens_render; [done|]. constructor; [apply zero_token | done].
Qed.

Lemma update_all_labels_normalizes_witness :
  ∃ w' t',
    update_all_labels unlocked listed ds labelled = (Return tt, w')
    ∧ files w' !! ["data"; "ds"; "a.txt"] = Some (File (Utf8 t'))
    ∧ t' = Text.reset_label_text (Text.of_string "3 0.5 0.5  0.1 0.2
 
7 1 2")
    ∧ let input := Text.readlines (Text.universal_newlines (Text.of_string "3 0.5 0.5  0.1 0.2
 
7 1 2")) in
      let output := Text.readlines (Text.universal_newlines t') in
      Forall (λ line, head (Text.tokens line) = Some [Text.ZERO]) output
      ∧ tail <$> (Text.tokens <$> output)
        = tail <$> filter (λ ts, ts ≠ []) (Text.tokens <$> input)
      ∧ Forall (λ line, line = Text.join [Text.SPACE] (Text.tokens line) ++ [Text.LF]) output.
Proof.
  apply (update_all_labels_normalizes listed ds labelled).
  - intros l. reflexivity.
  - apply (bool_decide_unpack _). vm_compute. exact I.
  - apply (bool_decide_unpack _). vm_compute. exact I.
  - vm_compute. reflexivity.
Defined.

(** C4.  Running [update_all_labels] a second time changes no file:
    the files after two runs are the files after one. *)
Theorem update_all_labels_idempotent locked order self w :
  (∀ l, order l ≡ₚ l) →
  let once := run (update_all_labels locked order self) w in
  let twice := run (update_all_labels locked order self) once in
  files twice = files once.
Proof.
  intros Hperm once twice. subst once twice. unfold run.
  destruct (update_all_labels_spec locked order Hperm self w) as (w1 & -> & H1).
  simpl.
  destruct (update_all_labels_spec locked order Hperm self w1) as (w2 & -> & H2).
  simpl. apply map_eq. intros q. rewrite H2, H1.
  case_decide; [|done]. apply reset_entry_idem.
Qed.

Lemma update_all_labels_idempotent_witness :
  let once := run (update_all_labels unlocked listed ds) labelled in
  let twice := run (update_all_labels unlocked listed ds) once in
  files twice = files once.
Proof. apply (update_all_labels_idempotent unlocked listed ds labelled). intros l. reflexivity. Defined.

(** ** Moving subtrees *)

Lemma lookup_outside (p : path) (m : gmap path entry) q :
  outside p m !! q = if decide (Path.under p q) then None else m !! q.
Proof.
  unfold outside. case_decide as H.
  - apply map_lookup_filter_None. right. intros e _ Hn. by apply Hn.
  - destruct (m !! q) as [e|] eqn:Hq.
    + by apply map_lookup_filter_Some.
    + apply map_lookup_filter_None. by left.
Qed.

Lemma lookup_subtree (p : path) (m : gmap path entry) q :
  subtree p m !! q = if decide (Path.under p q) then m !! q else None.
Proof.
  unfold subtree. case_decide as H.
  - destruct (m !! q) as [e|] eqn:Hq.
    + by apply map_lookup_filter_Some.
    + apply map_lookup_filter_None. by left.
  - apply map_lookup_filter_None. right. by intros e _ Hn.
Qed.

Lemma rebase_under src dst q : Path.under dst (Path.rebase src dst q).
Proof. unfold Path.rebase. by apply prefix_app_r. Qed.

Lemma rebase_app src dst r : Path.rebase src dst (src ++ r) = dst ++ r.
Proof. unfold Path.rebase. by rewrite drop_app_length. Qed.

(** Nothing appears outside the subtree of the destination. *)
Lemma lookup_rebased_outside (src dst : path) (m : gmap path entry) q :
  ¬ Path.under dst q → rebased src dst m !! q = None.
Proof.
  intros Hq. unfold rebased. apply not_elem_of_list_to_map.
  rewrite <- list_fmap_compose. intros ([k e] & Hk & _)%list_elem_of_fmap.
  simpl in Hk. subst q. apply Hq, rebase_under.
Qed.

(** What was at [src ++ r] is found at [dst ++ r]. *)
Lemma lookup_rebased (src dst : path) (m : gmap path entry) r :
  (∀ k, is_Some (m !! k) → Path.under src k) →
  rebased src dst m !! (dst ++ r) = m !! (src ++ r).
Proof.
  intros Hm. unfold rebased.
  destruct (m !! (src ++ r)) as [e|] eqn:Hr.
  - apply elem_of_list_to_map_1.
    + rewrite <- list_fmap_compose. apply NoDup_fmap_2_strong.
      * intros [k1 e1] [k2 e2] H1%elem_of_map_to_list H2%elem_of_map_to_list Heq.
        simpl in Heq.
        destruct (Hm k1) as [r1 ->]; [by eexists|].
        destruct (Hm k2) as [r2 ->]; [by eexists|].
        rewrite !rebase_app in Heq. apply app_inv_head in Heq. subst r2.
        rewrite H1 in H2. by injection H2 as ->.
      * apply NoDup_map_to_list.
    + apply list_elem_of_fmap. exists (src ++ r, e). split.
      * simpl. by rewrite rebase_app.
      * by apply elem_of_map_to_list.
  - apply not_elem_of_list_to_map.
    rewrite <- list_fmap_compose. intros ([k e] & Hk & Hin%elem_of_map_to_list)%list_elem_of_fmap.
    simpl in Hk. destruct (Hm k) as [r1 ->]; [by eexists|].
    rewrite rebase_app in Hk. apply app_inv_head in Hk. subst r1.
    rewrite Hr in Hin. discriminate.
Qed.

Lemma lookup_move_tree_outside (src dst : path) (m : gmap path entry) q :
  ¬ Path.under src q → ¬ Path.under dst q →
  move_tree src dst m !! q = m !! q.
Proof.
  intros Hs Hd. unfold move_tree.
  rewrite lookup_union_r by by apply lookup_rebased_outside.
  by rewrite lookup_outside, decide_False.
Qed.

Lemma lookup_move_tree_src (src dst : path) (m : gmap path entry) q :
  Path.under src q → ¬ Path.under dst q →
  move_tree src dst m !! q = None.
Proof.
  intros Hs Hd. unfold move_tree.
  rewrite lookup_union_r by by apply lookup_rebased_outside.
  by rewrite lookup_outside, decide_True.
Qed.

Lemma lookup_move_tree_dst (src dst : path) (m : gmap path entry) r :
  is_Some (m !! (src ++ r)) →
  move_tree src dst m !! (dst ++ r) = m !! (src ++ r).
Proof.
  intros [e He]. unfold move_tree. rewrite He. apply lookup_union_Some_l.
  rewrite lookup_rebased.
  - rewrite lookup_subtree, decide_True; [done|]. by apply prefix_app_r.
  - intros k [e' Hk]. rewrite lookup_subtree in Hk. by case_decide.
Qed.

(** ** What a move can change

    [shutil.move(src, dst)] changes at most the subtree of [src], the
    subtree of [dst], and the missing ancestors of [dst]. *)

Lemma confined_refl src dst w : confined src dst w w.
Proof. by split. Qed.

Lemma confined_trans src dst w1 w2 w3 :
  confined src dst w1 w2 → confined src dst w2 w3 → confined src dst w1 w3.
Proof.
  intros [Ho1 H1] [Ho2 H2]. split; [congruence|].
  intros q Hs Hd Hq. rewrite H2, H1; try done.
  rewrite H1 by done. done.
Qed.

Lemma confined_bind {A} src dst (c : M A) (k : A → M unit) w :
  (∀ w, confined src dst w (c w).2) →
  (∀ a w, confined src dst w (k a w).2) →
  confined src dst w (bind c k w).2.
Proof.
  intros Hc Hk. unfold bind. specialize (Hc w).
  destruct (c w) as [[a|e] w1]; simpl in *; [|done].
  eapply confined_trans; [done|apply Hk].
Qed.

Lemma confined_try src dst (c : M unit) (h : exn → M unit) w :
  (∀ w, confined src dst w (c w).2) →
  (∀ e w, confined src dst w (h e w).2) →
  confined src dst w (try_except c h w).2.
Proof.
  intros Hc Hh. unfold try_except. specialize (Hc w).
  destruct (c w) as [[a|e] w1]; simpl in *; [done|].
  eapply confined_trans; [done|apply Hh].
Qed.

Lemma confined_dst_under src dst dst' w w' :
  Path.under dst dst' → confined src dst' w w' → confined src dst w w'.
Proof.
  intros Hd [Ho H]. split; [done|]. intros q Hs Hq Hex. apply H; [done|..].
  - intros Hq'. apply Hq. by eapply under_trans.
  - destruct Hex as [?|Hex]; [by left|].
    destruct (decide (is_Some (files w !! q))) as [?|Hn]; [by left|]. right.
    intros Hu.
    destruct (prefix_weak_total q dst dst') as [?|?]; [done|done|done|done].
Qed.

Section Frames.
Context (locked : path → bool) (order : list path → list path).

Lemma os_unlink_confined src dst w :
  confined src dst w (os_unlink locked src w).2.
Proof.
  unfold os_unlink. destruct (files w !! src) as [[c|]|]; try apply confined_refl.
  destruct (locked src); [apply confined_refl|]. split; [done|]. simpl.
  intros q Hs _ _. apply lookup_delete_ne. by intros ->.
Qed.

Lemma os_mkdir_changes p w :
  stdout (os_mkdir p w).2 = stdout w
  ∧ ∀ q, files (os_mkdir p w).2 !! q = files w !! q
         ∨ (q = p ∧ files w !! q = None ∧ files (os_mkdir p w).2 !! q = Some Dir).
Proof.
  unfold os_mkdir. destruct (files w !! p) as [e|] eqn:Hp; [by split; [|left]|].
  destruct (files w !! Path.parent p) as [[c|]|]; try by split; [|left].
  split; [done|]. intros q. simpl. destruct (decide (q = p)) as [->|Hne].
  - right. by rewrite lookup_insert_eq.
  - left. by apply lookup_insert_ne.
Qed.

Lemma parent_under q p : Path.under q (Path.parent p) → Path.under q p.
Proof.
  intros Hq. eapply under_trans; [done|]. unfold Path.parent.
  destruct (decide (p = [])) as [->|Hne]; [done|].
  exists [List.last p ""]. by apply app_removelast_last.
Qed.

Lemma os_mkdir_after p w w1 :
  stdout w1 = stdout w →
  (∀ q, files w1 !! q = files w !! q
        ∨ (Path.under q (Path.parent p) ∧ files w !! q = None
           ∧ files w1 !! q = Some Dir)) →
  stdout (os_mkdir p w1).2 = stdout w
  ∧ ∀ q, files (os_mkdir p w1).2 !! q = files w !! q
         ∨ (Path.under q p ∧ files w !! q = None
            ∧ files (os_mkdir p w1).2 !! q = Some Dir).
Proof.
  intros Ho1 H1. destruct (os_mkdir_changes p w1) as [Ho2 H2].
  split; [congruence|]. intros q.
  destruct (H2 q) as [Hq|(-> & Hn & Hq)]; rewrite Hq.
  - destruct (H1 q) as [?|(? & ? & ?)]; [by left|].
    right. split_and!; [by apply parent_under|done|done].
  - destruct (H1 p) as [Heq|(? & ? & Hd)].
    + right. split_and!; [done| |done]. by rewrite <- Heq.
    + rewrite Hd in Hn. discriminate.
Qed.

Lemma os_makedirs_changes fuel p w :
  stdout (os_makedirs fuel p w).2 = stdout w
  ∧ ∀ q, files (os_makedirs fuel p w).2 !! q = files w !! q
         ∨ (Path.under q p ∧ files w !! q = None
            ∧ files (os_makedirs fuel p w).2 !! q = Some Dir).
Proof.
  revert p w. induction fuel as [|k IH]; intros p w; simpl.
  - apply os_mkdir_after; [done|]. by left.
  - destruct (exists_ (files w) (Path.parent p)).
    + apply os_mkdir_after; [done|]. by left.
    + unfold bind, try_except.
      destruct (IH (Path.parent p) w) as [Ho1 H1].
      destruct (os_makedirs k (Path.parent p) w) as [[[]|e] w1]; simpl in *.
      * by apply os_mkdir_after.
      * destruct e; simpl; try by apply os_mkdir_after.
        all: split; [done|]; intros q;
          destruct (H1 q) as [?|(? & ? & ?)]; [by left|];
          right; split_and!; [by apply parent_under|done|done].
Qed.

Lemma create_at_confined {A : Type} (src dst : path) (m : gmap path entry) p
    (k : outcome A * world) w :
  confined src dst w k.2 → confined src dst w (create_at m p k w).2.
Proof.
  intros Hk. unfold create_at.
  destruct (m !! Path.parent p) as [[c|]|]; try done; apply confined_refl.
Qed.

Lemma os_rename_confined src dst w :
  confined src dst w (os_rename locked order src dst w).2.
Proof.
  unfold os_rename.
  assert (Hfile : ∀ c, confined src dst w
            (Return (), set_files (<[dst:=File c]> (delete src (files w))) w).2).
  { intros c. split; [done|]. simpl. intros q Hs Hd _.
    rewrite lookup_insert_ne by by intros ->.
    apply lookup_delete_ne. by intros ->. }
  assert (Hdir : confined src dst w
            (Return (), set_files (move_tree src dst (files w)) w).2).
  { split; [done|]. simpl. intros q Hs Hd _.
    by apply lookup_move_tree_outside. }
  destruct (files w !! src) as [[c|]|]; [| |apply confined_refl].
  - destruct (locked src); [apply confined_refl|].
    destruct (files w !! dst) as [[c'|]|]; [|apply confined_refl|].
    + destruct (locked dst); [apply confined_refl|apply Hfile].
    + apply create_at_confined, Hfile.
  - destruct (files w !! dst) as [[c'|]|]; [apply confined_refl| |].
    + repeat case_decide; try apply confined_refl.
      destruct (scandir order (files w) dst); [apply Hdir|apply confined_refl].
    + case_decide; [apply confined_refl|]. apply create_at_confined, Hdir.
Qed.

Lemma shutil_copy2_confined src dst w :
  confined src dst w (shutil_copy2 locked src dst w).2.
Proof.
  unfold shutil_copy2.
  set (dst' := if is_dir (files w) dst then _ else _).
  assert (Hd : Path.under dst dst').
  { subst dst'. destruct (is_dir (files w) dst); [|done].
    by apply prefix_app_r. }
  assert (Hcopy : ∀ c, confined src dst w
            (Return (), set_files (<[dst':=File c]> (files w)) w).2).
  { intros c. split; [done|]. simpl. intros q _ Hq _.
    apply lookup_insert_ne. by intros ->. }
  destruct (files w !! src) as [[c|]|]; try apply confined_refl.
  case_decide; [apply confined_refl|].
  destruct (locked src); [apply confined_refl|].
  destruct (files w !! dst') as [[c'|]|]; [|apply confined_refl|].
  - destruct (locked dst'); [apply confined_refl|apply Hcopy].
  - apply create_at_confined, Hcopy.
Qed.

Lemma copytree_rmtree_confined src dst w :
  confined src dst w (copytree_rmtree locked src dst w).2.
Proof.
  unfold copytree_rmtree, bind.
  destruct (os_makedirs_changes (length dst) dst w) as [Ho H].
  destruct (os_makedirs (length dst) dst w) as [[[]|e] w1]; simpl in *.
  - assert (Hw1 : ∀ q, ¬ Path.under dst q →
        is_Some (files w !! q) ∨ ¬ Path.under q dst →
        files w1 !! q = files w !! q).
    { intros q Hd Hq. destruct (H q) as [?|(Hu & Hn & _)]; [done|].
      destruct Hq as [[e He]|Hq]; [congruence|done]. }
    case_decide; split; try done; simpl; intros q Hs Hd Hq.
    + rewrite lookup_outside, decide_False by done.
      rewrite lookup_union_r by by apply lookup_rebased_outside.
      by apply Hw1.
    + rewrite lookup_union_r by by apply lookup_rebased_outside.
      by apply Hw1.
  - split; [done|]. intros q Hs Hd Hq.
    destruct (H q) as [?|(Hu & Hn & _)]; [done|].
    destruct Hq as [[e' He]|Hq]; [congruence|done].
Qed.

Lemma move_fallback_confined src dst real_dst e w :
  Path.under dst real_dst →
  confined src dst w (move_fallback locked src dst real_dst e w).2.
Proof.
  intros Hd. unfold move_fallback. destruct (is_dir (files w) src).
  - case_decide; [apply confined_refl|].
    eapply confined_dst_under; [done|]. apply copytree_rmtree_confined.
  - apply confined_bind.
    + intros w'. eapply confined_dst_under; [done|]. apply shutil_copy2_confined.
    + intros _ w'. apply os_unlink_confined.
Qed.

(** [shutil.move] prints nothing and stays within its bounds. *)
Lemma shutil_move_confined src dst w :
  confined src dst w (shutil_move locked order src dst w).2.
Proof.
  unfold shutil_move. destruct (is_dir (files w) dst).
  - case_decide; [apply os_rename_confined|].
    destruct (exists_ (files w) _); [apply confined_refl|].
    assert (Hd : Path.under dst (Path.child dst (Path.name src)))
      by by apply prefix_app_r.
    apply confined_try.
    + intros w'. eapply confined_dst_under; [done|]. apply os_rename_confined.
    + intros e w'. by apply move_fallback_confined.
  - apply confined_try.
    + intros w'. apply os_rename_confined.
    + intros e w'. by apply move_fallback_confined.
Qed.

End Frames.

(** ** Creating directories *)

Lemma grown_refl P w : grown P w w.
Proof. split; [done|]. by left. Qed.

Lemma grown_trans P w1 w2 w3 : grown P w1 w2 → grown P w2 w3 → grown P w1 w3.
Proof.
  intros [Ho1 H1] [Ho2 H2]. split; [congruence|]. intros q.
  destruct (H2 q) as [->|(Hu & Hn & ->)]; [apply H1|].
  destruct (H1 q) as [Heq|(_ & _ & Hd)].
  - right. by rewrite <- Heq.
  - rewrite Hd in Hn. discriminate.
Qed.

Lemma grown_weaken (P P' : path → Prop) w w' :
  (∀ q, P q → P' q) → grown P w w' → grown P' w w'.
Proof.
  intros HP [Ho H]. split; [done|]. intros q.
  destruct (H q) as [?|(? & ? & ?)]; [by left|right; auto].
Qed.

Lemma grown_keeps P w w' q e :
  grown P w w' → files w !! q = Some e → files w' !! q = Some e.
Proof.
  intros [_ H] Hq. destruct (H q) as [->|(_ & Hn & _)]; [done|].
  rewrite Hn in Hq. discriminate.
Qed.

Lemma grown_not_file P w w' q :
  grown P w w' → is_file (files w) q = false → is_file (files w') q = false.
Proof.
  intros [_ H]. unfold is_file. destruct (H q) as [->|(_ & _ & ->)]; done.
Qed.

Lemma grown_apart (P : path → Prop) w w' q :
  grown P w w' → ¬ P q → files w' !! q = files w !! q.
Proof. intros [_ H] Hq. by destruct (H q) as [->|(? & _)]. Qed.

Lemma os_mkdir_grown p w : grown (λ q, Path.under q p) w (os_mkdir p w).2.
Proof.
  destruct (os_mkdir_changes p w) as [Ho H]. split; [done|]. intros q.
  destruct (H q) as [?|(-> & ? & ?)]; [by left|by right].
Qed.

Lemma path_mkdir_grown fuel p parents exist_ok w :
  grown (λ q, Path.under q p) w (path_mkdir fuel p parents exist_ok w).2.
Proof.
  revert p parents exist_ok w.
  induction fuel as [|k IH]; intros p parents exist_ok w; simpl;
    pose proof (os_mkdir_grown p w) as Hm;
    destruct (os_mkdir p w) as [[[]|e] w1]; simpl in *; try done.
  - destruct e; repeat case_match; simpl; apply grown_refl.
  - destruct e; repeat case_match; simpl; try apply grown_refl.
    unfold bind.
    pose proof (IH (Path.parent p) true true w) as H1.
    apply (grown_weaken _ (λ q, Path.under q p)) in H1;
      [|intros q; apply parent_under].
    destruct (path_mkdir k (Path.parent p) true true w) as [[[]|e] w2];
      simpl in *; [|done].
    eapply grown_trans; [done|apply IH].
Qed.

Lemma path_mkdir_is_dir fuel p parents exist_ok w w' :
  path_mkdir fuel p parents exist_ok w = (Return tt, w') →
  files w' !! p = Some Dir.
Proof.
  revert p parents exist_ok w w'.
  induction fuel as [|k IH]; intros p parents exist_ok w w'; simpl.
  - unfold os_mkdir.
    destruct (files w !! p) as [e|] eqn:Hp; simpl.
    + destruct (negb exist_ok || negb (is_dir (files w) p)) eqn:Hd; [done|].
      intros [= <-]. apply orb_false_iff in Hd as [_ Hd%negb_false_iff].
      by apply bool_decide_eq_true in Hd.
    + destruct (files w !! Path.parent p) as [[c|]|]; simpl.
      * destruct (negb exist_ok || negb (is_dir (files w) p)) eqn:Hd; [done|].
        apply orb_false_iff in Hd as [_ Hd%negb_false_iff].
        apply bool_decide_eq_true in Hd. rewrite Hd in Hp. discriminate.
      * intros [= <-]. simpl. by rewrite lookup_insert_eq.
      * by destruct (negb parents || bool_decide (Path.parent p = p)).
  - unfold os_mkdir.
    destruct (files w !! p) as [e|] eqn:Hp; simpl.
    + destruct (negb exist_ok || negb (is_dir (files w) p)) eqn:Hd; [done|].
      intros [= <-]. apply orb_false_iff in Hd as [_ Hd%negb_false_iff].
      by apply bool_decide_eq_true in Hd.
    + destruct (files w !! Path.parent p) as [[c|]|]; simpl.
      * destruct (negb exist_ok || negb (is_dir (files w) p)) eqn:Hd; [done|].
        apply orb_false_iff in Hd as [_ Hd%negb_false_iff].
        apply bool_decide_eq_true in Hd. rewrite Hd in Hp. discriminate.
      * intros [= <-]. simpl. by rewrite lookup_insert_eq.
      * destruct (negb parents || bool_decide (Path.parent p = p)); [done|].
        unfold bind.
        destruct (path_mkdir k (Path.parent p) true true w) as [[[]|e] w2];
          [|done].
        apply IH.
Qed.

(** [mkdir(parents=True, exist_ok=True)] two levels below an existing
    directory succeeds unless a regular file is in the way. *)
Lemma path_mkdir_two_levels k b cat split w :
  files w !! b = Some Dir →
  is_file (files w) (Path.child b cat) = false →
  is_file (files w) (Path.child (Path.child b cat) split) = false →
  (path_mkdir (S k) (Path.child (Path.child b cat) split) true true w).1
  = Return tt.
Proof.
  intros Hb Hcat Hsplit. set (p := Path.child (Path.child b cat) split) in *.
  assert (Hpar : Path.parent p = Path.child b cat) by apply parent_child.
  assert (Hne : Path.parent p ≠ p).
  { rewrite Hpar. intros H. apply (f_equal length) in H. subst p.
    unfold Path.child in H. rewrite !length_app in H. simpl in H. lia. }
  simpl. unfold os_mkdir. unfold is_file in *.
  destruct (files w !! p) as [[c|]|] eqn:Hp; simpl; try done.
  - unfold is_dir. by rewrite Hp, bool_decide_eq_true_2.
  - rewrite Hpar.
    destruct (files w !! Path.child b cat) as [[c|]|] eqn:Hc; simpl; try done.
    rewrite Hpar in Hne. rewrite bool_decide_eq_false_2 by done. unfold bind.
    assert (H1 : path_mkdir k (Path.child b cat) true true w
                 = (Return tt, set_files (<[Path.child b cat := Dir]> (files w)) w)).
    { destruct k; simpl; unfold os_mkdir; rewrite Hc, parent_child, Hb; done. }
    rewrite H1.
    assert (H2 : os_mkdir p (set_files (<[Path.child b cat:=Dir]> (files w)) w)
                 = (Return tt, set_files (<[p := Dir]> (<[Path.child b cat:=Dir]> (files w))) w)).
    { unfold os_mkdir. simpl. rewrite lookup_insert_ne.
      - rewrite Hp, Hpar, lookup_insert_eq. done.
      - done. }
    destruct k; simpl; rewrite H2; done.
Qed.

(** ** The split directories *)

Section SplitDirs.
Context (self : DatasetPreparator).
Let b := base_dir self.

Lemma toward_split_dir_length q :
  toward_split_dir self q → (length q ≤ length b + 2)%nat.
Proof.
  intros (c & s & _ & _ & H%prefix_length). unfold Path.child in H.
  rewrite !length_app in H. simpl in H. unfold b. lia.
Qed.

Lemma mkdir_split_dir cat split w :
  cat ∈ categories → split ∈ splits →
  files w !! b = Some Dir →
  is_file (files w) (Path.child b cat) = false →
  is_file (files w) (Path.child (Path.child b cat) split) = false →
  let p := Path.child (Path.child b cat) split in
  ∃ w1, path_mkdir (length p) p true true w = (Return tt, w1)
    ∧ grown (toward_split_dir self) w w1
    ∧ files w1 !! p = Some Dir.
Proof.
  intros Hcat Hsplit Hb Hc Hs p.
  assert (Hlen : length p = S (S (length b))).
  { subst p. unfold Path.child. rewrite !length_app. simpl. lia. }
  pose proof (path_mkdir_two_levels (S (length b)) b cat split w Hb Hc Hs) as Hr.
  pose proof (path_mkdir_grown (length p) p true true w) as Hg.
  rewrite Hlen in *. fold p in Hr.
  destruct (path_mkdir (S (S (length b))) p true true w) as [r w1] eqn:Hrun.
  simpl in Hr, Hg. subst r. exists w1. split_and!; [done| |].
  - eapply grown_weaken; [|done]. intros q Hq. by exists cat, split.
  - by eapply path_mkdir_is_dir.
Qed.

Lemma create_split_dirs_spec w :
  files w !! b = Some Dir → split_dirs_free self w →
  ∃ w1, _create_split_dirs self w = (Return tt, w1)
    ∧ grown (toward_split_dir self) w w1
    ∧ ∀ cat split, cat ∈ categories → split ∈ splits →
        files w1 !! Path.child (Path.child b cat) split = Some Dir.
Proof.
  intros Hb Hfree. unfold _create_split_dirs.
  assert (Hgen : ∀ ps w0,
    (∀ c s, (c, s) ∈ ps → c ∈ categories ∧ s ∈ splits) →
    grown (toward_split_dir self) w w0 →
    ∃ w1, for_each ps (λ '(category, split),
            let p := Path.child (Path.child (base_dir self) category) split in
            path_mkdir (length p) p true true) w0 = (Return tt, w1)
      ∧ grown (toward_split_dir self) w0 w1
      ∧ ∀ c s, (c, s) ∈ ps → files w1 !! Path.child (Path.child b c) s = Some Dir).
  { induction ps as [|[c s] ps IH]; intros w0 Hps Hg; simpl.
    - exists w0. split_and!; [done|apply grown_refl|].
      intros c s H. by apply elem_of_nil in H.
    - destruct (Hps c s) as [Hc Hs]; [by left|].
      destruct (Hfree c s Hc Hs) as [Hf1 Hf2].
      destruct (mkdir_split_dir c s w0) as (w1 & Hrun & Hg1 & Hd); [done|done|..].
      { by eapply grown_keeps. }
      { by eapply grown_not_file. }
      { by eapply grown_not_file. }
      unfold bind. fold b. simpl in Hrun. rewrite Hrun.
      destruct (IH w1) as (w2 & Hrun2 & Hg2 & Hd2).
      { intros c' s' H. apply Hps. by right. }
      { by eapply grown_trans. }
      exists w2. split_and!; [done|by eapply grown_trans|].
      intros c' s' [[= -> ->]|H]%elem_of_cons; [|by apply Hd2].
      by eapply grown_keeps. }
  destruct (Hgen (list_prod ["images"; "labels"] ["train"; "val"]) w)
    as (w1 & Hrun & Hg & Hd).
  - intros c s H. apply list_elem_of_In, in_prod_iff in H as [H1 H2].
    by rewrite <- !list_elem_of_In in *.
  - apply grown_refl.
  - exists w1. split_and!; [done|done|]. intros c s Hc Hs. apply Hd.
    apply list_elem_of_In, in_prod_iff. by rewrite <- !list_elem_of_In.
Qed.

End SplitDirs.

(** ** Splitting *)

Lemma recognized_not_category n : recognized n → n ∉ categories.
Proof.
  unfold recognized, categories.
  intros Hn%(bool_decide_pack _) [->|[->|[]%elem_of_nil]%elem_of_cons]%elem_of_cons;
    vm_compute in Hn; done.
Qed.

Lemma split_category_in n : split_category n ∈ categories.
Proof.
  unfold split_category, categories.
  case_bool_decide; [by left | right; by left].
Qed.

Lemma split_name_in random f r : split_name random f r ∈ splits.
Proof.
  unfold split_name, splits.
  destruct (float_lt _ _); [by left | right; by left].
Qed.

Lemma pool_map_fmap {A B} (g : A → B) (task : B → M unit) (l : list A) :
  pool_map task (g <$> l) = pool_map (λ a, task (g a)) l.
Proof. induction l as [|a l IH]; csimpl; [done|]. by rewrite IH. Qed.

Section Split.
Context (locked : path → bool) (order : list path → list path).
Context (random : path → Q) (self : DatasetPreparator).
Let b := base_dir self.
Let assign := _assign_to_split_folder locked order random self.
Let dest := split_dest random self.

Lemma assign_returns f r w : (assign f r w).1 = Return tt.
Proof. apply try_except_print. Qed.

(** A task changes nothing away from its file and its destination. *)
Lemma assign_frame f r w q :
  ¬ Path.under f q → ¬ Path.under (dest f r) q →
  is_Some (files w !! q) ∨ ¬ Path.under q (dest f r) →
  files (run (assign f r) w) !! q = files w !! q.
Proof.
  intros Hf Hd Hq. unfold run, assign, _assign_to_split_folder, try_except.
  fold (split_category (Path.name f)) (split_name random f r).
  fold (split_dest random self f r). fold dest.
  destruct (shutil_move_confined locked order f (dest f r) w) as [_ H].
  destruct (shutil_move locked order f (dest f r) w) as [[[]|e] w1]; simpl in *;
    by apply H.
Qed.

Lemma tasks_frame ts r w q :
  (∀ f, f ∈ ts → ¬ Path.under f q ∧ ¬ Path.under (dest f r) q) →
  is_Some (files w !! q) ∨ (∀ f, f ∈ ts → ¬ Path.under q (dest f r)) →
  files (foldl (λ w f, run (assign f r) w) w ts) !! q = files w !! q.
Proof.
  revert w. induction ts as [|f ts IH]; intros w Hts Hq; simpl; [done|].
  destruct (Hts f) as [H1 H2]; [by left|].
  assert (Hstep : files (run (assign f r) w) !! q = files w !! q).
  { apply assign_frame; [done|done|].
    destruct Hq as [?|Hq]; [by left|right; apply Hq; by left]. }
  rewrite IH, Hstep; [done| |].
  - intros f' Hf'. apply Hts. by right.
  - rewrite Hstep. destruct Hq as [?|Hq]; [by left|].
    right. intros f' Hf'. apply Hq. by right.
Qed.

Lemma dest_child n r :
  dest (Path.child b n) r
  = Path.child (Path.child (Path.child b (split_category n))
                  (split_name random (Path.child b n) r)) n.
Proof. unfold dest, split_dest. by rewrite name_child. Qed.

(** Where the task of another entry [b/n'] cannot reach. *)
Lemma task_apart_below n n' rest r :
  n ≠ n' → n ∉ categories →
  let f := Path.child b n' in
  let q := Path.child b n ++ rest in
  ¬ Path.under f q ∧ ¬ Path.under (dest f r) q ∧ ¬ Path.under q (dest f r).
Proof.
  intros Hne Hn f q. subst f q. rewrite dest_child.
  pose proof (split_category_in n') as Hc. split_and!; intros H; prefix_inv H.
  - congruence.
  - apply Hn. by rewrite <- E.
  - apply Hn. by rewrite E.
Qed.

Lemma task_apart_dest n n' c s rest r :
  n ≠ n' → n' ∉ categories → c ∈ categories →
  let f := Path.child b n' in
  let q := Path.child (Path.child (Path.child b c) s) n ++ rest in
  ¬ Path.under f q ∧ ¬ Path.under (dest f r) q ∧ ¬ Path.under q (dest f r).
Proof.
  intros Hne Hn Hc f q. subst f q. rewrite dest_child.
  split_and!; intros H; prefix_inv H.
  - apply Hn. by rewrite E.
  - congruence.
  - congruence.
Qed.

Lemma task_apart_split_dir n' c s r :
  n' ∉ categories → c ∈ categories →
  let f := Path.child b n' in
  let q := Path.child (Path.child b c) s in
  ¬ Path.under f q ∧ ¬ Path.under (dest f r) q.
Proof.
  intros Hn Hc f q. subst f q. rewrite dest_child.
  split_and!; intros H; prefix_inv H.
  apply Hn. by rewrite E.
Qed.

(** The run of [split_dataset], laid out: the directories, the listing,
    and then one task after the other. *)
Lemma split_dataset_runs r w :
  (∀ l, order l ≡ₚ l) →
  files w !! b = Some Dir → split_dirs_free self w →
  ∃ w1 ts,
    split_dataset locked order random self r w
    = (Return tt, foldl (λ w f, run (assign f r) w) w1 ts)
    ∧ (∀ q, files w1 !! q = files w !! q
            ∨ (toward_split_dir self q ∧ files w !! q = None
               ∧ files w1 !! q = Some Dir))
    ∧ (∀ c s, c ∈ categories → s ∈ splits →
         files w1 !! Path.child (Path.child b c) s = Some Dir)
    ∧ NoDup ts
    ∧ ∀ f, f ∈ ts ↔ ∃ n, f = Path.child b n ∧ recognized n
                         ∧ is_Some (files w1 !! f).
Proof.
  intros Hperm Hb Hfree. unfold split_dataset.
  unfold bind at 1. unfold print at 1. unfold bind at 1.
  set (w0 := World (files w) (stdout w ++ [Splitting])).
  destruct (create_split_dirs_spec self w0) as (w1 & Hrun & [_ Hg] & Hd); [done|done|].
  rewrite Hrun. unfold bind, iterdir.
  assert (Hb1 : files w1 !! base_dir self = Some Dir).
  { destruct (Hg (base_dir self)) as [Heq|(_ & Hn & _)].
    - rewrite Heq. exact Hb.
    - simpl in Hn. unfold b in Hb. rewrite Hb in Hn. discriminate. }
  rewrite Hb1. rewrite pool_map_fmap.
  rewrite pool_map_all by (intros f w'; apply assign_returns).
  eexists w1, _. split_and!; [done|exact Hg|exact Hd|..].
  - apply NoDup_filter, NoDup_scandir, Hperm.
  - intros f. rewrite list_elem_of_filter, (elem_of_scandir order Hperm). split.
    + intros (Hs & Hc & He). apply child_of_inv in Hc as [n ->].
      exists n. rewrite name_child in Hs. done.
    + intros (n & -> & Hn & He). rewrite name_child.
      split_and!; [done|apply child_of_child|done].
Qed.

End Split.

Section MoveFile.
Context (locked : path → bool) (order : list path → list path).

(** A regular file moved onto a path that holds no directory: the file
    replaces whatever was there. *)
Lemma shutil_move_file src dst c w :
  files w !! src = Some (File c) →
  locked src = false → locked dst = false →
  files w !! dst ≠ Some Dir →
  files w !! Path.parent dst = Some Dir →
  shutil_move locked order src dst w
  = (Return tt, set_files (<[dst := File c]> (delete src (files w))) w).
Proof.
  intros Hsrc Hls Hld Hdst Hpar. unfold shutil_move, is_dir.
  rewrite bool_decide_eq_false_2 by done.
  unfold try_except, os_rename. rewrite Hsrc, Hls.
  destruct (files w !! dst) as [[c'|]|] eqn:Hd; [by rewrite Hld|done|].
  unfold create_at. by rewrite Hpar.
Qed.

End MoveFile.

Section SplitFile.
Context (order : list path → list path) (random : path → Q).
Context (self : DatasetPreparator).
Let b := base_dir self.
Let assign := _assign_to_split_folder unlocked order random self.
Let dest := split_dest random self.

Lemma assign_file n c r w :
  let f := Path.child b n in
  files w !! f = Some (File c) →
  files w !! dest f r ≠ Some Dir →
  files w !! Path.parent (dest f r) = Some Dir →
  files (run (assign f r) w) = <[dest f r := File c]> (delete f (files w)).
Proof.
  intros f Hf Hd Hp. unfold run, assign, _assign_to_split_folder, try_except.
  fold (split_category (Path.name f)) (split_name random f r).
  fold (split_dest random self f r). fold dest.
  by rewrite (shutil_move_file unlocked order f (dest f r) c w).
Qed.

End SplitFile.

(** C5.  A recognized file directly under the root ends up in the one
    split directory its extension and its random draw select: category
    [images] for [.jpg] and [.png], [labels] for [.txt]; split [train]
    exactly when the draw is below the ratio.  It is no longer at the
    root, the three other split directories hold under its name what
    they held before, and all four split directories exist.  The call
    returns normally.  The tree is one the constructor has been run on,
    no regular file stands where a split directory goes and no directory
    bears the file's name at its destination. *)
Theorem split_dataset_places_file order random self train_ratio w n c :
  (∀ l, order l ≡ₚ l) →
  let b := base_dir self in
  let category :=
    if bool_decide (Path.suffix n ∈ [".jpg"; ".png"]) then "images" else "labels" in
  let split :=
    if float_lt (random (Path.child b n)) train_ratio then "train" else "val" in
  let dest := Path.child (Path.child (Path.child b category) split) n in
  files w !! b = Some Dir →
  split_dirs_free self w →
  files w !! Path.child b n = Some (File c) →
  Path.suffix n ∈ [".jpg"; ".png"; ".txt"] →
  files w !! dest ≠ Some Dir →
  ∃ w',
    split_dataset unlocked order random self train_ratio w = (Return tt, w')
    ∧ files w' !! dest = Some (File c)
    ∧ files w' !! Path.child b n = None
    ∧ (∀ cat' split', cat' ∈ categories → split' ∈ splits →
         (cat', split') ≠ (category, split) →
         files w' !! Path.child (Path.child (Path.child b cat') split') n
         = files w !! Path.child (Path.child (Path.child b cat') split') n)
    ∧ (∀ cat' split', cat' ∈ categories → split' ∈ splits →
         files w' !! Path.child (Path.child b cat') split' = Some Dir).
Proof.
  intros Hperm b category split dest Hb Hfree Hf Hn Hdest.
  set (f := Path.child b n).
  set (r := train_ratio).
  assert (Hdest_eq : split_dest random self f r = dest).
  { unfold f, b. rewrite (dest_child random self). done. }
  assert (Hncat : n ∉ categories) by by apply recognized_not_category.
  destruct (split_dataset_runs unlocked order random self r w Hperm Hb Hfree)
    as (w1 & ts & Hrun & Hg & Hdirs & Hnd & Hts).
  set (assign := _assign_to_split_folder unlocked order random self) in *.
  (* the state when the listing is taken *)
  assert (Hlen3 : ∀ c' s', ¬ (length (Path.child (Path.child (Path.child b c') s') n)
                             ≤ length b + 2)%nat).
  { intros c' s'. unfold Path.child. rewrite !length_app. simpl. lia. }
  assert (Hcand1 : ∀ c' s', files w1 !! Path.child (Path.child (Path.child b c') s') n
                   = files w !! Path.child (Path.child (Path.child b c') s') n).
  { intros c' s'. destruct (Hg (Path.child (Path.child (Path.child b c') s') n))
      as [?|(Hl%toward_split_dir_length & _)]; [done|]. by apply Hlen3 in Hl. }
  assert (Hf1 : files w1 !! f = Some (File c)).
  { destruct (Hg f) as [->|(_ & Hnone & _)]; [done|].
    unfold f in Hnone. rewrite Hf in Hnone. discriminate. }
  assert (Hin : f ∈ ts).
  { apply Hts. exists n. split_and!; [done|done|by eexists]. }
  apply list_elem_of_split in Hin as (l1 & l2 & ->).
  apply NoDup_app in Hnd as (_ & Hl1 & Hnd2).
  apply NoDup_cons in Hnd2 as [Hl2 _].
  assert (Hother : ∀ f', f' ∈ l1 ∨ f' ∈ l2 →
            ∃ n', f' = Path.child b n' ∧ n' ≠ n ∧ n' ∉ categories).
  { intros f' Hf'.
    assert (f' ∈ l1 ++ f :: l2) as (n' & -> & Hn' & _)%Hts.
    { rewrite elem_of_app, elem_of_cons. tauto. }
    exists n'. split_and!; [done| |by apply recognized_not_category].
    intros ->. destruct Hf' as [Hf'|Hf']; [by eapply Hl1; [|left]|done]. }
  (* what the other tasks leave alone *)
  assert (Hframe : ∀ l w0 q,
            (∀ f', f' ∈ l → f' ∈ l1 ∨ f' ∈ l2) →
            (q = f ∨ ∃ c' s', c' ∈ categories
                    ∧ q = Path.child (Path.child (Path.child b c') s') n) →
            files (foldl (λ w f, run (assign f r) w) w0 l) !! q = files w0 !! q).
  { intros l w0 q Hl Hq.
    assert (Hap : ∀ n', n' ≠ n → n' ∉ categories →
              ¬ Path.under (Path.child b n') q
              ∧ ¬ Path.under (split_dest random self (Path.child b n') r) q
              ∧ ¬ Path.under q (split_dest random self (Path.child b n') r)).
    { intros n' Hne Hc'. destruct Hq as [->|(c' & s' & Hc & ->)].
      - pose proof (task_apart_below random self n n' [] r) as H.
        rewrite app_nil_r in H. apply H; [done|done].
      - pose proof (task_apart_dest random self n n' c' s' [] r) as H.
        rewrite app_nil_r in H. apply H; [done|done|done]. }
    apply (tasks_frame unlocked order random self).
    - intros f' (n' & -> & Hne & Hc')%Hl%Hother.
      destruct (Hap n') as (H1 & H2 & _); done.
    - right. intros f' (n' & -> & Hne & Hc')%Hl%Hother.
      destruct (Hap n') as (_ & _ & H3); done. }
  assert (Hframe_dir : ∀ l w0 c' s',
            (∀ f', f' ∈ l → f' ∈ l1 ∨ f' ∈ l2) →
            c' ∈ categories →
            is_Some (files w0 !! Path.child (Path.child b c') s') →
            files (foldl (λ w f, run (assign f r) w) w0 l)
              !! Path.child (Path.child b c') s'
            = files w0 !! Path.child (Path.child b c') s').
  { intros l w0 c' s' Hl Hc Hsome. apply (tasks_frame unlocked order random self).
    - intros f' (n' & -> & Hne & Hc')%Hl%Hother.
      by apply (task_apart_split_dir random self).
    - by left. }
  assert (Hcat : category ∈ categories) by apply split_category_in.
  assert (Hsp : split ∈ splits) by apply (split_name_in random f r).
  rewrite foldl_app in Hrun. simpl in Hrun.
  set (wa := foldl (λ w f, run (assign f r) w) w1 l1) in *.
  assert (Hfa : files wa !! f = Some (File c)).
  { unfold wa. rewrite Hframe; [done|by left|by left]. }
  assert (Hda : files wa !! dest ≠ Some Dir).
  { unfold wa. rewrite Hframe; [|by left|right; by exists category, split].
    unfold dest. by rewrite Hcand1. }
  assert (Hpa : files wa !! Path.parent dest = Some Dir).
  { unfold dest. rewrite parent_child. unfold wa.
    rewrite Hframe_dir; [by apply Hdirs|by left|done|].
    rewrite Hdirs; [by eexists|done|done]. }
  assert (Hown : files (run (assign f r) wa)
                 = <[dest := File c]> (delete f (files wa))).
  { rewrite <- Hdest_eq.
    apply (assign_file order random self n c r wa); fold b f; rewrite ?Hdest_eq;
      [exact Hfa|exact Hda|exact Hpa]. }
  set (wb := run (assign f r) wa) in *.
  assert (Hne : f ≠ dest).
  { intros H. apply (f_equal length) in H. unfold f, dest, Path.child in H.
    rewrite !length_app in H. simpl in H. lia. }
  eexists. split; [exact Hrun|]. split_and!.
  - rewrite Hframe; [|by right|right; by exists category, split].
    rewrite Hown. apply lookup_insert_eq.
  - fold f. rewrite Hframe; [|by right|by left].
    rewrite Hown, lookup_insert_ne by done. apply lookup_delete_eq.
  - intros c' s' Hc Hs Hdiff.
    rewrite Hframe; [|by right|right; by exists c', s'].
    rewrite Hown. rewrite lookup_insert_ne, lookup_delete_ne.
    + unfold wa. rewrite Hframe; [apply Hcand1|by left|right; by exists c', s'].
    + intros H. apply (f_equal length) in H. unfold f, Path.child in H.
      rewrite !length_app in H. simpl in H. lia.
    + unfold dest. intros H. unfold Path.child in H.
      rewrite <- !app_assoc in H. apply app_inv_head in H. simpl in H.
      injection H as -> ->. done.
  - intros c' s' Hc Hs.
    assert (Hkeep : ∀ w0, files w0 !! Path.child (Path.child b c') s' = Some Dir →
              files (run (assign f r) w0) !! Path.child (Path.child b c') s' = Some Dir).
    { intros w0 H0. rewrite <- H0.
      apply (assign_frame unlocked order random self).
      - intros H. unfold f in H. prefix_inv H. by rewrite <- E in Hc.
      - intros H%prefix_length. rewrite Hdest_eq in H.
        unfold dest, Path.child in H. rewrite !length_app in H. simpl in H. lia.
      - left. by eexists. }
    rewrite Hframe_dir; [|by right|done|].
    + apply Hkeep. unfold wa. rewrite Hframe_dir; [by apply Hdirs|by left|done|].
      rewrite Hdirs; [by eexists|done|done].
    + unfold wb. rewrite Hkeep; [by eexists|]. unfold wa.
      rewrite Hframe_dir; [by apply Hdirs|by left|done|].
      rewrite Hdirs; [by eexists|done|done].
Qed.

Lemma lookup_move_tree_dst_None (src dst : path) (m : gmap path entry) r :
  m !! (src ++ r) = None → m !! (dst ++ r) = None →
  move_tree src dst m !! (dst ++ r) = None.
Proof.
  intros Hs Hd. unfold move_tree. apply lookup_union_None. split.
  - rewrite lookup_rebased.
    + rewrite lookup_subtree. by case_decide.
    + intros k [e' Hk]. rewrite lookup_subtree in Hk. by case_decide.
  - rewrite lookup_outside. by case_decide.
Qed.

Section MoveDir.
Context (locked : path → bool) (order : list path → list path).

(** A directory moved to a free path below an existing directory: the
    whole subtree goes along. *)
Lemma shutil_move_dir src dst w :
  files w !! src = Some Dir →
  files w !! dst = None →
  ¬ Path.under src dst →
  files w !! Path.parent dst = Some Dir →
  shutil_move locked order src dst w
  = (Return tt, set_files (move_tree src dst (files w)) w).
Proof.
  intros Hsrc Hdst Hu Hpar. unfold shutil_move, is_dir.
  rewrite bool_decide_eq_false_2 by by rewrite Hdst.
  unfold try_except, os_rename. rewrite Hsrc, Hdst.
  rewrite decide_False by done. unfold create_at. by rewrite Hpar.
Qed.

End MoveDir.

(** C10.  The splitter picks its entries by suffix alone: a directory
    directly under the root whose suffix is [.jpg], [.png] or [.txt] is
    handed to [_assign_to_split_folder] like a file and moved, with all
    it contains, into the split directory its suffix and its draw select.
    Stated for a tree the constructor has been run on, with no regular
    file where a split directory goes and nothing at the destination. *)
Theorem split_dataset_moves_directories order random self train_ratio w d :
  (∀ l, order l ≡ₚ l) →
  let b := base_dir self in
  let category :=
    if bool_decide (Path.suffix d ∈ [".jpg"; ".png"]) then "images" else "labels" in
  let split :=
    if float_lt (random (Path.child b d)) train_ratio then "train" else "val" in
  let dest := Path.child (Path.child (Path.child b category) split) d in
  files w !! b = Some Dir →
  split_dirs_free self w →
  files w !! Path.child b d = Some Dir →
  Path.suffix d ∈ [".jpg"; ".png"; ".txt"] →
  (∀ rest, files w !! (dest ++ rest) = None) →
  ∃ w',
    split_dataset unlocked order random self train_ratio w = (Return tt, w')
    ∧ files w' !! dest = Some Dir
    ∧ (∀ rest, files w' !! (dest ++ rest) = files w !! (Path.child b d ++ rest))
    ∧ (∀ rest, files w' !! (Path.child b d ++ rest) = None).
Proof.
  intros Hperm b category split dest Hb Hfree Hf Hn Hdest.
  set (f := Path.child b d).
  set (r := train_ratio).
  assert (Hdest_eq : split_dest random self f r = dest).
  { unfold f, b. rewrite (dest_child random self). done. }
  assert (Hncat : d ∉ categories) by by apply recognized_not_category.
  assert (Hcat : category ∈ categories) by apply split_category_in.
  assert (Hsp : split ∈ splits) by apply (split_name_in random f r).
  destruct (split_dataset_runs unlocked order random self r w Hperm Hb Hfree)
    as (w1 & ts & Hrun & Hg & Hdirs & Hnd & Hts).
  set (assign := _assign_to_split_folder unlocked order random self) in *.
  assert (Hsrc1 : ∀ rest, files w1 !! (f ++ rest) = files w !! (f ++ rest)).
  { intros rest. destruct (Hg (f ++ rest)) as [?|((c' & s' & Hc & _ & H) & _)]; [done|].
    unfold f in H. prefix_inv H. by rewrite E in Hncat. }
  assert (Hdst1 : ∀ rest, files w1 !! (dest ++ rest) = files w !! (dest ++ rest)).
  { intros rest. destruct (Hg (dest ++ rest))
      as [?|(Hl%toward_split_dir_length & _)]; [done|].
    unfold dest, b, Path.child in Hl. rewrite !length_app in Hl. simpl in Hl. lia. }
  assert (Hin : f ∈ ts).
  { apply Hts. exists d. split_and!; [done|done|].
    specialize (Hsrc1 []). rewrite app_nil_r in Hsrc1. rewrite Hsrc1.
    unfold f. by rewrite Hf. }
  apply list_elem_of_split in Hin as (l1 & l2 & ->).
  apply NoDup_app in Hnd as (_ & Hl1 & Hnd2).
  apply NoDup_cons in Hnd2 as [Hl2 _].
  assert (Hother : ∀ f', f' ∈ l1 ∨ f' ∈ l2 →
            ∃ n', f' = Path.child b n' ∧ n' ≠ d ∧ n' ∉ categories).
  { intros f' Hf'.
    assert (f' ∈ l1 ++ f :: l2) as (n' & -> & Hn' & _)%Hts.
    { rewrite elem_of_app, elem_of_cons. tauto. }
    exists n'. split_and!; [done| |by apply recognized_not_category].
    intros ->. destruct Hf' as [Hf'|Hf']; [by eapply Hl1; [|left]|done]. }
  assert (Hframe : ∀ l w0 q,
            (∀ f', f' ∈ l → f' ∈ l1 ∨ f' ∈ l2) →
            (∃ rest, q = f ++ rest ∨ q = dest ++ rest) →
            files (foldl (λ w f, run (assign f r) w) w0 l) !! q = files w0 !! q).
  { intros l w0 q Hl (rest & Hq).
    assert (Hap : ∀ n', n' ≠ d → n' ∉ categories →
              ¬ Path.under (Path.child b n') q
              ∧ ¬ Path.under (split_dest random self (Path.child b n') r) q
              ∧ ¬ Path.under q (split_dest random self (Path.child b n') r)).
    { intros n' Hne Hc'. destruct Hq as [->| ->].
      - by apply (task_apart_below random self d n' rest r).
      - by apply (task_apart_dest random self d n' category split rest r). }
    apply (tasks_frame unlocked order random self).
    - intros f' (n' & -> & Hne & Hc')%Hl%Hother.
      destruct (Hap n') as (H1 & H2 & _); done.
    - right. intros f' (n' & -> & Hne & Hc')%Hl%Hother.
      destruct (Hap n') as (_ & _ & H3); done. }
  assert (Hframe_dir : ∀ l w0 c' s',
            (∀ f', f' ∈ l → f' ∈ l1 ∨ f' ∈ l2) →
            c' ∈ categories →
            is_Some (files w0 !! Path.child (Path.child b c') s') →
            files (foldl (λ w f, run (assign f r) w) w0 l)
              !! Path.child (Path.child b c') s'
            = files w0 !! Path.child (Path.child b c') s').
  { intros l w0 c' s' Hl Hc Hsome. apply (tasks_frame unlocked order random self).
    - intros f' (n' & -> & Hne & Hc')%Hl%Hother.
      by apply (task_apart_split_dir random self).
    - by left. }
  rewrite foldl_app in Hrun. simpl in Hrun.
  set (wa := foldl (λ w f, run (assign f r) w) w1 l1) in *.
  assert (Hsrca : ∀ rest, files wa !! (f ++ rest) = files w !! (f ++ rest)).
  { intros rest. unfold wa. rewrite Hframe; [apply Hsrc1|by left|].
    exists rest. by left. }
  assert (Hdsta : ∀ rest, files wa !! (dest ++ rest) = None).
  { intros rest. unfold wa. rewrite Hframe; [|by left|exists rest; by right].
    by rewrite Hdst1. }
  assert (Hpa : files wa !! Path.parent dest = Some Dir).
  { unfold dest. rewrite parent_child. unfold wa.
    rewrite Hframe_dir; [by apply Hdirs|by left|done|].
    rewrite Hdirs; [by eexists|done|done]. }
  assert (Hfa : files wa !! f = Some Dir).
  { specialize (Hsrca []). rewrite app_nil_r in Hsrca. rewrite Hsrca.
    unfold f. by rewrite Hf. }
  assert (Hda : files wa !! dest = None).
  { specialize (Hdsta []). by rewrite app_nil_r in Hdsta. }
  assert (Hnu : ¬ Path.under f dest).
  { intros H. unfold f, dest in H. prefix_inv H. by rewrite E in Hncat. }
  assert (Hown : files (run (assign f r) wa) = move_tree f dest (files wa)).
  { unfold run, assign, _assign_to_split_folder, try_except.
    fold (split_category (Path.name f)) (split_name random f r).
    fold (split_dest random self f r). rewrite Hdest_eq.
    by rewrite (shutil_move_dir unlocked order f dest wa). }
  set (wb := run (assign f r) wa) in *.
  assert (Hmoved : ∀ rest, files wb !! (dest ++ rest) = files w !! (f ++ rest)).
  { intros rest. rewrite Hown. rewrite <- Hsrca.
    destruct (files wa !! (f ++ rest)) as [e|] eqn:He.
    - rewrite lookup_move_tree_dst; [done|by eexists].
    - by apply lookup_move_tree_dst_None. }
  eexists. split; [exact Hrun|]. split_and!.
  - rewrite Hframe; [|by right|exists []; right; by rewrite app_nil_r].
    specialize (Hmoved []). rewrite !app_nil_r in Hmoved. rewrite Hmoved.
    unfold f. by rewrite Hf.
  - intros rest. rewrite Hframe; [apply Hmoved|by right|exists rest; by right].
  - intros rest. fold f. rewrite Hframe; [|by right|exists rest; by left].
    rewrite Hown. apply lookup_move_tree_src.
    + by apply prefix_app_r.
    + intros H. unfold f, dest in H. prefix_inv H. by rewrite <- E in Hncat.
Qed.

(** ** Cleaning *)

Section Cleaning.
Context (locked : path → bool) (order : list path → list path).

Lemma sweep_returns f w : (sweep locked f w).1 = Return tt.
Proof.
  unfold sweep, bind, get_files. destruct (_ && _); [|done].
  apply try_except_print.
Qed.

Lemma sweep_files f w :
  files (run (sweep locked f) w)
  = if decide (unwanted locked (files w) f) then delete f (files w) else files w.
Proof.
  destruct (decide (unwanted locked (files w) f)) as [(Hf & Ha & Hl)|Hn];
    unfold run, sweep, bind, get_files; cbn [fst snd].
  - rewrite Hf.
    rewrite (bool_decide_eq_false_2 (Path.lower (Path.suffix (Path.name f)) ∈ [".jpg"; ".png"; ".txt"]) Ha).
    cbn [andb negb].
    unfold try_except, os_unlink, print, is_file in *.
    destruct (files w !! f) as [[c|]|]; try done. by rewrite Hl.
  - destruct (is_file (files w) f) eqn:Hf; cbn [andb]; [|done].
    case_bool_decide as Ha; cbn [negb]; [done|].
    unfold try_except, os_unlink, print, is_file in *.
    destruct (files w !! f) as [[c|]|] eqn:Hlook; try done.
    destruct (locked f) eqn:Hl; [done|]. exfalso. apply Hn.
    unfold unwanted, is_file. by rewrite Hlook.
Qed.

Lemma sweep_all_files l w q :
  files (foldl (λ w f, run (sweep locked f) w) w l) !! q
  = if decide (q ∈ l ∧ unwanted locked (files w) q) then None else files w !! q.
Proof.
  revert w. induction l as [|a l IH]; intros w; cbn [foldl].
  - rewrite decide_False; [done|]. intros [[]%elem_of_nil _].
  - rewrite IH.
    destruct (decide (unwanted locked (files w) a)) as [Hu|Hu].
    + assert (Hm1 : files (run (sweep locked a) w) = delete a (files w)).
      { rewrite sweep_files. by rewrite decide_True. }
      rewrite Hm1. destruct (decide (q = a)) as [->|Hne].
      * rewrite (decide_True (P := a ∈ a :: l ∧ _)) by (split; [by left|done]).
        destruct (decide (a ∈ l ∧ unwanted locked (delete a (files w)) a));
          [done|apply lookup_delete_eq].
      * rewrite lookup_delete_ne by done.
        assert (Hsame : unwanted locked (delete a (files w)) q
                        ↔ unwanted locked (files w) q).
        { unfold unwanted, is_file. by rewrite lookup_delete_ne. }
        destruct (decide (q ∈ l ∧ unwanted locked (files w) q)) as [[H1 H2]|Hn].
        -- rewrite decide_True by (split; [done|by apply Hsame]).
           rewrite decide_True; [done|]. split; [by right|done].
        -- rewrite decide_False by (rewrite Hsame; done).
           rewrite decide_False; [done|].
           intros [[?|?]%elem_of_cons ?]; [done|]. by apply Hn.
    + assert (Hm1 : files (run (sweep locked a) w) = files w).
      { rewrite sweep_files. by rewrite decide_False. }
      rewrite Hm1.
      destruct (decide (q ∈ l ∧ unwanted locked (files w) q)) as [[H1 H2]|Hn].
      * rewrite decide_True; [done|]. split; [by right|done].
      * rewrite decide_False; [done|].
        intros [[->|?]%elem_of_cons ?]; [done|]. by apply Hn.
Qed.

Context (order_perm : ∀ l, order l ≡ₚ l).

(** What [remove_unwanted_files] leaves: every entry but the unwanted
    files below the root. *)
Lemma remove_unwanted_files_spec self w :
  ∃ w', remove_unwanted_files locked order self w = (Return tt, w')
    ∧ ∀ q, files w' !! q
       = if decide (Path.below (base_dir self) q ∧ unwanted locked (files w) q)
         then None else files w !! q.
Proof.
  unfold remove_unwanted_files, bind, print, get_files. simpl.
  fold (sweep locked). rewrite for_each_all by apply sweep_returns.
  eexists. split; [done|]. intros q. rewrite sweep_all_files. simpl.
  destruct (decide (Path.below (base_dir self) q ∧ unwanted locked (files w) q))
    as [[Hb Hu]|Hn].
  - rewrite decide_True; [done|]. split; [|done].
    apply (elem_of_rglob order order_perm). split_and!; [done|apply ends_with_empty|].
    destruct Hu as [Hu _]. unfold is_file in Hu.
    destruct (files w !! q); [by eexists|done].
  - rewrite decide_False; [done|]. intros [Hin Hu]. apply Hn. split; [|done].
    by apply (elem_of_rglob order order_perm) in Hin as (? & _).
Qed.

End Cleaning.

Section Ignored.
Context (locked : path → bool) (order : list path → list path).
Context (random : path → Q) (self : DatasetPreparator).
Let b := base_dir self.

(** An entry of the root whose suffix the splitter does not recognize is
    left where it is. *)
Lemma split_dataset_ignores r w n e :
  (∀ l, order l ≡ₚ l) →
  files w !! b = Some Dir → split_dirs_free self w →
  files w !! Path.child b n = Some e →
  ¬ recognized n →
  ∃ w', split_dataset locked order random self r w = (Return tt, w')
    ∧ files w' !! Path.child b n = Some e.
Proof.
  intros Hperm Hb Hfree Hn Hrec.
  destruct (split_dataset_runs locked order random self r w Hperm Hb Hfree)
    as (w1 & ts & Hrun & Hg & Hdirs & Hnd & Hts).
  eexists. split; [exact Hrun|].
  assert (H1 : files w1 !! Path.child b n = Some e).
  { destruct (Hg (Path.child b n)) as [->|(_ & Hnone & _)]; [done|].
    rewrite Hn in Hnone. discriminate. }
  rewrite (tasks_frame locked order random self); [done| |left; by eexists].
  intros f (n' & -> & Hn' & _)%Hts. fold b. split.
  - intros H. prefix_inv H. by subst.
  - intros H%prefix_length. rewrite (dest_child random self) in H.
    unfold Path.child, b in H. rewrite !length_app in H. simpl in H. lia.
Qed.

(** The flattener's guard compares the suffix with [".jpg"] as it is
    written: with any other suffix nothing is unlinked before the move. *)
Lemma move_file_safely_no_unlink src dst_dir w :
  Path.suffix (Path.name src) ≠ ".jpg" →
  _move_file_safely locked order src dst_dir w
  = try_except (shutil_move locked order src (Path.child dst_dir (Path.name src)))
      (λ e, print (ErrorMoving src dst_dir e)) w.
Proof.
  intros Hs. unfold _move_file_safely, try_except, bind, get_files.
  rewrite name_child.
  destruct (String.eqb_spec (Path.suffix (Path.name src)) ".jpg") as [?|_]; [done|].
  by rewrite andb_false_r.
Qed.

End Ignored.

(** C7.  After [remove_unwanted_files] every file left below the root has
    an extension that, lower-cased, is [.jpg], [.png] or [.txt], and the
    entries whose lower-cased extension is one of these are untouched.
    The other stages compare the extension as written: a name such as
    [a.JPG] passes the cleaner's test, while the flattener's guard does
    not fire for it and the splitter leaves an entry of that name at the
    root. *)
Theorem remove_unwanted_files_case_insensitive order self w :
  (∀ l, order l ≡ₚ l) →
  let b := base_dir self in
  ∃ w',
    remove_unwanted_files unlocked order self w = (Return tt, w')
    ∧ (∀ q c, Path.below b q → files w' !! q = Some (File c) →
         Path.lower (Path.suffix (Path.name q)) ∈ [".jpg"; ".png"; ".txt"])
    ∧ (∀ q, Path.lower (Path.suffix (Path.name q)) ∈ [".jpg"; ".png"; ".txt"] →
         files w' !! q = files w !! q)
    ∧ (Path.lower (Path.suffix "a.JPG") ∈ [".jpg"; ".png"; ".txt"]
       ∧ Path.suffix "a.JPG" ∉ [".jpg"; ".png"; ".txt"])
    ∧ (∀ locked src dst_dir w0,
         Path.suffix (Path.name src) ≠ ".jpg" →
         _move_file_safely locked order src dst_dir w0
         = try_except
             (shutil_move locked order src (Path.child dst_dir (Path.name src)))
             (λ e, print (ErrorMoving src dst_dir e)) w0)
    ∧ (∀ locked random train_ratio w0 n e,
         files w0 !! b = Some Dir → split_dirs_free self w0 →
         files w0 !! Path.child b n = Some e →
         Path.suffix n ∉ [".jpg"; ".png"; ".txt"] →
         ∃ w1, split_dataset locked order random self train_ratio w0 = (Return tt, w1)
           ∧ files w1 !! Path.child b n = Some e).
Proof.
  intros Hperm b.
  destruct (remove_unwanted_files_spec unlocked order Hperm self w) as (w' & Hrun & Hw').
  exists w'. split_and!; [done|..].
  - intros q c Hq Hc. rewrite Hw' in Hc.
    destruct (decide (Path.lower (Path.suffix (Path.name q))
                      ∈ [".jpg"; ".png"; ".txt"])) as [?|Hn]; [done|].
    rewrite decide_True in Hc; [done|]. split; [done|].
    case_decide; [done|]. unfold unwanted, is_file, allowed. by rewrite Hc.
  - intros q Hq. rewrite Hw'. rewrite decide_False; [done|].
    by intros (_ & _ & Hn & _).
  - apply (bool_decide_unpack _). by vm_compute.
  - apply (bool_decide_unpack _). by vm_compute.
  - intros. by apply move_file_safely_no_unlink.
  - intros locked random r w0 n e Hb Hfree Hn Hs.
    by apply split_dataset_ignores.
Qed.

(** ** Empty directories *)

Lemma well_formed_prefix (m : gmap path entry) p r :
  well_formed m → is_Some (m !! (p ++ r)) → r ≠ [] → m !! p = Some Dir.
Proof.
  intros Hwf. induction r as [|x r IH] using rev_ind; [done|].
  intros Hs _. rewrite app_assoc in Hs. apply Hwf in Hs.
  destruct r as [|y r]; [by rewrite app_nil_r in Hs|].
  apply IH; [by eexists|done].
Qed.

Lemma has_file_below_child (m : gmap path entry) p :
  well_formed m → m !! p = Some Dir → has_file_below m p →
  ∃ n, is_Some (m !! Path.child p n).
Proof.
  intros Hwf Hp (q & c & [r ->] & Hq).
  destruct r as [|n r]; [rewrite app_nil_r in Hq; congruence|].
  exists n. destruct r as [|x r]; [by eexists|].
  exists Dir. apply (well_formed_prefix m (Path.child p n) (x :: r)); [done| |done].
  unfold Path.child. rewrite <- app_assoc. by eexists.
Qed.

Lemma shrunk_refl (top : path) (m : gmap path entry) : shrunk top m m.
Proof. intros q. by left. Qed.

Lemma shrunk_trans (top : path) (m1 m2 m3 : gmap path entry) :
  shrunk top m1 m2 → shrunk top m2 m3 → shrunk top m1 m3.
Proof.
  intros H1 H2 q. destruct (H2 q) as [->|(Hb & Hd & ->)]; [apply H1|].
  right. split_and!; [done| |done].
  destruct (H1 q) as [<-|(_ & _ & Hn)]; [done|congruence].
Qed.

Lemma shrunk_below (top top' : path) (m m' : gmap path entry) :
  Path.under top top' → shrunk top' m m' → shrunk top m m'.
Proof.
  intros Hu H q. destruct (H q) as [?|([Hq Hne] & ? & ?)]; [by left|].
  right. split_and!; [|done|done]. split; [by eapply under_trans|].
  intros ->. apply Hne. by apply (anti_symm prefix).
Qed.

Lemma shrunk_file (top : path) (m m' : gmap path entry) q c :
  shrunk top m m' → m !! q = Some (File c) → m' !! q = Some (File c).
Proof. intros H Hq. destruct (H q) as [->|(_ & ? & _)]; [done|congruence]. Qed.

Lemma shrunk_is_Some (top : path) (m m' : gmap path entry) q :
  shrunk top m m' → is_Some (m' !! q) → m' !! q = m !! q.
Proof.
  intros H [e He]. destruct (H q) as [?|(_ & _ & ?)]; [done|congruence].
Qed.

Lemma shrunk_has_file (top : path) (m m' : gmap path entry) p :
  shrunk top m m' → has_file_below m p → has_file_below m' p.
Proof. intros H (q & c & Hu & Hq). exists q, c. split; [done|]. by eapply shrunk_file. Qed.

Lemma shrunk_pruned (top top' : path) (m m' : gmap path entry) :
  shrunk top m m' → pruned top' m → pruned top' m'.
Proof.
  intros H Hp p Hb Hd. eapply shrunk_has_file; [done|]. apply Hp; [done|].
  rewrite <- Hd. symmetry. eapply shrunk_is_Some; [done|by eexists].
Qed.

Section Walk.
Context (order : list path → list path).
Context (order_perm : ∀ l, order l ≡ₚ l).

Lemma elem_of_listed_dirs (m : gmap path entry) top d :
  d ∈ listed_dirs order m top ↔ m !! Path.child top d = Some Dir.
Proof.
  unfold listed_dirs. rewrite list_elem_of_fmap. split.
  - intros (q & -> & Hq). apply list_elem_of_filter in Hq as [Hd Hq].
    apply (elem_of_scandir order order_perm) in Hq as [[n ->]%child_of_inv _].
    rewrite name_child. unfold is_dir in Hd. by apply bool_decide_unpack in Hd.
  - intros Hd. exists (Path.child top d). rewrite name_child. split; [done|].
    apply list_elem_of_filter. split.
    + unfold is_dir. by apply bool_decide_pack.
    + apply (elem_of_scandir order order_perm). split; [apply child_of_child|by eexists].
Qed.

Lemma NoDup_listed_dirs (m : gmap path entry) top : NoDup (listed_dirs order m top).
Proof.
  unfold listed_dirs. apply (NoDup_fmap_1 (Path.child top)).
  rewrite <- list_fmap_compose.
  set (L := filter (λ q, is_dir m q) (scandir order m top)).
  assert (Heq : (Path.child top ∘ Path.name) <$> L = id <$> L).
  { apply list_fmap_ext. intros i q Hq%list_elem_of_lookup_2.
    apply list_elem_of_filter in Hq as [_ Hq].
    apply (elem_of_scandir order order_perm) in Hq as [[n ->]%child_of_inv _].
    simpl. by rewrite name_child. }
  rewrite Heq, list_fmap_id. apply NoDup_filter, NoDup_scandir, order_perm.
Qed.

Lemma scandir_nil (m : gmap path entry) p n :
  scandir order m p = [] → m !! Path.child p n = None.
Proof.
  intros Hnil. destruct (m !! Path.child p n) as [e|] eqn:He; [|done].
  assert (Path.child p n ∈ scandir order m p) as Hin.
  { apply (elem_of_scandir order order_perm). split; [apply child_of_child|by eexists]. }
  rewrite Hnil in Hin. by apply elem_of_nil in Hin.
Qed.

(** One name of the loop: the directory goes if it is empty, and stays,
    with a file somewhere in it, if it is not. *)
Lemma remove_if_empty_spec root d w :
  well_formed (files w) →
  files w !! Path.child root d = Some Dir →
  pruned (Path.child root d) (files w) →
  ∃ w', remove_if_empty order root d w = (Return tt, w')
    ∧ well_formed (files w')
    ∧ ((files w' = files w ∧ has_file_below (files w) (Path.child root d))
       ∨ files w' = delete (Path.child root d) (files w)).
Proof.
  intros Hwf Hd Hpr. unfold remove_if_empty, bind, iterdir. rewrite Hd.
  destruct (scandir order (files w) (Path.child root d)) as [|x xs] eqn:Hscan.
  - unfold try_except, bind, os_rmdir. rewrite Hd, Hscan. simpl.
    eexists. split_and!; [done| |by right]. simpl.
    intros p n [e He]. destruct (decide (Path.child p n = Path.child root d)) as [Heq|Hne].
    { rewrite Heq, lookup_delete_eq in He. done. }
    rewrite lookup_delete_ne in He by done.
    rewrite lookup_delete_ne.
    + apply (Hwf p n). by eexists.
    + intros <-. by rewrite (scandir_nil _ _ n Hscan) in He.
  - exists w. split_and!; [done|done|]. left. split; [done|].
    assert (x ∈ scandir order (files w) (Path.child root d)) as Hx
      by (rewrite Hscan; by left).
    apply (elem_of_scandir order order_perm) in Hx as [[n ->]%child_of_inv [e He]].
    destruct e as [c|].
    + exists (Path.child (Path.child root d) n), c. split; [|done]. by apply prefix_app_r.
    + destruct (Hpr (Path.child (Path.child root d) n)) as (q & c & Hu & Hq);
        [apply child_below|done|].
      exists q, c. split; [|done]. eapply under_trans; [|done]. by apply prefix_app_r.
Qed.

(** The loop body over the listed names. *)
Lemma remove_empty_in_spec root ds w :
  NoDup ds →
  well_formed (files w) →
  (∀ d, d ∈ ds → files w !! Path.child root d = Some Dir) →
  (∀ d, d ∈ ds → pruned (Path.child root d) (files w)) →
  ∃ w', remove_empty_in order root ds w = (Return tt, w')
    ∧ well_formed (files w')
    ∧ shrunk root (files w) (files w')
    ∧ (∀ q, files w' !! q ≠ files w !! q → ∃ d, d ∈ ds ∧ q = Path.child root d)
    ∧ (∀ d, d ∈ ds → files w' !! Path.child root d = Some Dir →
         has_file_below (files w') (Path.child root d)).
Proof.
  revert w. induction ds as [|d ds IH]; intros w Hnd Hwf Hdir Hpr.
  - exists w. split_and!; [done|done|apply shrunk_refl|done|].
    intros d Hd. by apply elem_of_nil in Hd.
  - apply NoDup_cons in Hnd as [Hd Hnd].
    destruct (remove_if_empty_spec root d w) as (w1 & Hrun1 & Hwf1 & Hcase);
      [done|apply Hdir; by left|apply Hpr; by left|].
    assert (Hsh1 : shrunk root (files w) (files w1)).
    { destruct Hcase as [[-> _]| ->]; [apply shrunk_refl|]. intros q.
      destruct (decide (q = Path.child root d)) as [->|Hne].
      - right. rewrite lookup_delete_eq. split_and!; [apply child_below| |done].
        apply Hdir. by left.
      - left. by apply lookup_delete_ne. }
    assert (Hch1 : ∀ q, files w1 !! q ≠ files w !! q → q = Path.child root d).
    { intros q Hq. destruct Hcase as [[Heq _]|Heq]; rewrite Heq in Hq; [done|].
      destruct (decide (q = Path.child root d)) as [->|Hne]; [done|].
      by rewrite lookup_delete_ne in Hq. }
    destruct (IH w1) as (w' & Hrun & Hwf' & Hsh & Hch & Hres); [done|done|..].
    { intros d' Hd'. destruct (decide (files w1 !! Path.child root d'
                                       = files w !! Path.child root d')) as [->|Hne].
      - apply Hdir. by right.
      - apply Hch1, child_inj in Hne. by subst. }
    { intros d' Hd'. eapply shrunk_pruned; [done|]. apply Hpr. by right. }
    exists w'. split_and!.
    + unfold remove_empty_in in *. simpl. unfold bind. by rewrite Hrun1.
    + done.
    + by eapply shrunk_trans.
    + intros q Hq. destruct (decide (files w1 !! q = files w !! q)) as [Heq|Hne].
      * rewrite <- Heq in Hq. apply Hch in Hq as (d' & ? & ?). exists d'.
        split; [by right|done].
      * exists d. split; [by left|by apply Hch1].
    + intros d' [->|Hd']%elem_of_cons Hstill; [|by apply Hres].
      eapply shrunk_has_file; [done|].
      destruct Hcase as [[-> ?]|Heq]; [done|].
      assert (files w' !! Path.child root d = files w1 !! Path.child root d) as Hq
        by (eapply shrunk_is_Some; [done|by eexists]).
      rewrite Hstill, Heq, lookup_delete_eq in Hq. done.
Qed.

End Walk.

Section WalkAll.
Context (order : list path → list path).
Context (order_perm : ∀ l, order l ≡ₚ l).

Let walk (k : nat) (top : path) : M unit :=
  os_walk_bottom_up order k top (remove_empty_in order).

Lemma shallow_shrunk (k : nat) (top top' : path) (m m' : gmap path entry) :
  shrunk top' m m' → shallow k top m → shallow k top m'.
Proof.
  intros Hsh Hk q Hu Hq. apply Hk; [done|].
  rewrite <- (shrunk_is_Some _ _ _ _ Hsh Hq). done.
Qed.

(** The walks of the subdirectories, one after the other. *)
Lemma walk_children k top ds w :
  (∀ top' w', well_formed (files w') → shallow k top' (files w') → 0 < k →
     ∃ w'', walk k top' w' = (Return tt, w'')
       ∧ well_formed (files w'')
       ∧ shrunk top' (files w') (files w'')
       ∧ pruned top' (files w'')) →
  0 < k →
  well_formed (files w) →
  (∀ d, d ∈ ds → shallow k (Path.child top d) (files w)) →
  ∃ w', for_each ds (λ d, walk k (Path.child top d)) w = (Return tt, w')
    ∧ well_formed (files w')
    ∧ shrunk top (files w) (files w')
    ∧ (∀ d, files w' !! Path.child top d = files w !! Path.child top d)
    ∧ (∀ d, d ∈ ds → pruned (Path.child top d) (files w')).
Proof.
  intros IHk Hk. revert w. induction ds as [|d ds IH]; intros w Hwf Hfuel.
  - exists w. split_and!; [done|done|apply shrunk_refl|done|].
    intros d Hd. by apply elem_of_nil in Hd.
  - destruct (IHk (Path.child top d) w) as (w1 & Hrun1 & Hwf1 & Hsh1 & Hpr1);
      [done|apply Hfuel; by left|done|].
    destruct (IH w1) as (w' & Hrun & Hwf' & Hsh & Hsame & Hpr); [done|..].
    { intros d' Hd'. eapply shallow_shrunk; [done|]. apply Hfuel. by right. }
    assert (Hsame1 : ∀ d', files w1 !! Path.child top d'
                           = files w !! Path.child top d').
    { intros d'. destruct (Hsh1 (Path.child top d'))
        as [?|([Hu Hne] & _)]; [done|].
      exfalso. apply Hne. symmetry. apply prefix_length_eq; [done|].
      unfold Path.child. rewrite !length_app. simpl. lia. }
    exists w'. split_and!.
    + simpl. unfold bind. by rewrite Hrun1.
    + done.
    + eapply shrunk_trans; [|done]. eapply shrunk_below; [|done].
      by apply prefix_app_r.
    + intros d'. by rewrite Hsame, Hsame1.
    + intros d' [->|Hd']%elem_of_cons; [|by apply Hpr].
      by eapply shrunk_pruned.
Qed.

(** A walk with enough fuel returns, and leaves below [top] only
    directories that hold a file somewhere. *)
Lemma walk_spec k top w :
  well_formed (files w) → shallow k top (files w) → 0 < k →
  ∃ w', walk k top w = (Return tt, w')
    ∧ well_formed (files w')
    ∧ shrunk top (files w) (files w')
    ∧ pruned top (files w').
Proof.
  revert top w. induction k as [|k IHk]; intros top w Hwf Hfuel Hk; [lia|].
  unfold walk. simpl. unfold bind at 1. unfold get_files at 1.
  fold (listed_dirs order (files w) top).
  set (dirs := listed_dirs order (files w) top).
  fold (walk k). unfold bind.
  assert (Hdirs : ∀ d, d ∈ dirs ↔ files w !! Path.child top d = Some Dir)
    by (intros d; by apply elem_of_listed_dirs).
  destruct (decide (dirs = [])) as [Hnil|Hne].
  { (* no subdirectory: nothing to walk, nothing to remove *)
    rewrite Hnil. simpl. exists w. split_and!; [done|done|apply shrunk_refl|].
    intros p [[r ->] Hp] Hd. destruct r as [|d r]; [by rewrite app_nil_r in Hp|].
    assert (d ∈ dirs) as Hin.
    { apply Hdirs. destruct r as [|x r]; [done|].
      apply (well_formed_prefix _ (Path.child top d) (x :: r)); [done| |done].
      unfold Path.child. rewrite <- app_assoc. by eexists. }
    rewrite Hnil in Hin. by apply elem_of_nil in Hin. }
  assert (Hk' : 0 < k).
  { destruct dirs as [|d ?] eqn:Hd; [done|].
    assert (files w !! Path.child top d = Some Dir) as Hdir by (apply Hdirs; by left).
    specialize (Hfuel (Path.child top d)). unfold Path.child in Hfuel.
    rewrite length_app in Hfuel. simpl in Hfuel.
    assert (length top + 1 < length top + S k); [|lia].
    apply Hfuel; [by apply prefix_app_r|by eexists]. }
  destruct (walk_children k top dirs w) as (w1 & Hrun1 & Hwf1 & Hsh1 & Hsame1 & Hpr1);
    [intros; by apply IHk|done|done|..].
  { intros d Hd q Hu Hq.
    assert (length q < length top + S k) as Hlt.
    { apply Hfuel; [|done]. eapply under_trans; [|done]. by apply prefix_app_r. }
    unfold Path.child. rewrite length_app. simpl. lia. }
  unfold walk in Hrun1. rewrite Hrun1.
  destruct (remove_empty_in_spec order order_perm top dirs w1)
    as (w2 & Hrun2 & Hwf2 & Hsh2 & Hch2 & Hres2).
  { apply NoDup_listed_dirs, order_perm. }
  { done. }
  { intros d Hd. rewrite Hsame1. by apply Hdirs. }
  { done. }
  exists w2. split_and!; [done|done|by eapply shrunk_trans|].
  intros p [[r ->] Hp] Hd. destruct r as [|d r]; [by rewrite app_nil_r in Hp|].
  assert (Hpw : files w !! (top ++ d :: r) = Some Dir).
  { rewrite <- Hd. symmetry. eapply shrunk_is_Some; [|by eexists].
    by eapply shrunk_trans. }
  assert (d ∈ dirs) as Hin.
  { apply Hdirs. destruct r as [|x r]; [done|].
    apply (well_formed_prefix _ (Path.child top d) (x :: r)); [done| |done].
    unfold Path.child. rewrite <- app_assoc. by eexists. }
  destruct r as [|x r].
  - by apply Hres2.
  - assert (Hp2 : pruned (Path.child top d) (files w2))
      by (eapply shrunk_pruned; [exact Hsh2|by apply Hpr1]).
    apply Hp2; [|done]. split.
    + exists (x :: r). unfold Path.child. by rewrite <- app_assoc.
    + intros H. apply (f_equal length) in H. unfold Path.child in H.
      rewrite !length_app in H. simpl in H. lia.
Qed.

Lemma depth_bound (m : gmap path entry) q :
  is_Some (m !! q) → (length q ≤ depth m)%nat.
Proof.
  intros [e He]. unfold depth. apply max_list_elem_of_le.
  apply list_elem_of_fmap. exists q. split; [done|].
  apply list_elem_of_fmap. exists (q, e). split; [done|]. by apply elem_of_map_to_list.
Qed.

Lemma remove_empty_dirs_spec self w :
  well_formed (files w) →
  ∃ w', remove_empty_dirs order self w = (Return tt, w')
    ∧ well_formed (files w')
    ∧ shrunk (base_dir self) (files w) (files w')
    ∧ pruned (base_dir self) (files w').
Proof.
  intros Hwf. unfold remove_empty_dirs. unfold bind at 1. unfold get_files at 1.
  change (os_walk_bottom_up order (S (depth (files w))) (base_dir self) _)
    with (walk (S (depth (files w))) (base_dir self)).
  apply walk_spec; [done| |lia].
  intros q _ Hq%depth_bound. lia.
Qed.

End WalkAll.

(** C6.  One call of [remove_empty_dirs] on a tree returns normally and
    leaves no empty directory strictly below the root: the directories
    are visited children first, so a directory emptied by the removal of
    its last subdirectory goes in the same call.  Every directory left
    below the root has an entry, its listing is not empty, and nothing
    but directories below the root has been removed. *)
Theorem remove_empty_dirs_leaves_none_empty order self w :
  (∀ l, order l ≡ₚ l) →
  well_formed (files w) →
  ∃ w',
    remove_empty_dirs order self w = (Return tt, w')
    ∧ (∀ p, Path.below (base_dir self) p → files w' !! p = Some Dir →
         ∃ n, is_Some (files w' !! Path.child p n))
    ∧ (∀ p, Path.below (base_dir self) p → files w' !! p = Some Dir →
         scandir order (files w') p ≠ [])
    ∧ (∀ q, files w' !! q = files w !! q
            ∨ (Path.below (base_dir self) q ∧ files w !! q = Some Dir
               ∧ files w' !! q = None)).
Proof.
  intros Hperm Hwf.
  destruct (remove_empty_dirs_spec order Hperm self w Hwf)
    as (w' & Hrun & Hwf' & Hsh & Hpr).
  exists w'. split_and!; [done| | |done].
  - intros p Hb Hd. apply has_file_below_child; [done|done|by apply Hpr].
  - intros p Hb Hd Hnil.
    destruct (has_file_below_child (files w') p) as (n & [e He]);
      [done|done|by apply Hpr|].
    by rewrite (scandir_nil order Hperm _ _ n Hnil) in He.
Qed.

Lemma singleton_list {A} (l : list A) a :
  NoDup l → (∀ x, x ∈ l ↔ x = a) → l = [a].
Proof.
  intros Hnd Hl. destruct l as [|x l].
  - assert (a ∈ []) as []%elem_of_nil. by apply Hl.
  - assert (x = a) as -> by (apply Hl; by left).
    destruct l as [|y l]; [done|].
    assert (y = a) as -> by (apply Hl; right; by left).
    apply NoDup_cons in Hnd as [Hn _]. exfalso. apply Hn. by left.
Qed.

(** C1, at the failing input.  The root holds one picture, [a.jpg], and
    nothing else.  [flatten_all_files] takes it for an incoming file whose
    destination exists, deletes the destination, which is the file itself,
    and then fails to move what is no longer there: the picture is lost. *)
Theorem flatten_loses_picture_at_root order :
  (∀ l, order l ≡ₚ l) →
  flatten_all_files unlocked order ds picture_at_root
  = (Return tt,
     World (delete ["data"; "ds"; "a.jpg"] (files picture_at_root))
       [Flattening;
        ErrorMoving ["data"; "ds"; "a.jpg"] ["data"; "ds"] FileNotFoundError]).
Proof.
  intros Hperm. unfold flatten_all_files, bind, print, get_files. cbn [fst snd files].
  assert (Hl : filter (λ f, is_file (files picture_at_root) f)
                 (rglob order (base_dir ds) "" (files picture_at_root))
               = [["data"; "ds"; "a.jpg"]]).
  { apply singleton_list.
    - apply NoDup_filter, NoDup_rglob, Hperm.
    - intros x. rewrite list_elem_of_filter, (elem_of_rglob order Hperm). split.
      + intros (Hf & _). unfold is_file in Hf.
        destruct (files picture_at_root !! x) as [[c|]|] eqn:Hx; try done.
        unfold picture_at_root, tree in Hx. cbn [files] in Hx.
        rewrite !list_to_map_cons, list_to_map_nil in Hx. cbn [fst snd] in Hx.
        repeat match type of Hx with
        | <[?k:=_]> _ !! _ = _ =>
            let Hne := fresh "Hne" in
            destruct (decide (k = x)) as [<-|Hne];
              [rewrite lookup_insert_eq in Hx
              |rewrite lookup_insert_ne in Hx by done]
        end; try done.
      + intros ->. split_and!.
        * by vm_compute.
        * apply (bool_decide_unpack _). by vm_compute.
        * apply ends_with_empty.
        * eexists. vm_compute. reflexivity. }
  rewrite Hl. by vm_compute.
Qed.

Lemma flatten_loses_picture_at_root_witness :
  flatten_all_files unlocked listed ds picture_at_root
  = (Return tt,
     World (delete ["data"; "ds"; "a.jpg"] (files picture_at_root))
       [Flattening;
        ErrorMoving ["data"; "ds"; "a.jpg"] ["data"; "ds"] FileNotFoundError]).
Proof. apply (flatten_loses_picture_at_root listed). intros l. reflexivity. Defined.


Lemma move_file_safely_returns locked order src dst_dir w :
  (_move_file_safely locked order src dst_dir w).1 = Return tt.
Proof. apply try_except_print. Qed.


Section Manifest.
Context (safe_dump : list (string * yaml) → outcome Text.text).

Lemma create_yaml_writes self class_names t w :
  let yaml_path := Path.joinpath (base_dir self) "dataset.yaml" in
  files w !! base_dir self = Some Dir →
  files w !! yaml_path ≠ Some Dir →
  safe_dump
    (manifest (Path.str (Path.joinpath (base_dir self) "images/train"))
       (Path.str (Path.joinpath (base_dir self) "images/val"))
       (default [] class_names)) = Return t →
  create_yaml unlocked safe_dump self class_names w
  = (Return tt,
     World (<[yaml_path := File (Utf8 t)]> (files w))
       (stdout w ++ [Created yaml_path])).
Proof.
  intros yaml_path Hb Hy Hdump.
  unfold create_yaml, try_except, bind, open_w, write_text, print.
  fold yaml_path. unfold manifest in Hdump. rewrite Hdump.
  assert (Hpar : Path.parent yaml_path = base_dir self).
  { unfold yaml_path, Path.joinpath.
    change (Path.parse "dataset.yaml") with ["dataset.yaml"].
    apply (parent_child (base_dir self) "dataset.yaml"). }
  destruct (files w !! yaml_path) as [[c|]|] eqn:Hlook; [|done|].
  - cbn [unlocked]. simpl. by rewrite insert_insert_eq.
  - unfold create_at. rewrite Hpar, Hb. simpl. by rewrite insert_insert_eq.
Qed.

End Manifest.

(** C8.  With the root [/data/ds] and the class names [cat] and [dog],
    [create_yaml] leaves at [/data/ds/dataset.yaml], whatever was there,
    the document the emitter makes of the mapping
    [train: /data/ds/images/train], [val: /data/ds/images/val], [nc: 2],
    [names: [cat, dog]], keys in this order; with no list of names the
    mapping has [nc: 0] and [names: []].  Stated for a root that exists
    and a manifest path that holds no directory. *)
Theorem create_yaml_manifest safe_dump w t t0 :
  let self := {| base_dir := Path.parse "/data/ds" |} in
  let yaml_path := ["data"; "ds"; "dataset.yaml"] in
  files w !! ["data"; "ds"] = Some Dir →
  files w !! yaml_path ≠ Some Dir →
  safe_dump [("train", YStr "/data/ds/images/train");
             ("val", YStr "/data/ds/images/val");
             ("nc", YInt 2); ("names", YList ["cat"; "dog"])] = Return t →
  safe_dump [("train", YStr "/data/ds/images/train");
             ("val", YStr "/data/ds/images/val");
             ("nc", YInt 0); ("names", YList [])] = Return t0 →
  create_yaml unlocked safe_dump self (Some ["cat"; "dog"]) w
  = (Return tt,
     World (<[yaml_path := File (Utf8 t)]> (files w))
       (stdout w ++ [Created yaml_path]))
  ∧ create_yaml unlocked safe_dump self None w
    = (Return tt,
       World (<[yaml_path := File (Utf8 t0)]> (files w))
         (stdout w ++ [Created yaml_path])).
Proof.
  intros self yaml_path Hb Hy Hdump Hdump0. split.
  - by apply (create_yaml_writes safe_dump self (Some ["cat"; "dog"]) t w).
  - by apply (create_yaml_writes safe_dump self None t0 w).
Qed.

Lemma create_yaml_manifest_witness :
  let self := {| base_dir := Path.parse "/data/ds" |} in
  let yaml_path := ["data"; "ds"; "dataset.yaml"] in
  create_yaml unlocked keys_only self (Some ["cat"; "dog"]) picture_at_root
  = (Return tt,
     World (<[yaml_path := File (Utf8 (Text.of_string "train val nc names"))]>
              (files picture_at_root))
       (stdout picture_at_root ++ [Created yaml_path]))
  ∧ create_yaml unlocked keys_only self None picture_at_root
    = (Return tt,
       World (<[yaml_path := File (Utf8 (Text.of_string "train val nc names"))]>
                (files picture_at_root))
         (stdout picture_at_root ++ [Created yaml_path])).
Proof.
  apply (create_yaml_manifest keys_only picture_at_root).
  - vm_compute. reflexivity.
  - vm_compute. discriminate.
  - vm_compute. reflexivity.
  - vm_compute. reflexivity.
Defined.


(** ** The theorems at work on the sample trees *)

(** Hypotheses in a form that evaluates. *)
Lemma well_formed_decide (m : gmap path entry) :
  map_Forall (λ q _, q = [] ∨ m !! Path.parent q = Some Dir) m → well_formed m.
Proof.
  intros H p n [e He]. apply H in He. rewrite parent_child in He.
  destruct He as [He|He]; [|done]. by destruct p.
Qed.

Lemma split_dirs_free_decide self w :
  Forall (λ cat, Forall (λ split,
     is_file (files w) (Path.child (base_dir self) cat) = false
     ∧ is_file (files w) (Path.child (Path.child (base_dir self) cat) split)
       = false) splits) categories →
  split_dirs_free self w.
Proof.
  intros H cat split Hc Hs.
  eapply Forall_forall in H; [|exact Hc]. eapply Forall_forall in H; [|exact Hs].
  exact H.
Qed.

Lemma nothing_under_decide (m : gmap path entry) (p : path) :
  map_Forall (λ q _, ¬ Path.under p q) m → ∀ rest, m !! (p ++ rest) = None.
Proof.
  intros H rest. destruct (m !! (p ++ rest)) as [e|] eqn:He; [|done].
  apply H in He. exfalso. apply He. by apply prefix_app_r.
Qed.

Lemma split_dataset_places_file_witness :
  let b := ["data"; "ds"] in
  let dest := ["data"; "ds"; "images"; "train"; "a.jpg"] in
  ∃ w',
    split_dataset unlocked listed even_draw ds four_fifths dataset = (Return tt, w')
    ∧ files w' !! dest = Some (image 1)
    ∧ files w' !! ["data"; "ds"; "a.jpg"] = None
    ∧ (∀ cat' split', cat' ∈ categories → split' ∈ splits →
         (cat', split') ≠ ("images", "train") →
         files w' !! Path.child (Path.child (Path.child b cat') split') "a.jpg"
         = files dataset
             !! Path.child (Path.child (Path.child b cat') split') "a.jpg")
    ∧ (∀ cat' split', cat' ∈ categories → split' ∈ splits →
         files w' !! Path.child (Path.child b cat') split' = Some Dir).
Proof.
  apply (split_dataset_places_file listed even_draw ds four_fifths dataset
           "a.jpg" (Binary [1%N])).
  - intros l. reflexivity.
  - vm_compute. reflexivity.
  - apply split_dirs_free_decide. apply (bool_decide_unpack _). vm_compute. exact I.
  - vm_compute. reflexivity.
  - apply (bool_decide_unpack _). vm_compute. exact I.
  - vm_compute. discriminate.
Defined.

Lemma split_dataset_moves_directories_witness :
  let dest := ["data"; "ds"; "labels"; "train"; "clips.txt"] in
  ∃ w',
    split_dataset unlocked listed even_draw ds four_fifths dataset = (Return tt, w')
    ∧ files w' !! dest = Some Dir
    ∧ (∀ rest, files w' !! (dest ++ rest)
               = files dataset !! (["data"; "ds"; "clips.txt"] ++ rest))
    ∧ (∀ rest, files w' !! (["data"; "ds"; "clips.txt"] ++ rest) = None).
Proof.
  apply (split_dataset_moves_directories listed even_draw ds four_fifths dataset
           "clips.txt").
  - intros l. reflexivity.
  - vm_compute. reflexivity.
  - apply split_dirs_free_decide. apply (bool_decide_unpack _). vm_compute. exact I.
  - vm_compute. reflexivity.
  - apply (bool_decide_unpack _). vm_compute. exact I.
  - apply nothing_under_decide. apply (bool_decide_unpack _). vm_compute. exact I.
Defined.

Lemma remove_empty_dirs_leaves_none_empty_witness :
  ∃ w',
    remove_empty_dirs listed ds dataset = (Return tt, w')
    ∧ (∀ p, Path.below (base_dir ds) p → files w' !! p = Some Dir →
         ∃ n, is_Some (files w' !! Path.child p n))
    ∧ (∀ p, Path.below (base_dir ds) p → files w' !! p = Some Dir →
         scandir listed (files w') p ≠ [])
    ∧ (∀ q, files w' !! q = files dataset !! q
            ∨ (Path.below (base_dir ds) q ∧ files dataset !! q = Some Dir
               ∧ files w' !! q = None)).
Proof.
  apply (remove_empty_dirs_leaves_none_empty listed ds dataset).
  - intros l. reflexivity.
  - apply well_formed_decide. apply (bool_decide_unpack _). vm_compute. exact I.
Defined.

Lemma remove_unwanted_files_case_insensitive_witness :
  let b := base_dir ds in
  ∃ w',
    remove_unwanted_files unlocked listed ds dataset = (Return tt, w')
    ∧ (∀ q c, Path.below b q → files w' !! q = Some (File c) →
         Path.lower (Path.suffix (Path.name q)) ∈ [".jpg"; ".png"; ".txt"])
    ∧ (∀ q, Path.lower (Path.suffix (Path.name q)) ∈ [".jpg"; ".png"; ".txt"] →
         files w' !! q = files dataset !! q)
    ∧ (Path.lower (Path.suffix "a.JPG") ∈ [".jpg"; ".png"; ".txt"]
       ∧ Path.suffix "a.JPG" ∉ [".jpg"; ".png"; ".txt"])
    ∧ (∀ locked src dst_dir w0,
         Path.suffix (Path.name src) ≠ ".jpg" →
         _move_file_safely locked listed src dst_dir w0
         = try_except
             (shutil_move locked listed src (Path.child dst_dir (Path.name src)))
             (λ e, print (ErrorMoving src dst_dir e)) w0)
    ∧ (∀ locked random train_ratio w0 n e,
         files w0 !! b = Some Dir → split_dirs_free ds w0 →
         files w0 !! Path.child b n = Some e →
         Path.suffix n ∉ [".jpg"; ".png"; ".txt"] →
         ∃ w1, split_dataset locked listed random ds train_ratio w0 = (Return tt, w1)
           ∧ files w1 !! Path.child b n = Some e).
Proof.
  apply (remove_unwanted_files_case_insensitive listed ds dataset).
  intros l. reflexivity.
Defined.


(** A file that bears the name of the directory it lies in cannot be
    moved to the root: the error is printed, the file stays, and the
    files after it are moved all the same. *)
Example flatten_logs_and_goes_on :
  let w := tree [([], Dir); (["data"], Dir); (["data"; "ds"], Dir);
                 (["data"; "ds"; "sub"], Dir);
                 (["data"; "ds"; "sub"; "sub"], image 1);
                 (["data"; "ds"; "sub"; "b.png"], image 2)] in
  let w' := run (flatten_all_files unlocked listed ds) w in
  (flatten_all_files unlocked listed ds w).1 = Return tt
  ∧ files w' !! ["data"; "ds"; "sub"; "sub"] = Some (image 1)
  ∧ files w' !! ["data"; "ds"; "b.png"] = Some (image 2)
  ∧ ErrorMoving ["data"; "ds"; "sub"; "sub"] ["data"; "ds"] ShutilError
    ∈ stdout w'.
Proof.
  cbv zeta. split_and!; try (vm_compute; reflexivity).
  apply (bool_decide_unpack _). vm_compute. exact I.
Qed.

(** A locked file among the unwanted ones: its removal fails and is
    printed, the other unwanted file is removed. *)
Example cleaning_logs_and_goes_on :
  let locked := λ q : path, bool_decide (q = ["data"; "ds"; "notes.md"]) in
  let w := tree [([], Dir); (["data"], Dir); (["data"; "ds"], Dir);
                 (["data"; "ds"; "notes.md"], label "to do");
                 (["data"; "ds"; "thumbs.db"], image 9)] in
  let w' := run (remove_unwanted_files locked listed ds) w in
  (remove_unwanted_files locked listed ds w).1 = Return tt
  ∧ files w' !! ["data"; "ds"; "notes.md"] = Some (label "to do")
  ∧ files w' !! ["data"; "ds"; "thumbs.db"] = None
  ∧ ErrorRemoving ["data"; "ds"; "notes.md"] PermissionError ∈ stdout w'
  ∧ Removed ["data"; "ds"; "thumbs.db"] ∈ stdout w'.
Proof.
  cbv zeta. split_and!; try (vm_compute; reflexivity).
  - apply (bool_decide_unpack _). vm_compute. exact I.
  - apply (bool_decide_unpack _). vm_compute. exact I.
Qed.

(** ** The constructor *)

Lemma parent_under_self (p : path) : Path.under (Path.parent p) p.
Proof.
  unfold Path.under, Path.parent. destruct p as [|x p] using rev_ind; [done|].
  rewrite removelast_last. by apply prefix_app_r.
Qed.

Lemma parent_fixed (p : path) : Path.parent p = p → p = [].
Proof.
  destruct p as [|x p _] using rev_ind; [done|].
  unfold Path.parent. rewrite removelast_last. intros H.
  apply (f_equal length) in H. rewrite length_app in H. simpl in H. lia.
Qed.

Lemma parent_length (p : path) : length (Path.parent p) = pred (length p).
Proof.
  destruct p as [|x p _] using rev_ind; [done|].
  unfold Path.parent. rewrite removelast_last, length_app. simpl. lia.
Qed.

(** With the root of the file system in place and no regular file on the
    way, [mkdir(parents=True, exist_ok=True)] succeeds once the fuel
    covers the length of the path. *)
Lemma path_mkdir_returns (k : nat) (p : path) (exist_ok : bool) w :
  (length p ≤ k)%nat →
  files w !! [] = Some Dir →
  (∀ q, Path.under q p → is_file (files w) q = false) →
  (exist_ok = true ∨ files w !! p = None) →
  (path_mkdir k p true exist_ok w).1 = Return tt.
Proof.
  revert p exist_ok w. induction k as [|k IH]; intros p exist_ok w Hlen Hroot Hfree Hok.
  - assert (p = []) as -> by (destruct p; [done|simpl in Hlen; lia]).
    simpl. unfold os_mkdir. rewrite Hroot. simpl.
    destruct Hok as [->|Hok]; [|by rewrite Hroot in Hok].
    unfold is_dir. by rewrite Hroot, bool_decide_eq_true_2.
  - simpl. unfold os_mkdir.
    pose proof (Hfree p (reflexivity _)) as Hp. unfold is_file in Hp.
    destruct (files w !! p) as [[c|]|] eqn:Ep; try done; simpl.
    + destruct Hok as [->|Hok]; [|done].
      unfold is_dir. by rewrite Ep, bool_decide_eq_true_2.
    + pose proof (Hfree _ (parent_under_self p)) as Hpar. unfold is_file in Hpar.
      destruct (files w !! Path.parent p) as [[c|]|] eqn:Epar; try done; simpl.
      assert (Hne : Path.parent p ≠ p).
      { intros H. apply parent_fixed in H. subst p. by rewrite Hroot in Ep. }
      rewrite bool_decide_eq_false_2 by done. unfold bind.
      pose proof (IH (Path.parent p) true w) as H1.
      pose proof (path_mkdir_grown k (Path.parent p) true true w) as Hg.
      destruct (path_mkdir k (Path.parent p) true true w) as [r w1] eqn:Hrun.
      simpl in H1, Hg. rewrite H1; cycle 1.
      { rewrite parent_length. lia. }
      { done. }
      { intros q Hq. apply Hfree. etrans; [done|]. apply parent_under_self. }
      { by left. }
      assert (Hd : files w1 !! Path.parent p = Some Dir)
        by (eapply path_mkdir_is_dir; rewrite Hrun, H1; [done|..];
            [rewrite parent_length; lia|done| |by left];
            intros q Hq; apply Hfree; etrans; [done|]; apply parent_under_self).
      assert (Hp1 : files w1 !! p = None).
      { rewrite (grown_apart _ _ _ _ Hg); [done|].
        intros H%prefix_length. rewrite parent_length in H.
        destruct p; [by rewrite Hroot in Ep|simpl in H; lia]. }
      destruct k; simpl; unfold os_mkdir; rewrite Hp1, Hd; done.
Qed.

(** X1.  [__init__] creates [base_dir] with the ancestors it lacks and
    touches nothing else. *)
Theorem init_creates_base_dir (base_dir0 : path) w :
  files w !! [] = Some Dir →
  (∀ q, Path.under q base_dir0 → is_file (files w) q = false) →
  ∃ w',
    __init__ base_dir0 w = (Return {| base_dir := base_dir0 |}, w')
    ∧ files w' !! base_dir0 = Some Dir
    ∧ stdout w' = stdout w
    ∧ ∀ q, files w' !! q = files w !! q
           ∨ (Path.under q base_dir0 ∧ files w !! q = None
              ∧ files w' !! q = Some Dir).
Proof.
  intros Hroot Hfree. unfold __init__, bind.
  pose proof (path_mkdir_returns (length base_dir0) base_dir0 true w
                (le_n _) Hroot Hfree (or_introl eq_refl)) as Hr.
  pose proof (path_mkdir_grown (length base_dir0) base_dir0 true true w) as [Hout Hg].
  destruct (path_mkdir (length base_dir0) base_dir0 true true w) as [r w1] eqn:Hrun.
  simpl in *. subst r. exists w1. split_and!; [done| |done|done].
  by eapply path_mkdir_is_dir.
Qed.

(** Below a regular file nothing can be created: whatever the fuel,
    [mkdir(parents=True)] raises [NotADirectoryError] and leaves the
    world as it was. *)
Lemma path_mkdir_below_file (k : nat) (q r : path) (exist_ok : bool) c w :
  well_formed (files w) →
  files w !! q = Some (File c) →
  r ≠ [] → (length r ≤ S k)%nat →
  path_mkdir k (q ++ r) true exist_ok w = (Raise NotADirectoryError, w).
Proof.
  intros Hwf Hq. revert r exist_ok.
  induction k as [|k IH]; intros r exist_ok Hr Hlen.
  - destruct r as [|n [|n' r]]; [done| |simpl in Hlen; lia].
    simpl. unfold os_mkdir.
    destruct (files w !! (q ++ [n])) as [e|] eqn:Ep.
    { pose proof (well_formed_prefix _ q [n] Hwf (mk_is_Some _ _ Ep)) as H.
      rewrite Hq in H. by specialize (H ltac:(done)). }
    change (q ++ [n]) with (Path.child q n). rewrite parent_child, Hq. simpl.
    unfold is_dir. change (Path.child q n) with (q ++ [n]). rewrite Ep.
    rewrite bool_decide_eq_false_2 by done. by rewrite orb_true_r.
  - destruct r as [|n r _] using rev_ind; [done|].
    simpl. unfold os_mkdir. rewrite app_assoc.
    destruct (files w !! ((q ++ r) ++ [n])) as [e|] eqn:Ep.
    { rewrite <- app_assoc in Ep.
      pose proof (well_formed_prefix _ q (r ++ [n]) Hwf (mk_is_Some _ _ Ep)) as H.
      rewrite Hq in H. by specialize (H ltac:(by destruct r)). }
    change ((q ++ r) ++ [n]) with (Path.child (q ++ r) n) in *.
    rewrite parent_child.
    destruct r as [|n' r'] eqn:Er.
    + rewrite app_nil_r, Hq. simpl. unfold is_dir. rewrite app_nil_r in Ep.
      rewrite Ep. rewrite bool_decide_eq_false_2 by done. by rewrite orb_true_r.
    + rewrite <- Er in *.
      destruct (files w !! (q ++ r)) as [e|] eqn:Epar.
      { pose proof (well_formed_prefix _ q r Hwf (mk_is_Some _ _ Epar)) as H.
        rewrite Hq in H. by specialize (H ltac:(by subst r)). }
      simpl. rewrite bool_decide_eq_false_2; cycle 1.
      { intros H. apply (f_equal length) in H. unfold Path.child in H.
        rewrite !length_app in H. simpl in H. lia. }
      unfold bind. rewrite IH; [done|by subst r|].
      rewrite length_app in Hlen. simpl in Hlen. lia.
Qed.

(** X2.  [__init__] on a path that is, or runs through, a regular file raises
    and changes nothing: [FileExistsError] when [base_dir] itself is the
    file, [NotADirectoryError] when an ancestor is. *)
Theorem init_refuses_regular_file (base_dir0 q : path) c w :
  well_formed (files w) →
  Path.under q base_dir0 →
  files w !! q = Some (File c) →
  __init__ base_dir0 w
  = (Raise (if decide (q = base_dir0) then FileExistsError
            else NotADirectoryError), w).
Proof.
  intros Hwf [r ->] Hq. unfold __init__, bind.
  destruct r as [|n r].
  - rewrite app_nil_r, decide_True by done.
    destruct (length q); simpl; unfold os_mkdir; rewrite Hq; simpl;
      unfold is_dir; rewrite Hq, bool_decide_eq_false_2 by done; done.
  - rewrite decide_False; cycle 1.
    { intros H. apply (f_equal length) in H. rewrite length_app in H.
      simpl in H. lia. }
    rewrite (path_mkdir_below_file _ q (n :: r) true c w); try done.
    rewrite length_app. simpl. lia.
Qed.

(** The prefixes of a path, to check a hypothesis on each of them. *)
Lemma under_take (q p : path) : Path.under q p → q = take (length q) p.
Proof. intros [r ->]. by rewrite take_app_length. Qed.

Lemma on_the_way_decide (P : path → Prop) (p : path) :
  Forall (λ k, P (take k p)) (seq 0 (S (length p))) →
  ∀ q, Path.under q p → P q.
Proof.
  intros H q Hq. rewrite (under_take q p Hq).
  eapply Forall_forall in H; [exact H|].
  apply elem_of_seq. apply prefix_length in Hq. lia.
Qed.

Lemma init_creates_base_dir_witness :
  ∃ w',
    __init__ ["data"; "ds"] (tree [([], Dir)])
    = (Return {| base_dir := ["data"; "ds"] |}, w')
    ∧ files w' !! ["data"; "ds"] = Some Dir
    ∧ stdout w' = stdout (tree [([], Dir)])
    ∧ ∀ q, files w' !! q = files (tree [([], Dir)]) !! q
           ∨ (Path.under q ["data"; "ds"]
              ∧ files (tree [([], Dir)]) !! q = None
              ∧ files w' !! q = Some Dir).
Proof.
  apply (init_creates_base_dir ["data"; "ds"] (tree [([], Dir)])).
  - vm_compute. reflexivity.
  - apply (on_the_way_decide (λ q, is_file _ q = false)).
    repeat constructor.
Defined.

Lemma init_refuses_regular_file_witness :
  __init__ ["data"; "ds"; "x.txt"; "sub"] two_labels
  = (Raise NotADirectoryError, two_labels).
Proof.
  apply (init_refuses_regular_file ["data"; "ds"; "x.txt"; "sub"]
           ["data"; "ds"; "x.txt"] (Utf8 (Text.of_string "0 1 2")) two_labels).
  - apply well_formed_decide. apply (bool_decide_unpack _). vm_compute. exact I.
  - apply (bool_decide_unpack _). vm_compute. exact I.
  - vm_compute. reflexivity.
Defined.

(** ** The split directories, once more *)

(** [mkdir(exist_ok=True)] on a directory that exists does nothing. *)
Lemma path_mkdir_existing (k : nat) (p : path) (parents : bool) w :
  files w !! p = Some Dir →
  path_mkdir k p parents true w = (Return tt, w).
Proof.
  intros Hp.
  destruct k; simpl; unfold os_mkdir; rewrite Hp; simpl;
    unfold is_dir; by rewrite Hp, bool_decide_eq_true_2.
Qed.

Lemma for_each_mkdir_existing (ps : list path) w :
  (∀ p, p ∈ ps → files w !! p = Some Dir) →
  for_each ps (λ p, path_mkdir (length p) p true true) w = (Return tt, w).
Proof.
  induction ps as [|p ps IH]; intros H; [done|].
  simpl. unfold bind. rewrite path_mkdir_existing by (apply H; by left).
  apply IH. intros q Hq. apply H. by right.
Qed.

Lemma for_each_mkdir_made (ps : list path) w w1 :
  for_each ps (λ p, path_mkdir (length p) p true true) w = (Return tt, w1) →
  grown (λ _, True) w w1 ∧ ∀ p, p ∈ ps → files w1 !! p = Some Dir.
Proof.
  revert w. induction ps as [|p ps IH]; intros w Hrun; simpl in Hrun.
  - injection Hrun as <-. split; [apply grown_refl|].
    intros p H. by apply elem_of_nil in H.
  - unfold bind in Hrun.
    pose proof (path_mkdir_grown (length p) p true true w) as Hg.
    destruct (path_mkdir (length p) p true true w) as [[[]|e] w0] eqn:Hp;
      [|done].
    simpl in Hg. destruct (IH _ Hrun) as [Hg' Hall].
    assert (Hg0 : grown (λ _, True) w w0) by (by eapply grown_weaken).
    split; [by eapply grown_trans|].
    intros q [->|Hq]%elem_of_cons; [|by apply Hall].
    eapply grown_keeps; [done|]. by eapply path_mkdir_is_dir.
Qed.

Lemma create_split_dirs_for_each self :
  _create_split_dirs self
  = for_each
      ((λ '(category, split),
          Path.child (Path.child (base_dir self) category) split)
         <$> list_prod ["images"; "labels"] ["train"; "val"])
      (λ p, path_mkdir (length p) p true true).
Proof. done. Qed.

(** X4.  A call of [_create_split_dirs] that has succeeded can be repeated:
    the second call finds the four directories and changes nothing. *)
Theorem create_split_dirs_idempotent self w w1 :
  _create_split_dirs self w = (Return tt, w1) →
  _create_split_dirs self w1 = (Return tt, w1).
Proof.
  rewrite create_split_dirs_for_each. intros [_ H]%for_each_mkdir_made.
  by apply for_each_mkdir_existing.
Qed.

Lemma create_split_dirs_idempotent_witness :
  _create_split_dirs ds (run (_create_split_dirs ds) dataset)
  = (Return tt, run (_create_split_dirs ds) dataset).
Proof.
  apply (create_split_dirs_idempotent ds dataset). vm_compute. reflexivity.
Defined.

(** ** What the splitter leaves alone *)

(** In a tree every prefix of an existing path exists. *)
Lemma well_formed_under (m : gmap path entry) (q p : path) :
  well_formed m → is_Some (m !! p) → Path.under q p → is_Some (m !! q).
Proof.
  intros Hwf Hp [r ->]. destruct r as [|n r].
  - by rewrite app_nil_r in Hp.
  - rewrite (well_formed_prefix m q (n :: r)); done.
Qed.

(** A path that is a prefix of [b ++ l] is a prefix of [b] or lies under
    an entry of [b]. *)
Lemma under_app_cases (q b : path) n (l : list string) :
  Path.under q (b ++ n :: l) →
  Path.under q b ∨ Path.under (Path.child b n) q.
Proof.
  intros Hq. destruct (prefix_weak_total q b (b ++ n :: l)) as [H|H];
    [done|by apply prefix_app_r|by left|].
  destruct H as [[|x r] ->].
  - left. by rewrite app_nil_r.
  - right. apply prefix_app_inv in Hq.
    apply prefix_cons_inv_1 in Hq as ->.
    unfold Path.under, Path.child. exists r. by rewrite <- app_assoc.
Qed.

(** X5.  [split_dataset] changes nothing outside the recognized entries of
    the root and the two category directories: the rest of the root,
    whatever lies in its other subdirectories, and everything outside
    the root are as before. *)
Theorem split_dataset_leaves_the_rest locked order random self train_ratio w :
  (∀ l, order l ≡ₚ l) →
  let b := base_dir self in
  files w !! b = Some Dir →
  split_dirs_free self w →
  well_formed (files w) →
  ∃ w',
    split_dataset locked order random self train_ratio w = (Return tt, w')
    ∧ ∀ q, (∀ n, Path.under (Path.child b n) q → ¬ recognized n ∧ n ∉ categories) →
           files w' !! q = files w !! q.
Proof.
  intros Hperm b Hb Hfree Hwf.
  destruct (split_dataset_runs locked order random self train_ratio w Hperm Hb Hfree)
    as (w1 & ts & Hrun & Hw1 & _ & _ & Hts).
  eexists. split; [exact Hrun|]. intros q Hq.
  assert (Hcat : ∀ c l, c ∈ categories → ¬ Path.under q (b ++ c :: l) ∨ Path.under q b).
  { intros c l Hc. destruct (decide (Path.under q b)) as [|Hn]; [by right|left].
    intros [H|H]%under_app_cases; [done|]. by apply Hq in H as [_ H]. }
  assert (Hq1 : files w1 !! q = files w !! q).
  { destruct (Hw1 q) as [->|((c & s & Hc & Hs & Hu) & Hnone & _)]; [done|].
    unfold Path.child in Hu. rewrite <- app_assoc in Hu. simpl in Hu.
    destruct (Hcat c [s] Hc) as [H|H]; [done|].
    destruct (well_formed_under (files w) q b Hwf) as [e He]; [by rewrite Hb|done|].
    fold b in Hnone. congruence. }
  rewrite tasks_frame; [done|..].
  - intros f (n & -> & Hn & _)%Hts. split.
    + intros H. by apply Hq in H as [H _].
    + fold b. rewrite dest_child. intros H.
      assert (Path.under (Path.child b (split_category n)) q) as [_ H']%Hq.
      { etrans; [|exact H]. unfold Path.under, Path.child.
        rewrite <- !app_assoc. by apply prefix_app, prefix_cons, prefix_nil. }
      apply H', split_category_in.
  - destruct (decide (Path.under q b)) as [Hu|Hn].
    + left. rewrite Hq1. eapply well_formed_under; [done| |done]. by rewrite Hb.
    + right. intros f (n & -> & Hn' & _)%Hts. fold b. rewrite dest_child.
      unfold Path.child. rewrite <- !app_assoc. simpl.
      destruct (Hcat (split_category n)
                  [split_name random (b ++ [n]) train_ratio; n]) as [H|H];
        [apply split_category_in|done|done].
Qed.

Lemma split_dataset_leaves_the_rest_witness :
  ∃ w',
    split_dataset unlocked listed even_draw ds four_fifths dataset = (Return tt, w')
    ∧ ∀ q, (∀ n, Path.under (Path.child (base_dir ds) n) q
                 → ¬ recognized n ∧ n ∉ categories) →
           files w' !! q = files dataset !! q.
Proof.
  apply (split_dataset_leaves_the_rest unlocked listed even_draw ds four_fifths
           dataset).
  - intros l. reflexivity.
  - vm_compute. reflexivity.
  - apply split_dirs_free_decide. apply (bool_decide_unpack _). vm_compute. exact I.
  - apply well_formed_decide. apply (bool_decide_unpack _). vm_compute. exact I.
Defined.

(** ** Flattening without collisions *)

Section Flatten.
Context (order : list path → list path).
Context (b : path).

Let step (w : world) (f : path) : world :=
  run (_move_file_safely unlocked order f b) w.

(** One move whose destination is free, or is the file itself. *)
Lemma move_step f c w :
  files w !! f = Some (File c) →
  files w !! b = Some Dir →
  files w !! Path.child b (Path.name f) = None
  ∨ (Path.child b (Path.name f) = f ∧ Path.suffix (Path.name f) ≠ ".jpg") →
  step w f
  = set_files (<[Path.child b (Path.name f) := File c]> (delete f (files w))) w.
Proof.
  intros Hf Hb Hdst. unfold step, run.
  assert (Hmove : shutil_move unlocked order f (Path.child b (Path.name f)) w
            = (Return tt,
               set_files (<[Path.child b (Path.name f) := File c]>
                            (delete f (files w))) w)).
  { apply shutil_move_file; try done.
    - destruct Hdst as [->|[-> _]]; [done|by rewrite Hf].
    - by rewrite parent_child. }
  destruct Hdst as [Hnone|[Heq Hsuf]].
  - unfold _move_file_safely, try_except, bind, get_files. cbn [fst snd].
    unfold exists_. rewrite Hnone.
    rewrite bool_decide_eq_false_2 by (by intros [? ?]).
    cbn [andb ret]. by rewrite Hmove.
  - rewrite move_file_safely_no_unlink by done.
    unfold try_except. by rewrite Hmove.
Qed.

Lemma flatten_fold l w :
  NoDup l →
  files w !! b = Some Dir →
  (∀ f, f ∈ l → Path.below b f ∧ is_file (files w) f = true
      ∧ (files w !! Path.child b (Path.name f) = None
         ∨ (Path.child b (Path.name f) = f
            ∧ Path.suffix (Path.name f) ≠ ".jpg"))) →
  (∀ f f', f ∈ l → f' ∈ l → Path.name f = Path.name f' → f = f') →
  stdout (foldl step w l) = stdout w
  ∧ (∀ f, f ∈ l →
       files (foldl step w l) !! Path.child b (Path.name f) = files w !! f)
  ∧ (∀ q, q ∈ l → q ≠ Path.child b (Path.name q) →
       files (foldl step w l) !! q = None)
  ∧ (∀ q, q ∉ l → (∀ f, f ∈ l → q ≠ Path.child b (Path.name f)) →
       files (foldl step w l) !! q = files w !! q).
Proof.
  revert w. induction l as [|f l IH]; intros w Hnd Hb Hl Huniq.
  { simpl. split_and!; [done|..]; try (intros q Hq; by apply elem_of_nil in Hq).
    done. }
  apply NoDup_cons in Hnd as [Hf Hnd].
  destruct (Hl f) as (Hbelow & Hfile & Hdst); [by left|].
  unfold is_file in Hfile.
  destruct (files w !! f) as [[c|]|] eqn:Ef; try done. clear Hfile.
  pose proof (move_step f c w Ef Hb Hdst) as Hstep.
  set (dst := Path.child b (Path.name f)) in *.
  assert (Hname : ∀ g, g ∈ l → Path.name g ≠ Path.name f).
  { intros g Hg Hn. assert (g = f) as -> by (apply Huniq; [by right|by left|done]).
    done. }
  assert (Hdstg : ∀ g, g ∈ l → Path.child b (Path.name g) ≠ dst).
  { intros g Hg H. apply child_inj in H. by apply (Hname g). }
  assert (Hgf : ∀ g, g ∈ l → Path.child b (Path.name g) ≠ f).
  { intros g Hg H. apply (Hname g Hg). by rewrite <- H, name_child. }
  assert (Hgd : ∀ g, g ∈ l → g ≠ dst).
  { intros g Hg ->. apply (Hname _ Hg). unfold dst. by rewrite name_child. }
  assert (Hlook : ∀ q, q ≠ dst → q ≠ f → files (step w f) !! q = files w !! q).
  { intros q H1 H2. rewrite Hstep. cbn [files set_files].
    by rewrite lookup_insert_ne, lookup_delete_ne. }
  destruct (IH (step w f)) as (Hout & Hi & Hii & Hiii); [done|..].
  { rewrite Hlook; [done|..].
    - intros H. apply (f_equal length) in H. unfold dst, Path.child in H.
      rewrite length_app in H. simpl in H. lia.
    - intros ->. by destruct Hbelow. }
  { intros g Hg. destruct (Hl g) as (Hbg & Hfg & Hdg); [by right|].
    assert (g ≠ f) by (by intros ->).
    split_and!; [done| |].
    - unfold is_file. rewrite Hlook; [done|by apply Hgd|done].
    - rewrite Hlook; [done|by apply Hdstg|by apply Hgf]. }
  { intros g g' Hg Hg'. apply Huniq; by right. }
  cbn [foldl]. split_and!.
  - rewrite Hout, Hstep. done.
  - intros g [->|Hg]%elem_of_cons.
    + fold dst. rewrite Hiii.
      * rewrite Hstep. cbn [files set_files]. by rewrite lookup_insert_eq.
      * intros H. by apply (Hgd _ H).
      * intros g Hg H. by apply (Hdstg g).
    + rewrite Hi by done. apply Hlook; [by apply Hgd|by intros ->].
  - intros q [->|Hq]%elem_of_cons Hne; [|by apply Hii].
    rewrite Hiii; [|done|].
    + rewrite Hstep. cbn [files set_files].
      by rewrite lookup_insert_ne, lookup_delete_eq.
    + intros g Hg H. by apply (Hgf g).
  - intros q Hq Hall. apply not_elem_of_cons in Hq as [Hqf Hq].
    rewrite Hiii; [|done|].
    + apply Hlook; [|done]. apply Hall. by left.
    + intros g Hg. apply Hall. by right.
Qed.

End Flatten.

(** The whole run, move after move. *)
Lemma flatten_all_files_spec order self w :
  (∀ l, order l ≡ₚ l) →
  let b := base_dir self in
  files w !! b = Some Dir →
  distinct_names b (files w) →
  (∀ f, Path.child_of b f → is_file (files w) f = true →
        Path.suffix (Path.name f) ≠ ".jpg") →
  ∃ w',
    flatten_all_files unlocked order self w = (Return tt, w')
    ∧ stdout w' = stdout w ++ [Flattening]
    ∧ (∀ f c, Path.below b f → files w !! f = Some (File c) →
         files w' !! Path.child b (Path.name f) = Some (File c))
    ∧ (∀ q c, Path.below b q → files w' !! q = Some (File c) →
         Path.child_of b q)
    ∧ (∀ q, files w' !! q = Some Dir ↔ files w !! q = Some Dir)
    ∧ (∀ q, ¬ Path.below b q → files w' !! q = files w !! q).
Proof.
  intros Hperm b Hb Huniq Hroot.
  unfold flatten_all_files, bind, print, get_files. cbn [fst snd files].
  rewrite pool_map_fmap.
  rewrite pool_map_all by (intros; apply move_file_safely_returns).
  fold b.
  set (l := filter (λ f, is_file (files w) f) (rglob order b "" (files w))).
  set (w0 := World (files w) (stdout w ++ [Flattening])).
  assert (Hl : ∀ f, f ∈ l ↔ Path.below b f ∧ is_file (files w) f = true).
  { intros f. unfold l. rewrite list_elem_of_filter, (elem_of_rglob order Hperm).
    split.
    - intros (Hf & Hbelow & _ & _). split; [done|]. by destruct (is_file _ f).
    - intros (Hbelow & Hf). split_and!; [by rewrite Hf|done|apply ends_with_empty|].
      unfold is_file in Hf. by destruct (files w !! f). }
  assert (Hchild : ∀ q, Path.child_of b q → q = Path.child b (Path.name q)).
  { intros q [n ->]%child_of_inv. by rewrite name_child. }
  destruct (flatten_fold order b l w0) as (Hout & Hi & Hii & Hiii).
  { apply NoDup_filter, NoDup_rglob, Hperm. }
  { done. }
  { intros f Hf. destruct (proj1 (Hl f) Hf) as [Hbelow Hfile].
    split_and!; [done|done|]. cbn [files w0].
    destruct (files w !! Path.child b (Path.name f)) as [e|] eqn:Ed; [|by left].
    right.
    assert (Path.child b (Path.name f) = f) as Heq.
    { apply (Huniq f); [done|done| |apply name_child].
      right. split; [apply child_of_child|by rewrite Ed]. }
    split; [done|]. apply Hroot; [|done]. rewrite <- Heq. apply child_of_child. }
  { intros f f' [Hf1 Hf2]%Hl [Hf1' Hf2']%Hl Hn.
    apply (Huniq f' f); [done|done|by left|done]. }
  eexists. split; [reflexivity|]. cbn [files w0] in *.
  assert (Hfar : ∀ q, q ∉ l → (∀ f, f ∈ l → q ≠ Path.child b (Path.name f)) →
                   files (foldl (λ w a, run (_move_file_safely unlocked order a b) w)
                            w0 l) !! q = files w !! q) by exact Hiii.
  split_and!.
  - exact Hout.
  - intros f c Hbelow Hf. rewrite Hi; [done|]. apply Hl. split; [done|].
    unfold is_file. by rewrite Hf.
  - intros q c Hbelow Hq.
    destruct (decide (q = Path.child b (Path.name q))) as [->|Hne];
      [apply child_of_child|].
    destruct (decide (q ∈ l)) as [Hin|Hout'].
    { rewrite Hii in Hq; done. }
    destruct (decide (Exists (λ f, q = Path.child b (Path.name f)) l))
      as [(f & _ & ->)%Exists_exists|Hno]; [apply child_of_child|].
    rewrite Hfar in Hq; [|done|].
    + exfalso. apply Hout', Hl. split; [done|]. unfold is_file. by rewrite Hq.
    + intros f Hf ->. apply Hno, Exists_exists. by exists f.
  - intros q.
    destruct (decide (Exists (λ f, q = Path.child b (Path.name f)) l))
      as [(f & Hf & ->)%Exists_exists|Hno].
    { rewrite Hi by done. apply Hl in Hf as [Hbelow Hfile]. unfold is_file in Hfile.
      destruct (files w !! f) as [[c|]|] eqn:Ef; try done.
      split; [done|]. intros Hd. exfalso.
      assert (Path.child b (Path.name f) = f) as Heq.
      { apply (Huniq f); [done|by unfold is_file; rewrite Ef| |apply name_child].
        right. split; [apply child_of_child|by rewrite Hd]. }
      rewrite Heq in Hd. congruence. }
    destruct (decide (q ∈ l)) as [Hin|Hout'].
    { apply Hl in Hin as Hq. destruct Hq as [Hbelow Hfile]. unfold is_file in Hfile.
      destruct (files w !! q) as [[c|]|] eqn:Eq; try done.
      rewrite Hii; [done|done|]. intros Heq. apply Hno, Exists_exists.
      by exists q. }
    rewrite Hfar; [done|done|].
    intros f Hf ->. apply Hno, Exists_exists. by exists f.
  - intros q Hq. apply Hfar.
    + intros [H _]%Hl. done.
    + intros f Hf ->. apply Hq, child_below.
Qed.

(** X6.  When no two names collide, [flatten_all_files] moves every regular
    file below the root to the root under its own name and with its
    content, leaves no regular file in a subdirectory, and changes
    neither a directory nor anything outside the root.  Regular files
    already at the root stay where they are, as long as none of them has
    the suffix [.jpg]. *)
Theorem flatten_moves_every_file order self w :
  (∀ l, order l ≡ₚ l) →
  let b := base_dir self in
  files w !! b = Some Dir →
  distinct_names b (files w) →
  (∀ f, Path.child_of b f → is_file (files w) f = true →
        Path.suffix (Path.name f) ≠ ".jpg") →
  ∃ w',
    flatten_all_files unlocked order self w = (Return tt, w')
    ∧ stdout w' = stdout w ++ [Flattening]
    ∧ (∀ f c, Path.below b f → files w !! f = Some (File c) →
         files w' !! Path.child b (Path.name f) = Some (File c))
    ∧ (∀ q c, Path.below b q → files w' !! q = Some (File c) →
         Path.child_of b q)
    ∧ (∀ q, files w' !! q = Some Dir ↔ files w !! q = Some Dir)
    ∧ (∀ q, ¬ Path.below b q → files w' !! q = files w !! q).
Proof. apply flatten_all_files_spec. Qed.

(** Hypotheses on the regular files of a tree, in a form that
    evaluates. *)
Lemma on_files_decide (P : path → Prop) (m : gmap path entry) :
  map_Forall (λ f _, P f) m → ∀ f, is_file m f = true → P f.
Proof.
  intros H f Hf. unfold is_file in Hf.
  destruct (m !! f) as [e|] eqn:Ef; [|done]. by eapply H.
Qed.

Lemma distinct_names_decide (b : path) (m : gmap path entry) :
  map_Forall (λ f _, map_Forall (λ q _,
     Path.below b f → is_file m f = true →
     (Path.below b q ∧ is_file m q = true) ∨ Path.child_of b q →
     Path.name q = Path.name f → q = f) m) m →
  distinct_names b m.
Proof.
  intros H f q Hbf Hff Hq Hn.
  assert (is_Some (m !! f)) as [e He].
  { unfold is_file in Hff. by destruct (m !! f). }
  assert (is_Some (m !! q)) as [e' He'].
  { destruct Hq as [[_ Hq]|[_ Hq]]; [|done]. unfold is_file in Hq.
    by destruct (m !! q). }
  eapply H; try done. destruct Hq as [?|[? _]]; [by left|by right].
Qed.

Lemma flatten_moves_every_file_witness :
  let b := base_dir ds in
  ∃ w',
    flatten_all_files unlocked listed ds nested = (Return tt, w')
    ∧ stdout w' = stdout nested ++ [Flattening]
    ∧ (∀ f c, Path.below b f → files nested !! f = Some (File c) →
         files w' !! Path.child b (Path.name f) = Some (File c))
    ∧ (∀ q c, Path.below b q → files w' !! q = Some (File c) →
         Path.child_of b q)
    ∧ (∀ q, files w' !! q = Some Dir ↔ files nested !! q = Some Dir)
    ∧ (∀ q, ¬ Path.below b q → files w' !! q = files nested !! q).
Proof.
  apply (flatten_moves_every_file listed ds nested).
  - intros l. reflexivity.
  - vm_compute. reflexivity.
  - apply distinct_names_decide. apply (bool_decide_unpack _). vm_compute. exact I.
  - intros f Hc Hf. revert Hc. revert f Hf.
    apply (on_files_decide
             (λ f, Path.child_of (base_dir ds) f
                   → Path.suffix (Path.name f) ≠ ".jpg")).
    apply (bool_decide_unpack _). vm_compute. exact I.
Defined.

(** ** What the label update prints *)

Section LabelLog.
Context (locked : path → bool).



Lemma reset_label_classes_failed p w :
  label_failure locked p (files w !! p) ≠ None →
  files (run (_reset_label_classes locked p) w) = files w.
Proof.
  unfold label_failure, run, _reset_label_classes, try_except, bind,
    open_rw, read_text, write_text, print.
  destruct (files w !! p) as [[[t|bs]|]|] eqn:Ep; simpl;
    try destruct (locked p); simpl; rewrite ?Ep; simpl; done.
Qed.


End LabelLog.



(** ** What the cleaner prints *)

Section SweepLog.
Context (locked : path → bool).

Lemma sweep_stdout f w :
  stdout (run (sweep locked f) w)
  = stdout w ++ option_list (sweep_report locked (files w) f).
Proof.
  unfold sweep_report, run, sweep, bind, get_files, try_except, os_unlink, print.
  cbn [fst snd]. unfold is_file.
  destruct (files w !! f) as [[c|]|] eqn:Ef; cbn [andb];
    try (symmetry; apply app_nil_r).
  destruct (negb _); cbn [andb]; [|symmetry; apply app_nil_r].
  rewrite Ef. by destruct (locked f).
Qed.

Lemma sweep_elsewhere f w q :
  q ≠ f → files (run (sweep locked f) w) !! q = files w !! q.
Proof.
  intros Hq. rewrite sweep_files. case_decide; [|done].
  by rewrite lookup_delete_ne.
Qed.

Lemma sweep_all_stdout l w m :
  NoDup l →
  (∀ q, q ∈ l → files w !! q = m !! q) →
  stdout (foldl (λ w f, run (sweep locked f) w) w l)
  = stdout w ++ omap (sweep_report locked m) l.
Proof.
  revert w. induction l as [|p l IH]; intros w Hnd Hm; simpl.
  { by rewrite app_nil_r. }
  apply NoDup_cons in Hnd as [Hp Hnd].
  rewrite IH; [|done|].
  - rewrite sweep_stdout, <- app_assoc. f_equal.
    assert (sweep_report locked (files w) p = sweep_report locked m p) as ->.
    { unfold sweep_report, is_file. by rewrite Hm by (by left). }
    by destruct (sweep_report locked m p).
  - intros q Hq. rewrite sweep_elsewhere by (by intros ->). apply Hm. by right.
Qed.

End SweepLog.

(** X11.  Under any locks, [remove_unwanted_files] removes exactly the regular
    files below the root whose lower-cased suffix is not allowed and
    that are not locked: no directory, no locked file and nothing
    outside the root goes.  After its headline it prints, in the order
    of the listing, [Removed] for each file it deleted and
    [Error removing] for each it could not. *)
Theorem remove_unwanted_files_reports locked order self w :
  (∀ l, order l ≡ₚ l) →
  let b := base_dir self in
  let w' := run (remove_unwanted_files locked order self) w in
  (∀ q, files w' !! q
        = if decide (Path.below b q ∧ unwanted locked (files w) q)
          then None else files w !! q)
  ∧ stdout w'
    = stdout w ++ RemovingUnwanted
        :: omap (sweep_report locked (files w)) (rglob order b "" (files w)).
Proof.
  intros Hperm b w'. split.
  - subst w'.
    destruct (remove_unwanted_files_spec locked order Hperm self w)
      as (w1 & Hrun & Hw1).
    unfold run. rewrite Hrun. exact Hw1.
  - subst w'. unfold run, remove_unwanted_files, bind, print, get_files.
    cbn [fst snd files]. fold (sweep locked).
    rewrite for_each_all by (intros; apply sweep_returns). cbn [snd].
    rewrite (sweep_all_stdout locked _ _ (files w)); cbn [files stdout].
    + by rewrite <- app_assoc.
    + apply NoDup_rglob, Hperm.
    + done.
Qed.

Lemma remove_unwanted_files_reports_witness :
  let locked := λ q : path, bool_decide (q = ["data"; "ds"; "notes.md"]) in
  let b := base_dir ds in
  let w' := run (remove_unwanted_files locked listed ds) dataset in
  (∀ q, files w' !! q
        = if decide (Path.below b q ∧ unwanted locked (files dataset) q)
          then None else files dataset !! q)
  ∧ stdout w'
    = stdout dataset ++ RemovingUnwanted
        :: omap (sweep_report locked (files dataset))
             (rglob listed b "" (files dataset)).
Proof.
  apply (remove_unwanted_files_reports
           (λ q : path, bool_decide (q = ["data"; "ds"; "notes.md"]))
           listed ds dataset).
  intros l. reflexivity.
Defined.

(** ** Which directories go *)

(** In a tree, a directory that is gone has no file below it. *)
Lemma gone_has_no_file (m : gmap path entry) (q : path) :
  well_formed m → m !! q = None → ¬ has_file_below m q.
Proof.
  intros Hwf Hq (q' & c & [r ->] & Hf). destruct r as [|n r].
  - rewrite app_nil_r in Hf. congruence.
  - rewrite (well_formed_prefix m q (n :: r)) in Hq; [done|done| |done].
    by rewrite Hf.
Qed.

Lemma shrunk_has_file_back (top : path) (m m' : gmap path entry) p :
  shrunk top m m' → has_file_below m' p → has_file_below m p.
Proof.
  intros Hs (q & c & Hu & Hq). exists q, c. split; [done|].
  destruct (Hs q) as [<-|(_ & _ & H)]; [done|congruence].
Qed.

(** X12.  [remove_empty_dirs] removes exactly the directories strictly below
    the root whose subtree holds no regular file, however deep their
    nest of empty directories; everything else, the root included, is
    as before. *)
Theorem remove_empty_dirs_exact order self w :
  (∀ l, order l ≡ₚ l) →
  well_formed (files w) →
  let b := base_dir self in
  let barren q :=
    Path.below b q ∧ files w !! q = Some Dir ∧ ¬ has_file_below (files w) q in
  ∃ w',
    remove_empty_dirs order self w = (Return tt, w')
    ∧ (∀ q, barren q → files w' !! q = None)
    ∧ (∀ q, ¬ barren q → files w' !! q = files w !! q).
Proof.
  intros Hperm Hwf b barren.
  destruct (remove_empty_dirs_spec order Hperm self w Hwf)
    as (w' & Hrun & Hwf' & Hs & Hp).
  exists w'. split_and!; [done|..].
  - intros q (Hb & Hd & Hno).
    destruct (Hs q) as [Heq|(_ & _ & H)]; [|done].
    exfalso. apply Hno. eapply shrunk_has_file_back; [done|].
    apply Hp; [done|congruence].
  - intros q Hq. destruct (Hs q) as [Heq|(Hb & Hd & Hnone)]; [done|].
    exfalso. apply Hq. split_and!; [done|done|].
    intros H. eapply gone_has_no_file; [exact Hwf'|exact Hnone|].
    by eapply shrunk_has_file.
Qed.

Lemma remove_empty_dirs_exact_witness :
  let b := base_dir ds in
  let barren q :=
    Path.below b q ∧ files dataset !! q = Some Dir
    ∧ ¬ has_file_below (files dataset) q in
  ∃ w',
    remove_empty_dirs listed ds dataset = (Return tt, w')
    ∧ (∀ q, barren q → files w' !! q = None)
    ∧ (∀ q, ¬ barren q → files w' !! q = files dataset !! q).
Proof.
  apply (remove_empty_dirs_exact listed ds dataset).
  - intros l. reflexivity.
  - apply well_formed_decide. apply (bool_decide_unpack _). vm_compute. exact I.
Defined.

(** X13.  A second [remove_empty_dirs] finds nothing to remove. *)
Theorem remove_empty_dirs_idempotent order self w :
  (∀ l, order l ≡ₚ l) →
  well_formed (files w) →
  let once := run (remove_empty_dirs order self) w in
  (remove_empty_dirs order self once).1 = Return tt
  ∧ files (run (remove_empty_dirs order self) once) = files once.
Proof.
  intros Hperm Hwf once. subst once. unfold run.
  destruct (remove_empty_dirs_spec order Hperm self w Hwf)
    as (w1 & -> & Hwf1 & _ & Hp1). cbn [snd].
  destruct (remove_empty_dirs_spec order Hperm self w1 Hwf1)
    as (w2 & -> & Hwf2 & Hs2 & _). cbn [fst snd]. split; [done|].
  apply map_eq. intros q.
  destruct (Hs2 q) as [Heq|(Hb & Hd & Hnone)]; [done|].
  exfalso. eapply gone_has_no_file; [exact Hwf2|exact Hnone|].
  eapply shrunk_has_file; [done|]. by apply Hp1.
Qed.

Lemma remove_empty_dirs_idempotent_witness :
  let once := run (remove_empty_dirs listed ds) dataset in
  (remove_empty_dirs listed ds once).1 = Return tt
  ∧ files (run (remove_empty_dirs listed ds) once) = files once.
Proof.
  apply (remove_empty_dirs_idempotent listed ds dataset).
  - intros l. reflexivity.
  - apply well_formed_decide. apply (bool_decide_unpack _). vm_compute. exact I.
Defined.

(** ** The manifest, for every root *)

Lemma string_app_nil_r (s : string) : s +:+ "" = s.
Proof.
  induction s as [|a s IH]; [done|].
  change (String a s +:+ "") with (String a (s +:+ "")). by rewrite IH.
Qed.

Lemma string_app_assoc (s1 s2 s3 : string) :
  (s1 +:+ s2) +:+ s3 = s1 +:+ (s2 +:+ s3).
Proof.
  induction s1 as [|a s1 IH]; [done|].
  change ((String a s1 +:+ s2) +:+ s3) with (String a ((s1 +:+ s2) +:+ s3)).
  by rewrite IH.
Qed.

Lemma concat_empty_cons (x : string) (l : list string) :
  String.concat "" (x :: l) = x +:+ String.concat "" l.
Proof.
  destruct l as [|y l]; [|done].
  change (String.concat "" [x]) with x. by rewrite string_app_nil_r.
Qed.

Lemma concat_empty_app (l1 l2 : list string) :
  String.concat "" (l1 ++ l2) = String.concat "" l1 +:+ String.concat "" l2.
Proof.
  induction l1 as [|x l1 IH]; [done|].
  change ((x :: l1) ++ l2) with (x :: (l1 ++ l2)).
  by rewrite !concat_empty_cons, IH, string_app_assoc.
Qed.

(** [str(p / "a/b")] is [str(p)] followed by ["/a/b"], except at the root
    of the file system, whose [str] is the slash alone. *)
Lemma str_app (p l : path) :
  p ≠ [] → Path.str (p ++ l) = Path.str p +:+ String.concat "" ((λ n, "/" +:+ n) <$> l).
Proof.
  intros Hp. unfold Path.str. destruct p as [|x p]; [done|].
  change ((x :: p) ++ l) with (x :: (p ++ l)). cbv iota.
  change (x :: (p ++ l)) with ((x :: p) ++ l).
  by rewrite fmap_app, concat_empty_app.
Qed.

(** X14.  For every root other than the root of the file system and every list
    of class names, [create_yaml] hands the emitter [train] and [val] as
    the root's path followed by [/images/train] and [/images/val], [nc]
    as the number of names and [names] as given, in this order, and what
    the emitter returns replaces whatever regular file [dataset.yaml]
    was. *)
Theorem create_yaml_any_root safe_dump self names t w :
  let b := base_dir self in
  let yaml_path := Path.child b "dataset.yaml" in
  b ≠ [] →
  files w !! b = Some Dir →
  files w !! yaml_path ≠ Some Dir →
  safe_dump [("train", YStr (Path.str b +:+ "/images/train"));
             ("val", YStr (Path.str b +:+ "/images/val"));
             ("nc", YInt (length names)); ("names", YList names)] = Return t →
  create_yaml unlocked safe_dump self (Some names) w
  = (Return tt,
     World (<[yaml_path := File (Utf8 t)]> (files w))
       (stdout w ++ [Created yaml_path])).
Proof.
  intros b yaml_path Hne Hb Hy Hdump.
  apply (create_yaml_writes safe_dump self (Some names) t w Hb Hy).
  unfold manifest, Path.joinpath.
  change (Path.parse "images/train") with ["images"; "train"].
  change (Path.parse "images/val") with ["images"; "val"].
  rewrite !str_app by done. exact Hdump.
Qed.

Lemma create_yaml_any_root_witness :
  create_yaml unlocked keys_only ds (Some ["tray"; "cup"; "fork"]) dataset
  = (Return tt,
     World (<[Path.child (base_dir ds) "dataset.yaml"
              := File (Utf8 (Text.of_string "train val nc names"))]>
              (files dataset))
       (stdout dataset ++ [Created (Path.child (base_dir ds) "dataset.yaml")])).
Proof.
  apply (create_yaml_any_root keys_only ds ["tray"; "cup"; "fork"]
           (Text.of_string "train val nc names") dataset).
  - discriminate.
  - vm_compute. reflexivity.
  - vm_compute. discriminate.
  - vm_compute. reflexivity.
Defined.

(** X15.  When [dataset.yaml] cannot be opened for writing, because the path
    is a directory or the file is locked, [create_yaml] leaves the tree
    as it was, prints the failure and returns normally; the emitter is
    not consulted. *)
Theorem create_yaml_cannot_open locked safe_dump self class_names w :
  let yaml_path := Path.child (base_dir self) "dataset.yaml" in
  files w !! yaml_path = Some Dir
  ∨ (is_file (files w) yaml_path = true ∧ locked yaml_path = true) →
  create_yaml locked safe_dump self class_names w
  = (Return tt,
     World (files w)
       (stdout w ++ [FailedToCreateYaml
                       (if is_dir (files w) yaml_path then IsADirectoryError
                        else PermissionError)])).
Proof.
  intros yaml_path H.
  unfold create_yaml, try_except, bind, open_w, print, Path.joinpath.
  change (Path.parse "dataset.yaml") with ["dataset.yaml"].
  change (base_dir self ++ ["dataset.yaml"]) with yaml_path.
  unfold is_dir, is_file in *.
  destruct H as [Hd|[Hf Hl]].
  - rewrite Hd. by rewrite bool_decide_eq_true_2.
  - destruct (files w !! yaml_path) as [[c|]|]; try done.
    rewrite Hl. by rewrite bool_decide_eq_false_2.
Qed.

Lemma create_yaml_cannot_open_witness :
  let locked := λ q : path, bool_decide (q = ["data"; "ds"; "dataset.yaml"]) in
  let w := tree [([], Dir); (["data"], Dir); (["data"; "ds"], Dir);
                 (["data"; "ds"; "dataset.yaml"], label "nc: 1")] in
  create_yaml locked keys_only ds None w
  = (Return tt,
     World (files w) (stdout w ++ [FailedToCreateYaml PermissionError])).
Proof.
  apply (create_yaml_cannot_open
           (λ q : path, bool_decide (q = ["data"; "ds"; "dataset.yaml"]))
           keys_only ds None
           (tree [([], Dir); (["data"], Dir); (["data"; "ds"], Dir);
                  (["data"; "ds"; "dataset.yaml"], label "nc: 1")])).
  right. split; vm_compute; reflexivity.
Defined.

(** ** Flattening, then removing the empty directories *)

Lemma child_of_parent (b p : path) n :
  Path.child_of b (Path.child p n) → p = b.
Proof.
  intros [n' H]%child_of_inv. unfold Path.child in H.
  by apply app_inj_tail in H as [-> _].
Qed.

Lemma below_trans_under (b q q' : path) :
  Path.below b q → Path.under q q' → Path.below b q'.
Proof.
  intros [Hu Hne] Hq. split; [by etrans|]. intros ->.
  apply Hne. by apply (anti_symm prefix).
Qed.

Lemma below_child_of_under (b q q' : path) :
  Path.below b q → Path.under q q' → Path.child_of b q' → q = q'.
Proof.
  intros [[r ->] Hne] [r' ->] [_ Hlen]. rewrite !length_app in Hlen.
  destruct r as [|n r]; [by rewrite app_nil_r in Hne|].
  simpl in Hlen. destruct r; [|simpl in Hlen; lia].
  destruct r'; [by rewrite app_nil_r|simpl in Hlen; lia].
Qed.

(** X16.  After [flatten_all_files] on a tree without colliding names,
    [remove_empty_dirs] removes every directory below the root: what is
    left below the root is the regular files, all directly under it,
    each with the content it had. *)
Theorem flatten_then_remove_empty_dirs order self w :
  (∀ l, order l ≡ₚ l) →
  let b := base_dir self in
  well_formed (files w) →
  files w !! b = Some Dir →
  distinct_names b (files w) →
  (∀ f, Path.child_of b f → is_file (files w) f = true →
        Path.suffix (Path.name f) ≠ ".jpg") →
  ∃ w1 w2,
    flatten_all_files unlocked order self w = (Return tt, w1)
    ∧ remove_empty_dirs order self w1 = (Return tt, w2)
    ∧ (∀ q, Path.below b q → is_Some (files w2 !! q) →
         Path.child_of b q ∧ is_file (files w2) q = true)
    ∧ (∀ f c, Path.below b f → files w !! f = Some (File c) →
         files w2 !! Path.child b (Path.name f) = Some (File c))
    ∧ (∀ q, ¬ Path.below b q → files w2 !! q = files w !! q).
Proof.
  intros Hperm b Hwf Hb Huniq Hroot.
  destruct (flatten_all_files_spec order self w Hperm Hb Huniq Hroot)
    as (w1 & Hrun1 & _ & Hmoved & Hflat & Hdirs & Hout).
  fold b in Hmoved, Hflat, Hout.
  assert (Hwf1 : well_formed (files w1)).
  { intros p n [e He]. destruct e as [c|].
    - destruct (decide (Path.below b (Path.child p n))) as [Hbel|Hnot].
      + apply Hflat in He; [|done]. apply child_of_parent in He as ->.
        by apply Hdirs.
      + rewrite Hout in He by done. apply Hdirs, (Hwf p n). by rewrite He.
    - apply Hdirs in He. apply Hdirs, (Hwf p n). by rewrite He. }
  destruct (remove_empty_dirs_spec order Hperm self w1 Hwf1)
    as (w2 & Hrun2 & Hwf2 & Hs & Hp). fold b in Hs, Hp.
  exists w1, w2. split_and!; [done|done|..].
  - intros q Hq Hsome.
    destruct (files w2 !! q) as [[c|]|] eqn:Eq; [| |by destruct Hsome].
    + split; [|by unfold is_file; rewrite Eq].
      apply (Hflat q c Hq). rewrite <- Eq. symmetry.
      eapply shrunk_is_Some; [done|by rewrite Eq].
    + exfalso. destruct (Hp q Hq Eq) as (q' & c & Hu & Hq').
      assert (files w1 !! q' = Some (File c)) as H1.
      { rewrite <- Hq'. symmetry. eapply shrunk_is_Some; [done|by rewrite Hq']. }
      assert (q = q') as <-.
      { eapply below_child_of_under; [done|done|].
        eapply Hflat; [|done]. by eapply below_trans_under. }
      congruence.
  - intros f c Hf Hc. eapply shrunk_file; [done|]. by eapply Hmoved.
  - intros q Hq. destruct (Hs q) as [->|(Hb' & _)]; [by apply Hout|done].
Qed.

Lemma flatten_then_remove_empty_dirs_witness :
  let b := base_dir ds in
  ∃ w1 w2,
    flatten_all_files unlocked listed ds nested = (Return tt, w1)
    ∧ remove_empty_dirs listed ds w1 = (Return tt, w2)
    ∧ (∀ q, Path.below b q → is_Some (files w2 !! q) →
         Path.child_of b q ∧ is_file (files w2) q = true)
    ∧ (∀ f c, Path.below b f → files nested !! f = Some (File c) →
         files w2 !! Path.child b (Path.name f) = Some (File c))
    ∧ (∀ q, ¬ Path.below b q → files w2 !! q = files nested !! q).
Proof.
  apply (flatten_then_remove_empty_dirs listed ds nested).
  - intros l. reflexivity.
  - apply well_formed_decide. apply (bool_decide_unpack _). vm_compute. exact I.
  - vm_compute. reflexivity.
  - apply distinct_names_decide. apply (bool_decide_unpack _). vm_compute. exact I.
  - intros f Hc Hf. revert Hc. revert f Hf.
    apply (on_files_decide
             (λ f, Path.child_of (base_dir ds) f
                   → Path.suffix (Path.name f) ≠ ".jpg")).
    apply (bool_decide_unpack _). vm_compute. exact I.
Defined.

(** ** Cleaning, then removing the empty directories *)

(** Removing regular files from a tree leaves a tree. *)
Lemma well_formed_without_files (m m' : gmap path entry) :
  well_formed m →
  (∀ q, m' !! q = m !! q ∨ (is_file m q = true ∧ m' !! q = None)) →
  well_formed m'.
Proof.
  intros Hwf H p n Hsome.
  assert (m !! Path.child p n = m' !! Path.child p n) as Heq.
  { destruct (H (Path.child p n)) as [->|[_ Hn]]; [done|].
    rewrite Hn in Hsome. by destruct Hsome. }
  assert (m !! p = Some Dir) as Hp by (apply (Hwf p n); by rewrite Heq).
  destruct (H p) as [->|[Hf _]]; [done|].
  unfold is_file in Hf. by rewrite Hp in Hf.
Qed.

(** X17.  [remove_unwanted_files] followed by [remove_empty_dirs], with no
    file locked: every directory left below the root holds, at some
    depth, a regular file whose lower-cased suffix is allowed, and every
    regular file left below the root has such a suffix. *)
Theorem cleaning_leaves_only_datasets order self w :
  (∀ l, order l ≡ₚ l) →
  well_formed (files w) →
  let b := base_dir self in
  ∃ w1 w2,
    remove_unwanted_files unlocked order self w = (Return tt, w1)
    ∧ remove_empty_dirs order self w1 = (Return tt, w2)
    ∧ (∀ p, Path.below b p → files w2 !! p = Some Dir →
         ∃ q c, Path.under p q ∧ files w2 !! q = Some (File c)
                ∧ allowed (Path.name q))
    ∧ (∀ q c, Path.below b q → files w2 !! q = Some (File c) →
         allowed (Path.name q))
    ∧ (∀ q c, files w !! q = Some (File c) → allowed (Path.name q) →
         files w2 !! q = Some (File c)).
Proof.
  intros Hperm Hwf b.
  destruct (remove_unwanted_files_spec unlocked order Hperm self w)
    as (w1 & Hrun1 & Hw1). fold b in Hw1.
  assert (Hwf1 : well_formed (files w1)).
  { eapply well_formed_without_files; [exact Hwf|]. intros q. rewrite Hw1.
    case_decide as Hq; [right|by left]. by destruct Hq as (_ & ? & _). }
  destruct (remove_empty_dirs_spec order Hperm self w1 Hwf1)
    as (w2 & Hrun2 & Hwf2 & Hs & Hp). fold b in Hs, Hp.
  assert (Hallowed : ∀ q c, Path.below b q → files w2 !! q = Some (File c) →
                        allowed (Path.name q)).
  { intros q c Hq Hc.
    assert (files w1 !! q = Some (File c)) as H1.
    { rewrite <- Hc. symmetry. eapply shrunk_is_Some; [done|by rewrite Hc]. }
    rewrite Hw1 in H1. case_decide as Hd; [done|].
    destruct (decide (allowed (Path.name q))) as [|Hno]; [done|].
    exfalso. apply Hd. split; [done|]. split_and!; [|done|done].
    unfold is_file. by rewrite H1. }
  exists w1, w2. split_and!; [done|done| |done|].
  - intros p Hbel Hd. destruct (Hp p Hbel Hd) as (q & c & Hu & Hq).
    exists q, c. split_and!; [done|done|].
    eapply Hallowed; [|done]. by eapply below_trans_under.
  - intros q c Hq Ha. eapply shrunk_file; [done|]. rewrite Hw1.
    rewrite decide_False; [done|]. by intros (_ & _ & Hno & _).
Qed.

Lemma cleaning_leaves_only_datasets_witness :
  let b := base_dir ds in
  ∃ w1 w2,
    remove_unwanted_files unlocked listed ds dataset = (Return tt, w1)
    ∧ remove_empty_dirs listed ds w1 = (Return tt, w2)
    ∧ (∀ p, Path.below b p → files w2 !! p = Some Dir →
         ∃ q c, Path.under p q ∧ files w2 !! q = Some (File c)
                ∧ allowed (Path.name q))
    ∧ (∀ q c, Path.below b q → files w2 !! q = Some (File c) →
         allowed (Path.name q))
    ∧ (∀ q c, files dataset !! q = Some (File c) → allowed (Path.name q) →
         files w2 !! q = Some (File c)).
Proof.
  apply (cleaning_leaves_only_datasets listed ds dataset).
  - intros l. reflexivity.
  - apply well_formed_decide. apply (bool_decide_unpack _). vm_compute. exact I.
Defined.

(** ** Nothing to do *)

(** X18.  On a root that holds no regular file at any depth, flattening, the
    label update and the cleaner remove and rewrite nothing, under any
    locks. *)
Theorem nothing_to_do_without_files locked order self w :
  (∀ l, order l ≡ₚ l) →
  let b := base_dir self in
  (∀ q, Path.below b q → is_file (files w) q = false) →
  flatten_all_files locked order self w
  = (Return tt, World (files w) (stdout w ++ [Flattening]))
  ∧ (update_all_labels locked order self w).1 = Return tt
  ∧ files (run (update_all_labels locked order self) w) = files w
  ∧ (remove_unwanted_files locked order self w).1 = Return tt
  ∧ files (run (remove_unwanted_files locked order self) w) = files w.
Proof.
  intros Hperm b Hnone. split_and!.
  - unfold flatten_all_files, bind, print, get_files. cbn [fst snd files].
    fold b.
    assert (filter (λ f, is_file (files w) f) (rglob order b "" (files w)) = [])
      as ->; [|done].
    destruct (filter _ _) as [|f l] eqn:E; [done|].
    assert (f ∈ filter (λ f, is_file (files w) f) (rglob order b "" (files w)))
      as [Hf (Hbel & _)%(elem_of_rglob order Hperm)]%list_elem_of_filter
      by (rewrite E; by left).
    by rewrite Hnone in Hf.
  - by destruct (update_all_labels_spec locked order Hperm self w) as (w1 & -> & _).
  - destruct (update_all_labels_spec locked order Hperm self w) as (w1 & Hrun & H1).
    unfold run. rewrite Hrun. apply map_eq. intros q. rewrite H1.
    case_decide as Hq; [|done]. destruct Hq as [Hq _].
    specialize (Hnone q Hq). unfold is_file in Hnone. unfold reset_entry.
    by destruct (files w !! q) as [[c|]|].
  - by destruct (remove_unwanted_files_spec locked order Hperm self w)
      as (w1 & -> & _).
  - destruct (remove_unwanted_files_spec locked order Hperm self w)
      as (w1 & Hrun & H1).
    unfold run. rewrite Hrun. apply map_eq. intros q. rewrite H1.
    case_decide as Hq; [|done]. destruct Hq as [Hq (Hf & _)].
    by rewrite (Hnone q Hq) in Hf.
Qed.

Lemma no_files_decide (b : path) (m : gmap path entry) :
  map_Forall (λ q e, Path.below b q → e = Dir) m →
  ∀ q, Path.below b q → is_file m q = false.
Proof.
  intros H q Hq. unfold is_file.
  destruct (m !! q) as [e|] eqn:E; [|done]. by rewrite (H q e E Hq).
Qed.

Lemma nothing_to_do_without_files_witness :
  let w := tree [([], Dir); (["data"], Dir); (["data"; "ds"], Dir);
                 (["data"; "ds"; "old"], Dir);
                 (["data"; "ds"; "old"; "notes.txt"], Dir)] in
  flatten_all_files unlocked listed ds w
  = (Return tt, World (files w) (stdout w ++ [Flattening]))
  ∧ (update_all_labels unlocked listed ds w).1 = Return tt
  ∧ files (run (update_all_labels unlocked listed ds) w) = files w
  ∧ (remove_unwanted_files unlocked listed ds w).1 = Return tt
  ∧ files (run (remove_unwanted_files unlocked listed ds) w) = files w.
Proof.
  apply (nothing_to_do_without_files unlocked listed ds
           (tree [([], Dir); (["data"], Dir); (["data"; "ds"], Dir);
                  (["data"; "ds"; "old"], Dir);
                  (["data"; "ds"; "old"; "notes.txt"], Dir)])).
  - intros l. reflexivity.
  - apply no_files_decide. apply (bool_decide_unpack _). vm_compute. exact I.
Defined.

(** ** Blank label files *)

Module BlankText.
Import Text.

Local Abbreviation blank := (Forall (λ c, is_space c = true)).

Lemma split_from_pending tok t : tok ≠ [] → split_from tok t ≠ [].
Proof.
  revert tok. induction t as [|c t IH]; intros tok Htok; simpl.
  - by destruct tok.
  - destruct (is_space c).
    + destruct tok; [done|]. done.
    + apply IH. by destruct tok.
Qed.

Lemma split_nil_blank t : split t = [] ↔ blank t.
Proof.
  split.
  - unfold split. induction t as [|c t IH]; intros H; [constructor|].
    simpl in H. destruct (is_space c) eqn:Ec.
    + constructor; [done|]. by apply IH.
    + by apply split_from_pending in H.
  - intros H. unfold split. by rewrite split_from_spaces.
Qed.

Lemma render_line_None line : render_line line = None ↔ blank line.
Proof.
  unfold render_line. rewrite <- split_nil_blank, <- tokens_split.
  by destruct (tokens line).
Qed.

Lemma omap_render_nil ls :
  omap render_line ls = [] ↔ Forall blank ls.
Proof.
  induction ls as [|l ls IH]; [done|]. simpl.
  destruct (render_line l) as [r|] eqn:E.
  - split; [done|]. intros [H _]%Forall_cons.
    apply render_line_None in H. congruence.
  - rewrite IH, Forall_cons. apply render_line_None in E. tauto.
Qed.

Lemma concat_readlines t : concat (readlines t) = t.
Proof.
  induction t as [|c t IH]; [done|]. simpl.
  destruct (c =? LF)%N; simpl; [by rewrite IH|].
  destruct (readlines t) as [|l ls]; simpl in *; by rewrite <- IH.
Qed.

Lemma cr_is_space : is_space CR = true.
Proof. done. Qed.

Lemma universal_newlines_blank t : blank (universal_newlines t) ↔ blank t.
Proof.
  assert (H : ∀ (n : nat) (t : text), (length t ≤ n)%nat →
            (blank (universal_newlines t) ↔ blank t)).
  { clear t. induction n as [|n IH]; intros t Hlen.
    - by destruct t; [|simpl in Hlen; lia].
    - destruct t as [|c t]; [done|]. simpl in Hlen. simpl.
      destruct (c =? CR)%N eqn:Ec.
      + apply N.eqb_eq in Ec as ->.
        destruct t as [|d t].
        * rewrite !Forall_cons. by rewrite lf_is_space, cr_is_space.
        * destruct (d =? LF)%N eqn:Ed.
          -- apply N.eqb_eq in Ed as ->.
             rewrite !Forall_cons, lf_is_space, cr_is_space.
             rewrite (IH t) by (simpl in Hlen; lia). tauto.
          -- rewrite Forall_cons, lf_is_space.
             rewrite (IH (d :: t)) by lia.
             rewrite (Forall_cons _ CR), cr_is_space. tauto.
      + rewrite !Forall_cons. by rewrite (IH t) by lia. }
  by apply (H (length t)).
Qed.

Lemma reset_label_text_nil t : reset_label_text t = [] ↔ blank t.
Proof.
  rewrite reset_label_text_lines.
  rewrite <- universal_newlines_blank.
  rewrite <- (concat_readlines (universal_newlines t)) at 2.
  rewrite Forall_concat.
  rewrite <- omap_render_nil.
  pose proof (omap_rendered (readlines (universal_newlines t))) as Hr.
  destruct (omap render_line _) as [|r rs]; [done|].
  split; [|done]. simpl. apply Forall_cons in Hr as [(ws & _ & ->) _].
  unfold render. intros H. apply (f_equal length) in H.
  rewrite !length_app in H. simpl in H. lia.
Qed.

Lemma rendered_chars r c :
  rendered r → c ∈ r → is_space c = true → c = SPACE ∨ c = LF.
Proof.
  intros (ws & Hws & ->) Hc Hs. unfold render in Hc.
  apply elem_of_app in Hc as [Hc|Hc%list_elem_of_singleton]; [|by right].
  apply join_chars in Hc as [->|Hc]; [by left|congruence|].
  constructor; [apply zero_token|done].
Qed.

Lemma rendered_last r : rendered r → last r = Some LF.
Proof. intros (ws & _ & ->). unfold render. apply last_snoc. Qed.

Lemma concat_last {A} (ls : list (list A)) (x : A) :
  ls ≠ [] → Forall (λ l, last l = Some x) ls → last (concat ls) = Some x.
Proof.
  induction ls as [|l ls IH]; [done|]. intros _ [Hl Hls]%Forall_cons.
  destruct ls as [|l' ls].
  - simpl. by rewrite app_nil_r.
  - change (concat (l :: l' :: ls)) with (l ++ concat (l' :: ls)).
    specialize (IH ltac:(done) Hls).
    destruct (concat (l' :: ls)) as [|y ys] using rev_ind; [done|].
    rewrite app_assoc, last_snoc. by rewrite last_snoc in IH.
Qed.

End BlankText.

(** X10.  What [_reset_label_classes] writes is empty exactly when the file
    held nothing but whitespace, the empty file included.  Otherwise it
    ends with a newline, and in every case the only whitespace it holds
    is single spaces and newlines: tabs, carriage returns and the like
    are gone. *)
Theorem reset_label_text_blank (t : Text.text) :
  (Text.reset_label_text t = [] ↔ Forall (λ c, Text.is_space c = true) t)
  ∧ (Text.reset_label_text t ≠ [] →
       last (Text.reset_label_text t) = Some Text.LF)
  ∧ Forall (λ c, Text.is_space c = true → c = Text.SPACE ∨ c = Text.LF)
      (Text.reset_label_text t).
Proof.
  split_and!.
  - apply BlankText.reset_label_text_nil.
  - intros Hne. rewrite TextFacts.reset_label_text_lines in *.
    apply BlankText.concat_last.
    + intros H. by rewrite H in Hne.
    + eapply Forall_impl; [apply TextFacts.omap_rendered|].
      intros r. apply BlankText.rendered_last.
  - rewrite TextFacts.reset_label_text_lines. apply Forall_concat.
    eapply Forall_impl; [apply TextFacts.omap_rendered|].
    intros r Hr. apply Forall_forall. intros c Hc.
    by eapply BlankText.rendered_chars.
Qed.

(** ** The constructor, twice *)

(** X3.  Constructing a second [DatasetPreparator] on the directory of a
    first one changes nothing. *)
Theorem init_twice (base_dir0 : path) self w w1 :
  __init__ base_dir0 w = (Return self, w1) →
  __init__ base_dir0 w1 = (Return self, w1).
Proof.
  unfold __init__, bind. intros H.
  destruct (path_mkdir (length base_dir0) base_dir0 true true w)
    as [[[]|e] w0] eqn:Hrun; [|done].
  injection H as <- <-.
  by rewrite (path_mkdir_existing _ _ _ _ (path_mkdir_is_dir _ _ _ _ _ _ Hrun)).
Qed.

Lemma init_twice_witness :
  __init__ ["data"; "ds"] (run (__init__ ["data"; "ds"]) (tree [([], Dir)]))
  = (Return ds, run (__init__ ["data"; "ds"]) (tree [([], Dir)])).
Proof.
  apply (init_twice ["data"; "ds"] ds (tree [([], Dir)])).
  vm_compute. reflexivity.
Defined.

(** ** One move *)

Section OneMove.
Context (locked : path → bool) (order : list path → list path).

Lemma os_unlink_dst_confined src dst w :
  confined src dst w (os_unlink locked dst w).2.
Proof.
  unfold os_unlink. destruct (files w !! dst) as [[c|]|]; try apply confined_refl.
  destruct (locked dst); [apply confined_refl|]. split; [done|]. simpl.
  intros q _ Hd _. apply lookup_delete_ne. by intros ->.
Qed.

Lemma move_file_safely_frame src dst_dir w q :
  let dst := Path.child dst_dir (Path.name src) in
  ¬ Path.under src q → ¬ Path.under dst q →
  is_Some (files w !! q) ∨ ¬ Path.under q dst →
  files (run (_move_file_safely locked order src dst_dir) w) !! q
  = files w !! q.
Proof.
  intros dst Hs Hd Hq.
  unfold run, _move_file_safely, try_except, bind, get_files. cbn [fst snd].
  fold dst.
  set (w1 := ((if exists_ (files w) dst
                   && String.eqb (Path.suffix (Path.name dst)) ".jpg"
               then os_unlink locked dst else ret tt) w)).
  assert (H1 : confined src dst w w1.2).
  { subst w1. destruct (_ && _); [apply os_unlink_dst_confined|apply confined_refl]. }
  destruct w1 as [[[]|e] w1']; cbn [snd] in *.
  - pose proof (shutil_move_confined locked order src dst w1') as H2.
    pose proof (confined_trans _ _ _ _ _ H1 H2) as [_ H].
    destruct (shutil_move locked order src dst w1') as [[[]|e] w2];
      cbn [snd print files] in *; by apply H.
  - destruct H1 as [_ H]. cbn [print snd files]. by apply H.
Qed.

End OneMove.

(** X7.  [_move_file_safely] changes nothing but its source, its destination
    and what lies below them: in a tree where the destination directory
    exists, every other path holds afterwards what it held before,
    whether the move succeeded or not. *)
Theorem move_file_safely_touches_only locked order src dst_dir w :
  well_formed (files w) →
  is_Some (files w !! dst_dir) →
  let dst := Path.child dst_dir (Path.name src) in
  ∀ q, ¬ Path.under src q → ¬ Path.under dst q →
       files (run (_move_file_safely locked order src dst_dir) w) !! q
       = files w !! q.
Proof.
  intros Hwf Hdir dst q Hs Hd. apply move_file_safely_frame; [done|done|].
  destruct (decide (Path.under q dst_dir)) as [Hu|Hn].
  - left. by eapply well_formed_under.
  - right. intros [H|H]%under_app_cases; [done|]. by apply Hd.
Qed.

Lemma move_file_safely_touches_only_witness :
  let src := ["data"; "ds"; "cam1"; "b.jpg"] in
  let q := ["data"; "ds"; "cam1"; "b.txt"] in
  files (run (_move_file_safely unlocked listed src ["data"; "ds"]) nested) !! q
  = files nested !! q.
Proof.
  apply (move_file_safely_touches_only unlocked listed
           ["data"; "ds"; "cam1"; "b.jpg"] ["data"; "ds"] nested).
  - apply well_formed_decide. apply (bool_decide_unpack _). vm_compute. exact I.
  - eexists. vm_compute. reflexivity.
  - apply (bool_decide_unpack _). vm_compute. exact I.
  - apply (bool_decide_unpack _). vm_compute. exact I.
Defined.

(** X8.  The deletion that precedes the move of a [.jpg] is not undone when
    the move fails: with the source missing, an existing destination of
    suffix [.jpg] is deleted, the error is printed and the call returns
    normally. *)
Theorem move_file_safely_missing_source order src dst_dir c w :
  let dst := Path.child dst_dir (Path.name src) in
  files w !! src = None →
  files w !! dst = Some (File c) →
  Path.suffix (Path.name src) = ".jpg" →
  _move_file_safely unlocked order src dst_dir w
  = (Return tt,
     World (delete dst (files w))
       (stdout w ++ [ErrorMoving src dst_dir FileNotFoundError])).
Proof.
  intros dst Hsrc Hdst Hsuf.
  unfold _move_file_safely, try_except, bind, get_files. cbn [fst snd].
  fold dst. unfold exists_. rewrite Hdst.
  rewrite bool_decide_eq_true_2 by done.
  replace (Path.name dst) with (Path.name src) by (symmetry; apply name_child).
  rewrite Hsuf. cbn [andb String.eqb Ascii.eqb Bool.eqb].
  unfold os_unlink. rewrite Hdst. cbn [unlocked].
  unfold shutil_move, is_dir. cbn [files set_files].
  rewrite lookup_delete_eq. rewrite bool_decide_eq_false_2 by done.
  assert (Hs : delete dst (files w) !! src = None).
  { destruct (decide (src = dst)) as [Heq|Hne];
      [rewrite Heq; apply lookup_delete_eq|by rewrite lookup_delete_ne]. }
  unfold try_except, os_rename. cbn [files set_files]. rewrite Hs.
  unfold move_fallback, is_dir. cbn [files set_files]. rewrite Hs.
  rewrite bool_decide_eq_false_2 by done.
  unfold bind, shutil_copy2, is_dir. cbn [files set_files].
  rewrite lookup_delete_eq, bool_decide_eq_false_2 by done.
  rewrite Hs. done.
Qed.

Lemma move_file_safely_missing_source_witness :
  _move_file_safely unlocked listed ["data"; "ds"; "gone"; "a.jpg"]
    ["data"; "ds"] picture_at_root
  = (Return tt,
     World (delete ["data"; "ds"; "a.jpg"] (files picture_at_root))
       (stdout picture_at_root
        ++ [ErrorMoving ["data"; "ds"; "gone"; "a.jpg"] ["data"; "ds"]
              FileNotFoundError])).
Proof.
  apply (move_file_safely_missing_source listed
           ["data"; "ds"; "gone"; "a.jpg"] ["data"; "ds"] (Binary [1%N])
           picture_at_root).
  - vm_compute. reflexivity.
  - vm_compute. reflexivity.
  - vm_compute. reflexivity.
Defined.

(** ** The logger *)

Section LoggerFacts.
Context (REPORTS_DIR : string) (openable : string → bool).
Context (strftime asctime : nat → string).

Lemma append_nonempty (s t : string) : t ≠ "" → s +:+ t ≠ "".
Proof.
  intros Ht. destruct s as [|a s]; [done|].
  change (String a s +:+ t) with (String a (s +:+ t)). discriminate.
Qed.

Lemma os_path_join_nonempty (a b : string) :
  b ≠ "" → Logger.os_path_join a b ≠ "".
Proof.
  intros Hb. unfold Logger.os_path_join.
  destruct (Logger.starts_with_sep b); [done|].
  destruct (_ || _); by repeat apply append_nonempty.
Qed.

Lemma log_path_nonempty t file_name :
  Logger.log_path REPORTS_DIR strftime t file_name ≠ "".
Proof. apply os_path_join_nonempty, append_nonempty. discriminate. Qed.

(** [configure] on a root logger without handlers. *)
Lemma configure_fresh file_name dbg s :
  Logger.handlers s = [] →
  let path := Logger.log_path REPORTS_DIR strftime (Logger.clock s) file_name in
  openable path = true →
  Logger.configure REPORTS_DIR openable strftime file_name dbg s
  = (Logger.Ok tt,
     Logger.State [Logger.FileHandler path]
       (if dbg then Logger.DEBUG else Logger.INFO)
       (Some (strftime (Logger.clock s) +:+ file_name))
       (<[path := default [] (Logger.log_files s !! path)]> (Logger.log_files s))
       (Logger.stderr s) (Logger.stdout s) (S (Logger.clock s))).
Proof.
  intros Hh path Hopen.
  unfold Logger.configure, Logger.bind, Logger.tick, Logger.basicConfig.
  cbn [Logger.handlers Logger.clock Logger.set_script_name].
  rewrite Hh. fold (Logger.log_path REPORTS_DIR strftime (Logger.clock s) file_name).
  fold path.
  rewrite (proj2 (String.eqb_neq _ _)) by apply log_path_nonempty.
  rewrite Hopen. by destruct dbg.
Qed.

(** [configure] on a root logger that has a handler: only the name and
    the level change. *)
Lemma configure_again file_name dbg s :
  Logger.handlers s ≠ [] →
  Logger.configure REPORTS_DIR openable strftime file_name dbg s
  = (Logger.Ok tt,
     Logger.State (Logger.handlers s)
       (if dbg then Logger.DEBUG else Logger.INFO)
       (Some (strftime (Logger.clock s) +:+ file_name))
       (Logger.log_files s) (Logger.stderr s) (Logger.stdout s)
       (S (Logger.clock s))).
Proof.
  intros Hh.
  unfold Logger.configure, Logger.bind, Logger.tick, Logger.basicConfig.
  cbn [Logger.handlers Logger.clock Logger.set_script_name].
  destruct (Logger.handlers s) as [|h hs] eqn:E; [done|]. by destruct dbg.
Qed.

(** A call of one of the four methods on a root logger with one
    handler. *)
Lemma method_one_handler h l m p s :
  Logger.handlers s = [h] →
  Logger.method openable asctime l m p s
  = (Logger.Ok tt,
     let enabled := (Logger.levelno (Logger.level s) <=? Logger.levelno l)%N in
     let text := Logger.format_record asctime h (Logger.clock s) l m in
     let out := Logger.stdout s ++ (if p then [m] else []) in
     if enabled then
       match h with
       | Logger.FileHandler f =>
           Logger.State [h] (Logger.level s) (Logger.script_name s)
             (<[f := default [] (Logger.log_files s !! f) ++ [text]]>
                (Logger.log_files s))
             (Logger.stderr s) out (S (Logger.clock s))
       | Logger.StreamHandler =>
           Logger.State [h] (Logger.level s) (Logger.script_name s)
             (Logger.log_files s) (Logger.stderr s ++ [text]) out
             (S (Logger.clock s))
       end
     else
       Logger.State [h] (Logger.level s) (Logger.script_name s)
         (Logger.log_files s) (Logger.stderr s) out (Logger.clock s)).
Proof.
  intros Hh. destruct s as [hs lv sn fs err out ck]. cbn in Hh. subst hs.
  destruct l; cbn [Logger.method];
    unfold Logger.debug, Logger.info, Logger.warning, Logger.error,
      Logger.logging_log, Logger.root_log, Logger.bind, Logger.tick,
      Logger.print, Logger.ret;
    cbn [Logger.handlers Logger.level Logger.clock Logger.stdout Logger.stderr
         Logger.log_files Logger.script_name];
    destruct (_ <=? _)%N; destruct h as [f|]; destruct p;
    cbn [foldl Logger.emit Logger.set_log_files Logger.set_stderr
         Logger.set_stdout Logger.handlers Logger.level Logger.clock
         Logger.stdout Logger.stderr Logger.log_files Logger.script_name];
    by rewrite ?app_nil_r.
Qed.

End LoggerFacts.

(** X19.  After [configure] on a root logger that has no handler yet, the
    file [get_log_path] names exists and is the one the four methods
    write to: a call appends one line, stamped and with its level name,
    when its level is at least the configured one ([DEBUG] when [debug]
    was set, [INFO] otherwise) and nothing when it is not; what the file
    held before is kept, no other file and nothing on [stderr] is
    written, and the message is printed exactly when [to_print] is
    set, whatever the level. *)
Theorem logged_to_the_configured_file
    REPORTS_DIR openable strftime asctime file_name dbg s :
  Logger.handlers s = [] →
  let path := Logger.log_path REPORTS_DIR strftime (Logger.clock s) file_name in
  openable path = true →
  let s1 :=
    Logger.run (Logger.configure REPORTS_DIR openable strftime file_name dbg) s in
  let old := default [] (Logger.log_files s !! path) in
  (Logger.configure REPORTS_DIR openable strftime file_name dbg s).1
  = Logger.Ok tt
  ∧ Logger.get_log_path REPORTS_DIR s1 = (Logger.Ok path, s1)
  ∧ Logger.log_files s1 !! path = Some old
  ∧ ∀ l m p,
      let s2 := Logger.run (Logger.method openable asctime l m p) s1 in
      let line :=
        asctime (S (Logger.clock s)) +:+ " " +:+ Logger.levelname l +:+ ": " +:+ m in
      let floor := if dbg then Logger.DEBUG else Logger.INFO in
      (Logger.method openable asctime l m p s1).1 = Logger.Ok tt
      ∧ Logger.log_files s2 !! path
        = Some (old ++ (if (Logger.levelno floor <=? Logger.levelno l)%N
                        then [line] else []))
      ∧ (∀ f, f ≠ path → Logger.log_files s2 !! f = Logger.log_files s !! f)
      ∧ Logger.stderr s2 = Logger.stderr s
      ∧ Logger.stdout s2 = Logger.stdout s ++ (if p then [m] else []).
Proof.
  intros Hh path Hopen s1 old. subst s1. unfold Logger.run.
  rewrite (configure_fresh REPORTS_DIR openable strftime file_name dbg s Hh Hopen).
  fold path. cbn [fst snd]. split_and!; [done| | |].
  { unfold Logger.get_log_path. cbn [Logger.script_name]. done. }
  { cbn [Logger.log_files]. by rewrite lookup_insert_eq. }
  intros l m p. cbv zeta.
  rewrite (method_one_handler openable asctime (Logger.FileHandler path) l m p)
    by done.
  cbn [fst snd Logger.level Logger.clock Logger.log_files Logger.stderr
       Logger.stdout Logger.script_name Logger.format_record].
  destruct (_ <=? _)%N;
    cbn [Logger.log_files Logger.stderr Logger.stdout]; split_and!; try done.
  - by rewrite lookup_insert_eq, lookup_insert_eq.
  - intros f Hf. by rewrite !lookup_insert_ne.
  - by rewrite lookup_insert_eq, app_nil_r.
  - intros f Hf. by rewrite lookup_insert_ne.
Qed.

(** X20.  A second [configure] does not move the log: the handler of the
    first call stays, so the lines still go to the first file, while
    [get_log_path] now names the file of the second call, which is
    neither created nor written.  The level is the one of the second
    call. *)
Theorem second_configure_keeps_first_file
    REPORTS_DIR openable strftime asctime file_name1 dbg1 file_name2 dbg2 s :
  Logger.handlers s = [] →
  let path1 := Logger.log_path REPORTS_DIR strftime (Logger.clock s) file_name1 in
  let path2 :=
    Logger.log_path REPORTS_DIR strftime (S (Logger.clock s)) file_name2 in
  openable path1 = true →
  let s1 :=
    Logger.run (Logger.configure REPORTS_DIR openable strftime file_name1 dbg1) s in
  let s2 :=
    Logger.run (Logger.configure REPORTS_DIR openable strftime file_name2 dbg2) s1 in
  (Logger.configure REPORTS_DIR openable strftime file_name2 dbg2 s1).1
  = Logger.Ok tt
  ∧ Logger.get_log_path REPORTS_DIR s2 = (Logger.Ok path2, s2)
  ∧ Logger.handlers s2 = [Logger.FileHandler path1]
  ∧ Logger.level s2 = (if dbg2 then Logger.DEBUG else Logger.INFO)
  ∧ Logger.log_files s2 = Logger.log_files s1
  ∧ ∀ m p,
      let s3 := Logger.run (Logger.error openable asctime m p) s2 in
      Logger.log_files s3 !! path1
      = Some (default [] (Logger.log_files s !! path1)
              ++ [asctime (S (S (Logger.clock s))) +:+ " ERROR: " +:+ m])
      ∧ (path2 ≠ path1 →
           Logger.log_files s3 !! path2 = Logger.log_files s !! path2).
Proof.
  intros Hh path1 path2 Hopen s1 s2. subst s1 s2. unfold Logger.run.
  rewrite (configure_fresh REPORTS_DIR openable strftime file_name1 dbg1 s Hh Hopen).
  fold path1. cbn [snd].
  rewrite configure_again by done.
  cbn [fst snd Logger.handlers Logger.level Logger.clock Logger.log_files
       Logger.stderr Logger.stdout Logger.script_name].
  split_and!; try done.
  intros m p. cbv zeta.
  change (Logger.error openable asctime m p)
    with (Logger.method openable asctime Logger.ERROR m p).
  rewrite (method_one_handler openable asctime (Logger.FileHandler path1)) by done.
  cbn [fst snd Logger.level Logger.clock Logger.log_files Logger.stderr
       Logger.stdout Logger.script_name Logger.format_record Logger.levelname].
  assert ((Logger.levelno (if dbg2 then Logger.DEBUG else Logger.INFO)
           <=? Logger.levelno Logger.ERROR)%N = true) as -> by (by destruct dbg2).
  cbn [Logger.log_files]. split.
  - by rewrite lookup_insert_eq, lookup_insert_eq.
  - intros Hne. by rewrite !lookup_insert_ne.
Qed.

(** X21.  Logging before [configure] costs the log file.  The first call of
    any of the four methods on a root logger without handlers, even one
    whose message is dropped, installs the handler on [stderr]; a later
    [configure] then sets the name and the level but opens no file, and
    every line goes to [stderr], in its format, while no file is ever
    written.  And before any [configure], [get_log_path] raises
    [AttributeError]. *)
Theorem logging_before_configure
    REPORTS_DIR openable strftime asctime l0 m0 p0 file_name dbg s :
  Logger.handlers s = [] →
  let s1 := Logger.run (Logger.method openable asctime l0 m0 p0) s in
  let s2 :=
    Logger.run (Logger.configure REPORTS_DIR openable strftime file_name dbg) s1 in
  (Logger.script_name s = None →
     Logger.get_log_path REPORTS_DIR s = (Logger.Err Logger.AttributeError, s))
  ∧ Logger.handlers s1 = [Logger.StreamHandler]
  ∧ Logger.log_files s1 = Logger.log_files s
  ∧ (Logger.configure REPORTS_DIR openable strftime file_name dbg s1).1
    = Logger.Ok tt
  ∧ Logger.handlers s2 = [Logger.StreamHandler]
  ∧ Logger.log_files s2 = Logger.log_files s
  ∧ ∀ l m p,
      let s3 := Logger.run (Logger.method openable asctime l m p) s2 in
      let floor := if dbg then Logger.DEBUG else Logger.INFO in
      Logger.log_files s3 = Logger.log_files s
      ∧ Logger.stderr s3
        = Logger.stderr s2
          ++ (if (Logger.levelno floor <=? Logger.levelno l)%N
              then [Logger.levelname l +:+ ":root:" +:+ m] else []).
Proof.
  intros Hh s1 s2.
  assert (H1 : Logger.handlers s1 = [Logger.StreamHandler]
               ∧ Logger.log_files s1 = Logger.log_files s).
  { subst s1. destruct s as [hs lv sn fs err out ck]. cbn in Hh. subst hs.
    unfold Logger.run.
    destruct l0; cbn [Logger.method];
      unfold Logger.debug, Logger.info, Logger.warning, Logger.error,
        Logger.logging_log, Logger.root_log, Logger.bind, Logger.tick,
        Logger.print, Logger.ret, Logger.basicConfig;
      cbn [Logger.handlers Logger.level Logger.clock Logger.set_handlers];
      destruct (_ <=? _)%N; destruct p0; done. }
  destruct H1 as [Hh1 Hf1].
  assert (Hne : Logger.handlers s1 ≠ []) by (by rewrite Hh1).
  split_and!; [|done|done|..].
  - intros Hn. unfold Logger.get_log_path. by rewrite Hn.
  - subst s2. by rewrite configure_again.
  - subst s2. unfold Logger.run. by rewrite configure_again.
  - subst s2. unfold Logger.run. by rewrite configure_again.
  - intros l m p. cbv zeta. subst s2. unfold Logger.run.
    rewrite configure_again by done. cbn [snd].
    rewrite (method_one_handler openable asctime Logger.StreamHandler) by done.
    cbn [fst snd Logger.level Logger.clock Logger.log_files Logger.stderr
         Logger.stdout Logger.script_name Logger.format_record].
    destruct (_ <=? _)%N; cbn [Logger.log_files Logger.stderr];
      by rewrite ?app_nil_r.
Qed.

Lemma bind_ret_tt (c : Logger.L unit) s :
  Logger.bind c (λ _, Logger.ret tt) s = c s.
Proof. unfold Logger.bind, Logger.ret. by destruct (c s) as [[[]|e] s']. Qed.

(** X22.  [log_json] with one of the four category names does what the
    method of that name does with the [str] of the dictionary and
    without printing; with any other category, such as a level name in
    capitals, it does nothing at all and does not raise. *)
Theorem log_json_dispatch
    openable asctime (J : Type) (str : J → string) (json_dict : J) category s :
  Logger.log_json openable asctime J str json_dict "info" s
  = Logger.info openable asctime (str json_dict) false s
  ∧ Logger.log_json openable asctime J str json_dict "debug" s
    = Logger.debug openable asctime (str json_dict) false s
  ∧ Logger.log_json openable asctime J str json_dict "error" s
    = Logger.error openable asctime (str json_dict) false s
  ∧ Logger.log_json openable asctime J str json_dict "warning" s
    = Logger.warning openable asctime (str json_dict) false s
  ∧ (category ∉ ["info"; "debug"; "error"; "warning"] →
       Logger.log_json openable asctime J str json_dict category s
       = (Logger.Ok tt, s)).
Proof.
  split_and!;
    try (unfold Logger.info, Logger.debug, Logger.error, Logger.warning;
         by rewrite bind_ret_tt).
  intros Hc. unfold Logger.log_json, Logger.ret.
  repeat match goal with
  | |- context [String.eqb category ?c] =>
      destruct (String.eqb_spec category c) as [->|_];
        [exfalso; apply Hc; repeat first [by left | right]|]
  end.
  done.
Qed.

Lemma logged_to_the_configured_file_witness :
  let reports := "/repo/reports/" in
  let openable := λ _ : string, true in
  let path := "/repo/reports/2024.05.01_10:00:00_train.log" in
  let s1 :=
    Logger.run
      (Logger.configure reports openable Logger.sample_stamp "train" false)
      Logger.imported in
  (Logger.configure reports openable Logger.sample_stamp "train" false
     Logger.imported).1 = Logger.Ok tt
  ∧ Logger.get_log_path reports s1 = (Logger.Ok path, s1)
  ∧ Logger.log_files s1 !! path = Some []
  ∧ ∀ l m p,
      let s2 :=
        Logger.run (Logger.method openable Logger.sample_asctime l m p) s1 in
      let line :=
        Logger.sample_asctime 1 +:+ " " +:+ Logger.levelname l +:+ ": " +:+ m in
      (Logger.method openable Logger.sample_asctime l m p s1).1 = Logger.Ok tt
      ∧ Logger.log_files s2 !! path
        = Some ([] ++ (if (Logger.levelno Logger.INFO <=? Logger.levelno l)%N
                       then [line] else []))
      ∧ (∀ f, f ≠ path →
           Logger.log_files s2 !! f = Logger.log_files Logger.imported !! f)
      ∧ Logger.stderr s2 = Logger.stderr Logger.imported
      ∧ Logger.stdout s2
        = Logger.stdout Logger.imported ++ (if p then [m] else []).
Proof.
  apply (logged_to_the_configured_file "/repo/reports/" (λ _, true)
           Logger.sample_stamp Logger.sample_asctime "train" false
           Logger.imported).
  - reflexivity.
  - reflexivity.
Defined.

Lemma second_configure_keeps_first_file_witness :
  let reports := "/repo/reports/" in
  let openable := λ _ : string, true in
  let path1 := "/repo/reports/2024.05.01_10:00:00_train.log" in
  let path2 := "/repo/reports/2024.05.01_10:00:01_eval.log" in
  let s1 :=
    Logger.run
      (Logger.configure reports openable Logger.sample_stamp "train" false)
      Logger.imported in
  let s2 :=
    Logger.run
      (Logger.configure reports openable Logger.sample_stamp "eval" true) s1 in
  (Logger.configure reports openable Logger.sample_stamp "eval" true s1).1
  = Logger.Ok tt
  ∧ Logger.get_log_path reports s2 = (Logger.Ok path2, s2)
  ∧ Logger.handlers s2 = [Logger.FileHandler path1]
  ∧ Logger.level s2 = Logger.DEBUG
  ∧ Logger.log_files s2 = Logger.log_files s1
  ∧ ∀ m p,
      let s3 :=
        Logger.run (Logger.error openable Logger.sample_asctime m p) s2 in
      Logger.log_files s3 !! path1
      = Some (default [] (Logger.log_files Logger.imported !! path1)
              ++ [Logger.sample_asctime 2 +:+ " ERROR: " +:+ m])
      ∧ (path2 ≠ path1 →
           Logger.log_files s3 !! path2
           = Logger.log_files Logger.imported !! path2).
Proof.
  apply (second_configure_keeps_first_file "/repo/reports/" (λ _, true)
           Logger.sample_stamp Logger.sample_asctime "train" false "eval" true
           Logger.imported).
  - reflexivity.
  - reflexivity.
Defined.

Lemma logging_before_configure_witness :
  let reports := "/repo/reports/" in
  let openable := λ _ : string, true in
  let s := Logger.imported in
  let s1 :=
    Logger.run
      (Logger.method openable Logger.sample_asctime Logger.INFO "start" false) s in
  let s2 :=
    Logger.run
      (Logger.configure reports openable Logger.sample_stamp "train" false) s1 in
  (Logger.script_name s = None →
     Logger.get_log_path reports s = (Logger.Err Logger.AttributeError, s))
  ∧ Logger.handlers s1 = [Logger.StreamHandler]
  ∧ Logger.log_files s1 = Logger.log_files s
  ∧ (Logger.configure reports openable Logger.sample_stamp "train" false s1).1
    = Logger.Ok tt
  ∧ Logger.handlers s2 = [Logger.StreamHandler]
  ∧ Logger.log_files s2 = Logger.log_files s
  ∧ ∀ l m p,
      let s3 :=
        Logger.run (Logger.method openable Logger.sample_asctime l m p) s2 in
      let floor := Logger.INFO in
      Logger.log_files s3 = Logger.log_files s
      ∧ Logger.stderr s3
        = Logger.stderr s2
          ++ (if (Logger.levelno floor <=? Logger.levelno l)%N
              then [Logger.levelname l +:+ ":root:" +:+ m] else []).
Proof.
  apply (logging_before_configure "/repo/reports/" (λ _, true)
           Logger.sample_stamp Logger.sample_asctime Logger.INFO "start" false
           "train" false Logger.imported).
  reflexivity.
Defined.
